(** * bgpipe: stage attachment and the external I/O adapter

    A shallow embedding of the parts of [pkg/bgpipe/bgpipe.go] (event-name
    completion, pipeline reversal, stage attachment, adding stages and
    parsing their command-line arguments), of the external I/O adapter
    [extio] (Attach, ReadSingle, ReadBuf, ReadStream, SendMsg, WriteStream,
    OutputClose, InputClose) and of the TCP MD5 signature of
    [pkg/stages/util-tcp.go], with the properties the specification states
    about them and further properties read off the code.

    Go pointers to stages are addresses into a heap ([gmap]); a Go function
    that mutates its receiver and returns an error becomes a function
    returning an [outcome] that carries the mutated state alongside the
    error.  Functions of external libraries (koanf, strconv, bgpfix) are
    either modelled next to their use, with a note, or taken as section
    variables. *)

From Stdlib Require Import ZArith String Ascii List Bool Lia.
From Stdlib.Strings Require Import Byte.
From stdpp Require Import base option list gmap strings pretty.

Open Scope string_scope.
Open Scope list_scope.
Open Scope Z_scope.

(** ** Results of Go calls *)

(** [Ok a]: returned nil, state [a].  [Err e a]: returned the error [e],
    leaving the state [a] behind.  [Panic why]: a run-time panic. *)
Inductive outcome (E A : Type) : Type :=
| Ok (a : A)
| Err (e : E) (a : A)
| Panic (why : string).
Arguments Ok {E A} a.
Arguments Err {E A} e a.
Arguments Panic {E A} why.

(** ** Go standard library: strings and strconv *)

Module Strings.

(** [strings.IndexByte]: index of the first [c] in [s], or -1. *)
Fixpoint IndexByte (s : string) (c : ascii) : Z :=
  match s with
  | EmptyString => -1
  | String a s' =>
      if Ascii.eqb a c then 0
      else let i := IndexByte s' c in
           if i <? 0 then -1 else i + 1
  end.

(** The ASCII part of [strings.ToUpper]: a..z go to A..Z, every other
    byte is kept. *)
Definition upper_byte (a : ascii) : ascii :=
  let n := nat_of_ascii a in
  if ((97 <=? n) && (n <=? 122))%nat then ascii_of_nat (n - 32) else a.

Fixpoint ToUpperASCII (s : string) : string :=
  match s with
  | EmptyString => EmptyString
  | String a s' => String (upper_byte a) (ToUpperASCII s')
  end.

End Strings.

Module Strconv.

Definition is_digit (a : ascii) : bool :=
  let n := nat_of_ascii a in ((48 <=? n) && (n <=? 57))%nat.

Definition digit_val (a : ascii) : Z := Z.of_nat (nat_of_ascii a) - 48.

Fixpoint digits (s : string) (acc : Z) : option Z :=
  match s with
  | EmptyString => Some acc
  | String a s' =>
      if is_digit a then digits s' (10 * acc + digit_val a) else None
  end.

Definition min_int : Z := - 2 ^ 63.
Definition max_int : Z := 2 ^ 63 - 1.

(** [strconv.Atoi] on a 64-bit platform: an optional sign, then one or
    more decimal digits, the value within the range of [int]; [None] is
    any returned error (syntax or range). *)
Definition Atoi (s : string) : option Z :=
  match s with
  | EmptyString => None
  | String a s' =>
      let neg := Ascii.eqb a "-" in
      let body := if neg || Ascii.eqb a "+" then s' else s in
      match body with
      | EmptyString => None
      | _ =>
          match digits body 0 with
          | None => None
          | Some n =>
              let v := if neg then - n else n in
              if (min_int <=? v) && (v <=? max_int) then Some v else None
          end
      end
  end.

End Strconv.

(** ** koanf: the configuration store *)

Module Koanf.

(** The kinds of values stage flags are declared with. *)
Inductive kval : Type :=
| KBool (b : bool)
| KString (s : string)
| KStrings (l : list string).

Abbreviation koanf := (gmap string kval).

(** Typed getters answer the zero value for an unset key.  (koanf also
    coerces values of another kind; flags are loaded with the kind they
    were declared with, so the getters below only meet their own.) *)
Definition K_Bool (k : koanf) (key : string) : bool :=
  match k !! key with Some (KBool b) => b | _ => false end.

Definition K_String (k : koanf) (key : string) : string :=
  match k !! key with Some (KString s) => s | _ => "" end.

Definition K_Strings (k : koanf) (key : string) : list string :=
  match k !! key with Some (KStrings l) => l | _ => [] end.

Definition K_Set (k : koanf) (key : string) (v : kval) : koanf :=
  <[key := v]> k.

End Koanf.

(** ** cfgEvents: completion of event names *)

Module Events.

Section CfgEvents.

(** [strings.ToUpper] of the Go standard library. *)
Variable ToUpper : string -> string.

(** The body of the rewrite loop of [StageBase.cfgEvents], for one
    event name [et]. *)
Definition rewrite_event (et : string) : string :=
  let has_pkg := 0 <? Strings.IndexByte et "." in
  let has_lib := 0 <? Strings.IndexByte et "/" in
  if has_pkg && has_lib then et
  else if negb has_lib then
    if negb has_pkg then "bgpfix/pipe." +:+ ToUpper et
    else "bgpfix/" +:+ et
  else et.

(** [StageBase.cfgEvents]: the events under [key] of the stage's store
    [k], each one rewritten in place; nil (the empty list) if none. *)
Definition cfgEvents (k : Koanf.koanf) (key : string) : list string :=
  let events := Koanf.K_Strings k key in
  if (length events =? 0)%nat then []
  else map rewrite_event events.

End CfgEvents.

End Events.

(** ** bgpfix: directions, filters, inputs, callbacks *)

(** A Go pointer to a stage. *)
Definition ptr : Type := nat.

Module Msg.

(** [msg.Dir]; [DIR_NONE] is the zero value. *)
Inductive Dir : Type := DIR_NONE | DIR_L | DIR_R | DIR_LR.

Definition Dir_eqb (a b : Dir) : bool :=
  match a, b with
  | DIR_NONE, DIR_NONE | DIR_L, DIR_L | DIR_R, DIR_R | DIR_LR, DIR_LR => true
  | _, _ => false
  end.

End Msg.

Module Pipe.

(** [pipe.FilterMode], the modes that stage attachment uses. *)
Inductive FilterMode : Type :=
| FILTER_NONE | FILTER_ALL | FILTER_GE | FILTER_LE | FILTER_GT | FILTER_LT.

(** [pipe.Callback] and [pipe.Handler]: the fields attachment stamps.
    [Enabled] points at the [running] flag of a stage. *)
Record Callback : Type := mkCallback {
  cb_Id : Z;
  cb_Enabled : option ptr }.

Record Handler : Type := mkHandler {
  h_Id : Z;
  h_Enabled : option ptr }.

(** [pipe.Input]. *)
Record Input : Type := mkInput {
  in_Name : string;
  in_Id : Z;
  in_Dir : Msg.Dir;
  in_Reverse : bool;
  in_CallbackFilter : FilterMode;
  in_FilterValue : Z }.

(** [pipe.Options]: what stages register. *)
Record Options : Type := mkOptions {
  Callbacks : list Callback;
  Handlers : list Handler;
  Inputs : list Input }.

End Pipe.

(** ** The pipeline and its stages *)

Module Bgpipe.

Import Koanf Msg Pipe.

Inductive error : Type :=
| ErrStageCmd
| ErrStageDiff
| ErrStageStopped
| ErrFirstOrLast
| ErrLR
| ErrInject (v : string)      (* fmt.Errorf("%w: %s", ErrInject, v) *)
| ErrStage (msg : string).    (* an error of a stage implementation *)

(** [StageOptions], the role flags attachment reads. *)
Record StageOptions : Type := mkStageOptions {
  Bidir : bool;
  IsProducer : bool;
  IsConsumer : bool;
  IsStdin : bool;
  IsStdout : bool }.

(** The two directions of the pipe, [p.L] and [p.R]. *)
Inductive line : Type := LineL | LineR.

Record StageBase : Type := mkStageBase {
  Index : Z;
  Cmd : string;
  Name : string;
  K : koanf;
  Options : StageOptions;
  IsFirst : bool;
  IsLast : bool;
  IsLeft : bool;
  IsRight : bool;
  Dir : Msg.Dir;
  Upstream : option line;
  Downstream : option line;
  Logger : string;              (* the "stage" field of the logger *)
  callbacks : list Callback;
  handlers : list Handler;
  inputs : list Input }.

Definition set_Index (v : Z) (s : StageBase) : StageBase :=
  mkStageBase v (Cmd s) (Name s) (K s) (Options s) (IsFirst s) (IsLast s)
    (IsLeft s) (IsRight s) (Dir s) (Upstream s) (Downstream s) (Logger s)
    (callbacks s) (handlers s) (inputs s).

Definition set_K (v : koanf) (s : StageBase) : StageBase :=
  mkStageBase (Index s) (Cmd s) (Name s) v (Options s) (IsFirst s) (IsLast s)
    (IsLeft s) (IsRight s) (Dir s) (Upstream s) (Downstream s) (Logger s)
    (callbacks s) (handlers s) (inputs s).

Definition set_IsFirst (v : bool) (s : StageBase) : StageBase :=
  mkStageBase (Index s) (Cmd s) (Name s) (K s) (Options s) v (IsLast s)
    (IsLeft s) (IsRight s) (Dir s) (Upstream s) (Downstream s) (Logger s)
    (callbacks s) (handlers s) (inputs s).

Definition set_IsLast (v : bool) (s : StageBase) : StageBase :=
  mkStageBase (Index s) (Cmd s) (Name s) (K s) (Options s) (IsFirst s) v
    (IsLeft s) (IsRight s) (Dir s) (Upstream s) (Downstream s) (Logger s)
    (callbacks s) (handlers s) (inputs s).

Definition set_IsLeft (v : bool) (s : StageBase) : StageBase :=
  mkStageBase (Index s) (Cmd s) (Name s) (K s) (Options s) (IsFirst s)
    (IsLast s) v (IsRight s) (Dir s) (Upstream s) (Downstream s) (Logger s)
    (callbacks s) (handlers s) (inputs s).

Definition set_IsRight (v : bool) (s : StageBase) : StageBase :=
  mkStageBase (Index s) (Cmd s) (Name s) (K s) (Options s) (IsFirst s)
    (IsLast s) (IsLeft s) v (Dir s) (Upstream s) (Downstream s) (Logger s)
    (callbacks s) (handlers s) (inputs s).

(** [s.Dir], [s.Upstream] and [s.Downstream] are assigned together. *)
Definition set_Dir (d : Msg.Dir) (up down : option line) (s : StageBase)
  : StageBase :=
  mkStageBase (Index s) (Cmd s) (Name s) (K s) (Options s) (IsFirst s)
    (IsLast s) (IsLeft s) (IsRight s) d up down (Logger s)
    (callbacks s) (handlers s) (inputs s).

Definition set_Logger (v : string) (s : StageBase) : StageBase :=
  mkStageBase (Index s) (Cmd s) (Name s) (K s) (Options s) (IsFirst s)
    (IsLast s) (IsLeft s) (IsRight s) (Dir s) (Upstream s) (Downstream s) v
    (callbacks s) (handlers s) (inputs s).

Definition set_callbacks (v : list Callback) (s : StageBase) : StageBase :=
  mkStageBase (Index s) (Cmd s) (Name s) (K s) (Options s) (IsFirst s)
    (IsLast s) (IsLeft s) (IsRight s) (Dir s) (Upstream s) (Downstream s)
    (Logger s) v (handlers s) (inputs s).

Definition set_handlers (v : list Handler) (s : StageBase) : StageBase :=
  mkStageBase (Index s) (Cmd s) (Name s) (K s) (Options s) (IsFirst s)
    (IsLast s) (IsLeft s) (IsRight s) (Dir s) (Upstream s) (Downstream s)
    (Logger s) (callbacks s) v (inputs s).

Definition set_inputs (v : list Input) (s : StageBase) : StageBase :=
  mkStageBase (Index s) (Cmd s) (Name s) (K s) (Options s) (IsFirst s)
    (IsLast s) (IsLeft s) (IsRight s) (Dir s) (Upstream s) (Downstream s)
    (Logger s) (callbacks s) (handlers s) v.

(** The pipeline: global store, the stage slots ([None] is a nil slot),
    the stages the slots point to, and the options of the bgpfix pipe. *)
Record Bgpipe : Type := mkBgpipe {
  B_K : koanf;
  Stages : list (option ptr);
  heap : gmap ptr StageBase;
  P_Options : Pipe.Options }.

Definition set_Stages (v : list (option ptr)) (b : Bgpipe) : Bgpipe :=
  mkBgpipe (B_K b) v (heap b) (P_Options b).

Definition set_heap (v : gmap ptr StageBase) (b : Bgpipe) : Bgpipe :=
  mkBgpipe (B_K b) (Stages b) v (P_Options b).

Definition set_P_Options (v : Pipe.Options) (b : Bgpipe) : Bgpipe :=
  mkBgpipe (B_K b) (Stages b) (heap b) v.

(** Writing the stage at [s] back. *)
Definition store (s : ptr) (st : StageBase) (b : Bgpipe) : Bgpipe :=
  set_heap (<[s := st]> (heap b)) b.

(** *** Bgpipe.Attach: the --reverse block *)

(** The body of the loop over [b.Stages] for a non-nil stage at [idx]:
    take the slot's index, exchange the "left" and "right" options. *)
Definition reverse_stage (idx : Z) (s : StageBase) : StageBase :=
  let s := set_Index idx s in
  let left := K_Bool (K s) "left" in
  let right := K_Bool (K s) "right" in
  let s := set_K (K_Set (K s) "left" (KBool right)) s in
  set_K (K_Set (K s) "right" (KBool left)) s.

(** [for idx, s := range b.Stages], from slot [idx] on. *)
Fixpoint reverse_loop (idx : Z) (stages : list (option ptr))
    (h : gmap ptr StageBase) : gmap ptr StageBase :=
  match stages with
  | [] => h
  | None :: rest => reverse_loop (idx + 1) rest h
  | Some s :: rest => reverse_loop (idx + 1) rest (alter (reverse_stage idx) s h)
  end.

(** [if k.Bool("reverse") { slices.Reverse(b.Stages[1:]); ... }].
    Slicing an empty [b.Stages] from 1 panics. *)
Definition Attach_reverse (b : Bgpipe) : outcome error Bgpipe :=
  if K_Bool (B_K b) "reverse" then
    match Stages b with
    | [] => Panic "slice bounds out of range [1:0]"
    | s0 :: rest =>
        let stages := s0 :: rev rest in
        Ok (set_heap (reverse_loop 0 stages (heap b)) (set_Stages stages b))
    end
  else Ok b.

(** *** StageBase.attach *)

(** The loop over [s.B.Stages] resolving an "@name" reference: the index
    of the first non-nil stage named [v]; 0, the initial [fid], if none. *)
Fixpoint find_stage (h : gmap ptr StageBase) (stages : list (option ptr))
    (v : string) : Z :=
  match stages with
  | [] => 0
  | None :: rest => find_stage h rest v
  | Some s2 :: rest =>
      match h !! s2 with
      | Some st2 => if String.eqb (Name st2) v then Index st2
                    else find_stage h rest v
      | None => find_stage h rest v
      end
  end.

(** [switch v := k.String("in")]: the reverse and forward filter modes and
    the filter id, or the unknown-injection-target error. *)
Definition in_filter (st : StageBase) (b : Bgpipe)
  : error + (FilterMode * FilterMode * Z) :=
  let v := K_String (K st) "in" in
  if String.eqb v "next" || String.eqb v "" then
    inr (FILTER_GE, FILTER_LE, Index st)
  else if String.eqb v "here" then
    inr (FILTER_GT, FILTER_LT, Index st)
  else if String.eqb v "first" then
    inr (FILTER_NONE, FILTER_NONE, 0)
  else if String.eqb v "last" then
    inr (FILTER_ALL, FILTER_ALL, 0)
  else
    let fid :=
      match Strconv.Atoi v with
      | Some id => id
      | None =>
          match v with
          | String "@" _ => find_stage (heap b) (Stages b) v
          | _ => 0
          end
      end in
    if fid <=? 0 then inl (ErrInject v)
    else inr (FILTER_GE, FILTER_LE, fid).

(** The body of the loop over [s.inputs]. *)
Definition fix_input (idx : Z) (frev ffwd : FilterMode) (fid : Z)
    (li : Input) : Input :=
  if Dir_eqb (in_Dir li) DIR_L then
    mkInput (in_Name li) idx (in_Dir li) true frev fid
  else
    mkInput (in_Name li) idx (in_Dir li) false ffwd fid.

Definition fix_callback (s : ptr) (idx : Z) (cb : Callback) : Callback :=
  mkCallback idx (Some s).

Definition fix_handler (s : ptr) (idx : Z) (h : Handler) : Handler :=
  mkHandler idx (Some s).

(** [l[n:]]; slicing from beyond the length panics ([None]). *)
Definition slice_from {A : Type} (n : nat) (l : list A) : option (list A) :=
  if (n <=? length l)%nat then Some (drop n l) else None.

Section Attach.

(** [Bgpipe.StageCount], declared outside the files at hand. *)
Variable StageCount : Bgpipe -> Z.

(** [s.Stage.Attach()], the attach of the stage implementation: it may
    register callbacks, handlers and inputs, and may fail. *)
Variable Stage_Attach : ptr -> Bgpipe -> outcome error Bgpipe.

(** First part of [attach]: position, direction, [s.Dir]. *)
Definition attach_resolve (b : Bgpipe) (st : StageBase)
  : outcome error StageBase :=
  (* first / last? *)
  let st :=
    if Index st =? 1 then set_IsFirst true st
    else if Index st =? StageCount b then set_IsLast true st
    else st in
  (* left / right? *)
  let st := set_IsLeft (K_Bool (K st) "left") st in
  let st := set_IsRight (K_Bool (K st) "right") st in
  if IsLeft st && IsRight st && negb (Bidir (Options st)) then Err ErrLR st
  else
    let st :=
      if IsLeft st && IsRight st then st
      else if Bool.eqb (IsLeft st) (IsRight st) then
        let st := set_IsRight true st in
        let st :=
          if IsLast st && IsProducer (Options st) then set_IsRight false st
          else if IsFirst st && negb (IsProducer (Options st))
               then set_IsRight false st
          else st in
        set_IsLeft (negb (IsRight st)) st
      else st in
    (* set s.Dir *)
    if IsLeft st && IsRight st then
      Ok (set_Dir DIR_LR (Upstream st) (Downstream st) st)
    else if IsLeft st then
      Ok (set_Dir DIR_L (Some LineL) (Some LineR) st)
    else
      Ok (set_Dir DIR_R (Some LineR) (Some LineL) st).

(** Second part of [attach], after the stage's own attach returned nil:
    [cbs], [hds] and [ins] are the lengths of the registered callbacks,
    handlers and inputs before it ran. *)
Definition attach_wire (s : ptr) (cbs hds ins : nat) (b : Bgpipe)
  : outcome error Bgpipe :=
  match heap b !! s with
  | None => Panic "nil pointer dereference"
  | Some st =>
      if 0 <? Index st then
        (* update the logger *)
        match Name st with
        | EmptyString => Panic "index out of range [0]"
        | String c _ =>
            let name :=
              if negb (Ascii.eqb c "[") then
                "[" +:+ pretty (Index st) +:+ "] " +:+ Name st
              else Name st in
            let st := set_Logger name st in
            (* consumes messages? *)
            if IsConsumer (Options st) && negb (IsFirst st || IsLast st) then
              Err ErrFirstOrLast (store s st b)
            else
              let po := P_Options b in
              (* fix callbacks *)
              match slice_from cbs (Callbacks po) with
              | None => Panic "slice bounds out of range"
              | Some new_cbs =>
              let new_cbs := map (fix_callback s (Index st)) new_cbs in
              let st := set_callbacks new_cbs st in
              let po := mkOptions (take cbs (Callbacks po) ++ new_cbs)
                                  (Handlers po) (Inputs po) in
              (* fix handlers *)
              match slice_from hds (Handlers po) with
              | None => Panic "slice bounds out of range"
              | Some new_hds =>
              let new_hds := map (fix_handler s (Index st)) new_hds in
              let st := set_handlers new_hds st in
              let po := mkOptions (Callbacks po)
                                  (take hds (Handlers po) ++ new_hds)
                                  (Inputs po) in
              (* where to inject new messages? *)
              match in_filter st (store s st b) with
              | inl e => Err e (set_P_Options po (store s st b))
              | inr (frev, ffwd, fid) =>
              (* fix inputs *)
              match slice_from ins (Inputs po) with
              | None => Panic "slice bounds out of range"
              | Some new_ins =>
              let new_ins := map (fix_input (Index st) frev ffwd fid) new_ins in
              let st := set_inputs new_ins st in
              let po := mkOptions (Callbacks po) (Handlers po)
                                  (take ins (Inputs po) ++ new_ins) in
              Ok (set_P_Options po (store s st b))
              end end end end
        end
      else Ok b
  end.

(** Middle part of [attach]: the attach of the stage implementation,
    between the counts of what was registered before it. *)
Definition attach_child (s : ptr) (b : Bgpipe) : outcome error Bgpipe :=
  let po := P_Options b in
  let cbs := length (Callbacks po) in
  let hds := length (Handlers po) in
  let ins := length (Inputs po) in
  match Stage_Attach s b with
  | Panic why => Panic why
  | Err e b => Err e b
  | Ok b => attach_wire s cbs hds ins b
  end.

(** [StageBase.attach], up to the registration with the wait groups.  What
    follows in the source (wait groups, registering the --wait and --stop
    event handlers, tracing) returns no error and touches neither the
    direction flags nor the inputs. *)
Definition attach (s : ptr) (b : Bgpipe) : outcome error Bgpipe :=
  match heap b !! s with
  | None => Panic "nil pointer dereference"
  | Some st =>
      match attach_resolve b st with
      | Panic why => Panic why
      | Err e st => Err e (store s st b)
      | Ok st => attach_child s (store s st b)
      end
  end.

End Attach.

(** *** Bgpipe.AddStage *)

Section AddStage.

(** [Bgpipe.NewStage], declared outside the files at hand: the stage the
    repository makes for [cmd], nil ([None]) for a command it does not
    know.  It is taken to leave the pipeline as it is. *)
Variable NewStage : Bgpipe -> string -> option StageBase.

(** The address of a newly allocated stage. *)
Definition new_ptr (b : Bgpipe) : ptr := fresh (dom (heap b)).

(** [for idx >= len(b.Stages) { b.Stages = append(b.Stages, nil) }] *)
Definition pad_stages (idx : Z) (stages : list (option ptr))
  : list (option ptr) :=
  stages ++ replicate (Z.to_nat (idx + 1 - Z.of_nat (length stages))) None.

(** [Bgpipe.AddStage]: the stage returned (nil on error) and the
    pipeline. *)
Definition AddStage (b : Bgpipe) (idx : Z) (cmd : string)
  : outcome error (option ptr * Bgpipe) :=
  let len := Z.of_nat (length (Stages b)) in
  (* append? *)
  let idx := if idx <=? 0 then Z.max 1 len else idx in
  (* already there? check cmd *)
  match (if idx <? len then mjoin (Stages b !! Z.to_nat idx) else None) with
  | Some s =>
      match heap b !! s with
      | None => Panic "nil pointer dereference"
      | Some st =>
          if String.eqb (Cmd st) cmd then Ok (Some s, b)
          else Err ErrStageDiff (None, b)
      end
  | None =>
      (* create *)
      match NewStage b cmd with
      | None => Err ErrStageCmd (None, b)
      | Some st =>
          let s := new_ptr b in
          (* store *)
          let stages := <[Z.to_nat idx := Some s]> (pad_stages idx (Stages b)) in
          Ok (Some s,
              set_heap (<[s := set_Index idx st]> (heap b))
                (set_Stages stages b))
      end
  end.

End AddStage.

(** *** Parsing the command line *)

Section ParseArgs.

Variable NewStage : Bgpipe -> string -> option StageBase.

(** [IsAddr] and [IsFile], declared outside the files at hand. *)
Variable IsAddr : string -> bool.
Variable IsFile : string -> bool.

(** [s.Args], a field of the stage options that [StageOptions] above does
    not carry: the names of the positional arguments; [None] is nil. *)
Variable Args : StageBase -> option (list string).

(** [s.Flags.Parse(args)] followed by the load of the flags into [s.K]
    (pflag and koanf): an error, or the store after the load together
    with [s.Flags.Args()], the arguments that are no flags. *)
Variable Flags_Parse : StageBase -> list string
                       -> error + (koanf * list string).

(** [s.Errorf("needs an argument: %s", name)]; the prefix [s.Errorf]
    adds is left out. *)
Definition needs_argument (name : string) : error :=
  ErrStage ("needs an argument: " +:+ name).

(** [for _, name := range s.Args]: rewrite the arguments into k. *)
Fixpoint parseArgs_names (names sargs : list string) (st : StageBase)
  : outcome error (list string * StageBase) :=
  match names with
  | [] => Ok (sargs, st)
  | name :: names =>
      match sargs with
      | [] => Err (needs_argument name) (sargs, st)
      | a :: rest =>
          if String.eqb a "--" then Err (needs_argument name) (sargs, st)
          else
            parseArgs_names names rest
              (set_K (K_Set (K st) name (KString a)) st)
      end
  end.

(** [if len(sargs) > 0 && sargs[0] == "--" { sargs = sargs[1:] }] *)
Definition drop_dashes (sargs : list string) : list string :=
  match sargs with
  | a :: rest => if String.eqb a "--" then rest else sargs
  | [] => sargs
  end.

(** [StageBase.parseArgs]: the unused arguments and the stage.  The
    override of [s.Flags.Usage], which only changes the help text, is
    left out. *)
Definition Stage_parseArgs (st : StageBase) (args : list string)
  : outcome error (list string * StageBase) :=
  (* parse stage flags, export to koanf *)
  match Flags_Parse st args with
  | inl err => Err err (args, st)
  | inr (k, sargs) =>
      let st := set_K k st in
      (* uses CLI arguments? *)
      match Args st with
      | Some [] =>
          (* special case: all arguments *)
          Ok ([], set_K (K_Set (K st) "args" (KStrings sargs)) st)
      | Some names =>
          match parseArgs_names names sargs st with
          | Ok (sargs, st) => Ok (drop_dashes sargs, st) (* drop explicit -- *)
          | r => r
          end
      | None => Ok (drop_dashes sargs, st)
      end
  end.

(** [for i, arg := range args { if arg == "--" { ... break } }]: the
    arguments before the first "--" ([args[:i]]) and those after it
    ([args[i+1:]], nil if there is none). *)
Fixpoint split_dashes (args : list string) : list string * list string :=
  match args with
  | [] => ([], [])
  | a :: rest =>
      if String.eqb a "--" then ([], rest)
      else let '(l, r) := split_dashes rest in (a :: l, r)
  end.

(** The loop of [Bgpipe.parseArgs] from turn [idx] on, for at most [fuel]
    turns; [None] if it has not returned by then. *)
Fixpoint parseArgs_loop (fuel : nat) (idx : Z) (args : list string)
    (b : Bgpipe) : option (outcome error Bgpipe) :=
  match fuel with
  | O => None
  | S fuel =>
      match args with
      | [] => Some (Ok b)
      | a0 :: rest =>
          (* skip empty stages *)
          if String.eqb a0 "--" then parseArgs_loop fuel (idx + 1) rest b
          else
            (* is args[0] a special value, or generic stage command name? *)
            let '(cmd, args) :=
              if IsAddr a0 then ("tcp", args)
              else if IsFile a0 then ("mrt", args)
              else (a0, rest) in
            (* get s for cmd *)
            match AddStage NewStage b idx cmd with
            | Panic why => Some (Panic why)
            | Err err (_, b) => Some (Err err b)
            | Ok (None, _) => Some (Panic "nil pointer dereference")
            | Ok (Some s, b) =>
                (* find an explicit end of its args *)
                let '(args, nextargs) := split_dashes args in
                (* parse stage args, move on *)
                match heap b !! s with
                | None => Some (Panic "nil pointer dereference")
                | Some st =>
                    match Stage_parseArgs st args with
                    | Panic why => Some (Panic why)
                    | Err err (_, st) => Some (Err err (store s st b))
                    | Ok (remargs, st) =>
                        parseArgs_loop fuel (idx + 1) (remargs ++ nextargs)
                          (store s st b)
                    end
                end
            end
      end
  end.

(** [Bgpipe.parseArgs], from [args = b.F.Args()] on: [args] is what the
    global flags left. *)
Definition parseArgs (fuel : nat) (args : list string) (b : Bgpipe)
  : option (outcome error Bgpipe) :=
  parseArgs_loop fuel 0 args b.

End ParseArgs.

End Bgpipe.

(** ** The external I/O adapter *)

Module Extio.

Import Koanf Msg.

Abbreviation bytes := (list byte).

(** [msg.Type], one byte. *)
Definition INVALID : Z := 0.
Definition OPEN : Z := 1.
Definition UPDATE : Z := 2.
Definition NOTIFY : Z := 3.
Definition KEEPALIVE : Z := 4.
Definition REFRESH : Z := 5.

(** [msg.Msg] with its pipe context: [mx_Action_Drop] is the drop flag of
    the context's action, [mx_Callback_Drop] the request to remove the
    callback that is running. *)
Record Msg : Type := mkMsg {
  m_Dir : Dir;
  m_Seq : Z;
  m_Time : Z;
  m_Type : Z;
  m_Data : bytes;
  mx_Tags : list (string * string);
  mx_Action_Drop : bool;
  mx_Callback_Drop : bool }.

(** A message fresh from [p.GetMsg()].  The message pool itself is not
    part of the state: [PutMsg] only recycles memory. *)
Definition GetMsg : Msg := mkMsg DIR_NONE 0 0 INVALID [] [] false false.

(** [m.Use(typ)] *)
Definition Use (typ : Z) (m : Msg) : Msg :=
  mkMsg (m_Dir m) (m_Seq m) (m_Time m) typ (m_Data m) (mx_Tags m)
    (mx_Action_Drop m) (mx_Callback_Drop m).

Definition set_Seq (v : Z) (m : Msg) : Msg :=
  mkMsg (m_Dir m) v (m_Time m) (m_Type m) (m_Data m) (mx_Tags m)
    (mx_Action_Drop m) (mx_Callback_Drop m).

Definition set_Time (v : Z) (m : Msg) : Msg :=
  mkMsg (m_Dir m) (m_Seq m) v (m_Type m) (m_Data m) (mx_Tags m)
    (mx_Action_Drop m) (mx_Callback_Drop m).

(** [pipe.MsgContext(m).DropTags()] *)
Definition DropTags (m : Msg) : Msg :=
  mkMsg (m_Dir m) (m_Seq m) (m_Time m) (m_Type m) (m_Data m) []
    (mx_Action_Drop m) (mx_Callback_Drop m).

(** [mx.Action.Drop()] *)
Definition Action_Drop (m : Msg) : Msg :=
  mkMsg (m_Dir m) (m_Seq m) (m_Time m) (m_Type m) (m_Data m) (mx_Tags m)
    true (mx_Callback_Drop m).

(** [mx.Callback.Drop()] *)
Definition Callback_Drop (m : Msg) : Msg :=
  mkMsg (m_Dir m) (m_Seq m) (m_Time m) (m_Type m) (m_Data m) (mx_Tags m)
    (mx_Action_Drop m) true.

Inductive error : Type :=
| ErrLength
| ErrFormat
| ErrSub                       (* mrt.ErrSub *)
| ErrUnexpectedEOF             (* io.ErrUnexpectedEOF *)
| EOF                          (* io.EOF *)
| ErrReadWrite                 (* --read and --write: must not use both *)
| ErrRawMrt                    (* --raw and --mrt: must not use both *)
| ErrType (v : string)         (* --type: unknown type v *)
| ErrLib (msg : string).       (* any other error of a library call *)

Definition error_eqb (a b : error) : bool :=
  match a, b with
  | ErrLength, ErrLength | ErrFormat, ErrFormat | ErrSub, ErrSub
  | ErrUnexpectedEOF, ErrUnexpectedEOF | EOF, EOF
  | ErrReadWrite, ErrReadWrite | ErrRawMrt, ErrRawMrt => true
  | ErrType v, ErrType w => String.eqb v w
  | ErrLib v, ErrLib w => String.eqb v w
  | _, _ => false
  end.

(** Lines written to the stage's logger. *)
Inductive log_entry : Type :=
| LogErrHex (e : error) (input : bytes) (msg : string)
| LogErrBytes (e : error) (input : bytes) (msg : string)
| LogErr (e : error) (msg : string)
| LogWarn (e : error) (msg : string).

(** [pipe.CallbackFunc]: may change the message, answers whether to go on. *)
Definition CallbackFunc : Type := Msg -> bool * Msg.

(** The callback [p.OnMsg] registers. *)
Record PCallback : Type := mkPCallback {
  cb_Dir : Dir;
  cb_Types : list Z;
  cb_Dropped : bool }.

(** [mrt.Reader]: the input it writes to and its NoTags switch. *)
Record MrtReader : Type := mkMrtReader {
  mr_Input : option nat;
  NoTags : bool }.

(** The output channel: whether it was closed, and the buffers queued on
    it.  Its capacity (100) only makes a sender wait for the reader and is
    not modelled. *)
Record chan : Type := mkChan {
  ch_closed : bool;
  ch_queue : list bytes }.

(** Modelled from the spec: [send_safe] is declared outside the files at
    hand; "send to a closed channel returns false rather than panicking". *)
Definition send_safe (ch : chan) (bb : bytes) : chan * bool :=
  if ch_closed ch then (ch, false)
  else (mkChan false (ch_queue ch ++ [bb]), true).

(** What the adapter consumes from bgpfix, time and io.  Inputs of the
    pipe are kept abstract: only the library writes to them. *)
Class Lib : Type := {
  input : Type;
  AddInput : Dir -> input;
  WriteMsg : input -> Msg -> input * option error;
  WriteFunc : input -> bytes -> CallbackFunc -> input * option error;
  Close : input -> input;
  TypeString : string -> option Z;
  FromBytes : bytes -> Msg -> Msg * Z * option error;
  Mrt_FromBytes : MrtReader -> bytes -> Msg -> Msg * Z * option error;
  Mrt_WriteFunc : MrtReader -> input -> bytes -> CallbackFunc
                  -> input * option error;
  FromJSON : bytes -> Msg -> Msg * option error;
  Update_FromJSON : bytes -> Msg -> Msg * option error;
  Marshal : Msg -> Msg * option error;
  WriteTo : Msg -> bytes -> bytes * option error;
  GetJSON : Msg -> bytes;
  bb_Write : bytes -> bytes -> bytes * option error;
  TrimSpace : bytes -> bytes;
  Now : Z;
  reader : Type;
  Read : reader -> Z -> reader * bytes * option error }.

Section Adapter.

Context {lib : Lib}.

(** The adapter, with what it reads of its stage ([K], [IsBidir],
    [IsLast], [IsLeft], [Dir]) and of the pipe (the registered inputs,
    which [InputL], [InputR] and [InputD] index; the log). *)
Record Extio : Type := mkExtio {
  K : koanf;
  IsBidir : bool;
  IsLast : bool;
  IsLeft : bool;
  Dir : Msg.Dir;
  opt_type : list Z;
  opt_raw : bool;
  opt_mrt : bool;
  opt_read : bool;
  opt_write : bool;
  opt_copy : bool;
  opt_noseq : bool;
  opt_notime : bool;
  opt_notags : bool;
  opt_pardon : bool;
  mrt : option MrtReader;
  buf : bytes;
  Callback : option PCallback;
  InputL : option nat;
  InputR : option nat;
  InputD : option nat;
  Output : chan;
  P_Inputs : list input;
  log : list log_entry }.

(** Field updates. *)
Definition set_opt_type (v : list Z) (e : Extio) : Extio :=
  mkExtio (K e) (IsBidir e) (IsLast e) (IsLeft e) (Dir e) v (opt_raw e)
    (opt_mrt e) (opt_read e) (opt_write e) (opt_copy e) (opt_noseq e)
    (opt_notime e) (opt_notags e) (opt_pardon e) (mrt e) (buf e)
    (Callback e) (InputL e) (InputR e) (InputD e) (Output e) (P_Inputs e)
    (log e).

Definition set_opt_raw (v : bool) (e : Extio) : Extio :=
  mkExtio (K e) (IsBidir e) (IsLast e) (IsLeft e) (Dir e) (opt_type e) v
    (opt_mrt e) (opt_read e) (opt_write e) (opt_copy e) (opt_noseq e)
    (opt_notime e) (opt_notags e) (opt_pardon e) (mrt e) (buf e)
    (Callback e) (InputL e) (InputR e) (InputD e) (Output e) (P_Inputs e)
    (log e).

Definition set_opt_mrt (v : bool) (e : Extio) : Extio :=
  mkExtio (K e) (IsBidir e) (IsLast e) (IsLeft e) (Dir e) (opt_type e)
    (opt_raw e) v (opt_read e) (opt_write e) (opt_copy e) (opt_noseq e)
    (opt_notime e) (opt_notags e) (opt_pardon e) (mrt e) (buf e)
    (Callback e) (InputL e) (InputR e) (InputD e) (Output e) (P_Inputs e)
    (log e).

Definition set_opt_read (v : bool) (e : Extio) : Extio :=
  mkExtio (K e) (IsBidir e) (IsLast e) (IsLeft e) (Dir e) (opt_type e)
    (opt_raw e) (opt_mrt e) v (opt_write e) (opt_copy e) (opt_noseq e)
    (opt_notime e) (opt_notags e) (opt_pardon e) (mrt e) (buf e)
    (Callback e) (InputL e) (InputR e) (InputD e) (Output e) (P_Inputs e)
    (log e).

Definition set_opt_write (v : bool) (e : Extio) : Extio :=
  mkExtio (K e) (IsBidir e) (IsLast e) (IsLeft e) (Dir e) (opt_type e)
    (opt_raw e) (opt_mrt e) (opt_read e) v (opt_copy e) (opt_noseq e)
    (opt_notime e) (opt_notags e) (opt_pardon e) (mrt e) (buf e)
    (Callback e) (InputL e) (InputR e) (InputD e) (Output e) (P_Inputs e)
    (log e).

Definition set_opt_copy (v : bool) (e : Extio) : Extio :=
  mkExtio (K e) (IsBidir e) (IsLast e) (IsLeft e) (Dir e) (opt_type e)
    (opt_raw e) (opt_mrt e) (opt_read e) (opt_write e) v (opt_noseq e)
    (opt_notime e) (opt_notags e) (opt_pardon e) (mrt e) (buf e)
    (Callback e) (InputL e) (InputR e) (InputD e) (Output e) (P_Inputs e)
    (log e).

Definition set_opt_noseq (v : bool) (e : Extio) : Extio :=
  mkExtio (K e) (IsBidir e) (IsLast e) (IsLeft e) (Dir e) (opt_type e)
    (opt_raw e) (opt_mrt e) (opt_read e) (opt_write e) (opt_copy e) v
    (opt_notime e) (opt_notags e) (opt_pardon e) (mrt e) (buf e)
    (Callback e) (InputL e) (InputR e) (InputD e) (Output e) (P_Inputs e)
    (log e).

Definition set_opt_notime (v : bool) (e : Extio) : Extio :=
  mkExtio (K e) (IsBidir e) (IsLast e) (IsLeft e) (Dir e) (opt_type e)
    (opt_raw e) (opt_mrt e) (opt_read e) (opt_write e) (opt_copy e)
    (opt_noseq e) v (opt_notags e) (opt_pardon e) (mrt e) (buf e)
    (Callback e) (InputL e) (InputR e) (InputD e) (Output e) (P_Inputs e)
    (log e).

Definition set_opt_notags (v : bool) (e : Extio) : Extio :=
  mkExtio (K e) (IsBidir e) (IsLast e) (IsLeft e) (Dir e) (opt_type e)
    (opt_raw e) (opt_mrt e) (opt_read e) (opt_write e) (opt_copy e)
    (opt_noseq e) (opt_notime e) v (opt_pardon e) (mrt e) (buf e)
    (Callback e) (InputL e) (InputR e) (InputD e) (Output e) (P_Inputs e)
    (log e).

Definition set_opt_pardon (v : bool) (e : Extio) : Extio :=
  mkExtio (K e) (IsBidir e) (IsLast e) (IsLeft e) (Dir e) (opt_type e)
    (opt_raw e) (opt_mrt e) (opt_read e) (opt_write e) (opt_copy e)
    (opt_noseq e) (opt_notime e) (opt_notags e) v (mrt e) (buf e)
    (Callback e) (InputL e) (InputR e) (InputD e) (Output e) (P_Inputs e)
    (log e).

Definition set_mrt (v : option MrtReader) (e : Extio) : Extio :=
  mkExtio (K e) (IsBidir e) (IsLast e) (IsLeft e) (Dir e) (opt_type e)
    (opt_raw e) (opt_mrt e) (opt_read e) (opt_write e) (opt_copy e)
    (opt_noseq e) (opt_notime e) (opt_notags e) (opt_pardon e) v (buf e)
    (Callback e) (InputL e) (InputR e) (InputD e) (Output e) (P_Inputs e)
    (log e).

Definition set_buf (v : bytes) (e : Extio) : Extio :=
  mkExtio (K e) (IsBidir e) (IsLast e) (IsLeft e) (Dir e) (opt_type e)
    (opt_raw e) (opt_mrt e) (opt_read e) (opt_write e) (opt_copy e)
    (opt_noseq e) (opt_notime e) (opt_notags e) (opt_pardon e) (mrt e) v
    (Callback e) (InputL e) (InputR e) (InputD e) (Output e) (P_Inputs e)
    (log e).

Definition set_Callback (v : option PCallback) (e : Extio) : Extio :=
  mkExtio (K e) (IsBidir e) (IsLast e) (IsLeft e) (Dir e) (opt_type e)
    (opt_raw e) (opt_mrt e) (opt_read e) (opt_write e) (opt_copy e)
    (opt_noseq e) (opt_notime e) (opt_notags e) (opt_pardon e) (mrt e)
    (buf e) v (InputL e) (InputR e) (InputD e) (Output e) (P_Inputs e)
    (log e).

Definition set_InputL (v : option nat) (e : Extio) : Extio :=
  mkExtio (K e) (IsBidir e) (IsLast e) (IsLeft e) (Dir e) (opt_type e)
    (opt_raw e) (opt_mrt e) (opt_read e) (opt_write e) (opt_copy e)
    (opt_noseq e) (opt_notime e) (opt_notags e) (opt_pardon e) (mrt e)
    (buf e) (Callback e) v (InputR e) (InputD e) (Output e) (P_Inputs e)
    (log e).

Definition set_InputR (v : option nat) (e : Extio) : Extio :=
  mkExtio (K e) (IsBidir e) (IsLast e) (IsLeft e) (Dir e) (opt_type e)
    (opt_raw e) (opt_mrt e) (opt_read e) (opt_write e) (opt_copy e)
    (opt_noseq e) (opt_notime e) (opt_notags e) (opt_pardon e) (mrt e)
    (buf e) (Callback e) (InputL e) v (InputD e) (Output e) (P_Inputs e)
    (log e).

Definition set_InputD (v : option nat) (e : Extio) : Extio :=
  mkExtio (K e) (IsBidir e) (IsLast e) (IsLeft e) (Dir e) (opt_type e)
    (opt_raw e) (opt_mrt e) (opt_read e) (opt_write e) (opt_copy e)
    (opt_noseq e) (opt_notime e) (opt_notags e) (opt_pardon e) (mrt e)
    (buf e) (Callback e) (InputL e) (InputR e) v (Output e) (P_Inputs e)
    (log e).

Definition set_Output (v : chan) (e : Extio) : Extio :=
  mkExtio (K e) (IsBidir e) (IsLast e) (IsLeft e) (Dir e) (opt_type e)
    (opt_raw e) (opt_mrt e) (opt_read e) (opt_write e) (opt_copy e)
    (opt_noseq e) (opt_notime e) (opt_notags e) (opt_pardon e) (mrt e)
    (buf e) (Callback e) (InputL e) (InputR e) (InputD e) v (P_Inputs e)
    (log e).

Definition set_P_Inputs (v : list input) (e : Extio) : Extio :=
  mkExtio (K e) (IsBidir e) (IsLast e) (IsLeft e) (Dir e) (opt_type e)
    (opt_raw e) (opt_mrt e) (opt_read e) (opt_write e) (opt_copy e)
    (opt_noseq e) (opt_notime e) (opt_notags e) (opt_pardon e) (mrt e)
    (buf e) (Callback e) (InputL e) (InputR e) (InputD e) (Output e) v
    (log e).

Definition set_log (v : list log_entry) (e : Extio) : Extio :=
  mkExtio (K e) (IsBidir e) (IsLast e) (IsLeft e) (Dir e) (opt_type e)
    (opt_raw e) (opt_mrt e) (opt_read e) (opt_write e) (opt_copy e)
    (opt_noseq e) (opt_notime e) (opt_notags e) (opt_pardon e) (mrt e)
    (buf e) (Callback e) (InputL e) (InputR e) (InputD e) (Output e)
    (P_Inputs e) v.

(** *** Attach *)

(** [p.AddInput(dir)]: the pipe gets one more input, whose position is
    the pointer returned. *)
Definition add_input (dir : Msg.Dir) (e : Extio) : nat * Extio :=
  (length (P_Inputs e), set_P_Inputs (P_Inputs e ++ [AddInput dir]) e).

(** The loop over [k.Strings("type")]. *)
Fixpoint Attach_types (vs : list string) (e : Extio) : outcome error Extio :=
  match vs with
  | [] => Ok e
  | v :: rest =>
      (* skip empty types *)
      if (String.length v =? 0)%nat then Attach_types rest e
      else
        (* canonical name? *)
        match TypeString v with
        | Some typ => Attach_types rest (set_opt_type (opt_type e ++ [typ]) e)
        | None =>
            (* a plain integer? *)
            match Strconv.Atoi v with
            | Some tnum =>
                if (0 <=? tnum) && (tnum <=? 255) then
                  Attach_types rest (set_opt_type (opt_type e ++ [tnum]) e)
                else Err (ErrType v) e
            | None => Err (ErrType v) e
            end
        end
  end.

(** [Extio.Attach], from the check of --raw against --mrt on. *)
Definition Attach_inputs (e : Extio) : outcome error Extio :=
  if opt_raw e && opt_mrt e then Err ErrRawMrt e
  else
    (* not write-only? read input to bgpipe *)
    let e :=
      if negb (opt_write e) then
        let e :=
          if IsBidir e then
            let '(l, e) := add_input DIR_L e in
            let '(r, e) := add_input DIR_R e in
            let e := set_InputR (Some r) (set_InputL (Some l) e) in
            if IsLast e then set_InputD (InputL e) e
            else set_InputD (InputR e) e
          else if IsLeft e then
            let '(l, e) := add_input DIR_L e in
            let e := set_InputL (Some l) e in
            set_InputD (InputL e) (set_InputR (InputL e) e)
          else
            let '(r, e) := add_input DIR_R e in
            let e := set_InputR (Some r) e in
            set_InputD (InputR e) (set_InputL (InputR e) e) in
        set_mrt (Some (mkMrtReader (InputD e) (opt_notags e))) e
      else e in
    (* not read-only? write bgpipe output *)
    let e :=
      if negb (opt_read e) then
        set_Callback (Some (mkPCallback (Dir e) (opt_type e) false)) e
      else e in
    Ok e.

(** [Extio.Attach] *)
Definition Attach (e : Extio) : outcome error Extio :=
  let k := K e in
  (* options *)
  let e := set_opt_raw (K_Bool k "raw") e in
  let e := set_opt_mrt (K_Bool k "mrt") e in
  let e := set_opt_read (K_Bool k "read") e in
  let e := set_opt_write (K_Bool k "write") e in
  let e := set_opt_copy (K_Bool k "copy") e in
  let e := set_opt_noseq (K_Bool k "no-seq") e in
  let e := set_opt_notime (K_Bool k "no-time") e in
  let e := set_opt_notags (K_Bool k "no-tags") e in
  let e := set_opt_pardon (K_Bool k "pardon") e in
  (* parse --type *)
  match Attach_types (K_Strings k "type") e with
  | Panic why => Panic why
  | Err err e => Err err e
  | Ok e =>
      (* check options *)
      if opt_read e || opt_write e then
        if opt_read e && opt_write e then Err ErrReadWrite e
        else Attach_inputs (set_opt_copy true e)
      else Attach_inputs e
  end.

(** *** Ingress *)

(** [slices.Index(eio.opt_type, m.Type) < 0] *)
Definition type_listed (typ : Z) (l : list Z) : bool :=
  existsb (Z.eqb typ) l.

(** [Extio.checkMsg] *)
Definition checkMsg (e : Extio) (m : Msg) : bool * Msg :=
  (* filter message types? *)
  if (0 <? length (opt_type e))%nat && negb (type_listed (m_Type m) (opt_type e))
  then (false, m)
  else
    (* overwrite message metadata? *)
    let m := if opt_noseq e then set_Seq 0 m else m in
    let m := if opt_notime e then set_Time Now m else m in
    let m := if opt_notags e then DropTags m else m in
    (* take it *)
    (true, m).

(** [check]: [eio.checkMsg], followed by [cb] when there is one. *)
Definition check (e : Extio) (cb : option CallbackFunc) : CallbackFunc :=
  match cb with
  | None => checkMsg e
  | Some cb =>
      fun m => let '(ok, m) := checkMsg e m in
               if ok then cb m else (false, m)
  end.

(** [in.WriteMsg(m)] through the pointer [h]. *)
Definition write_msg (h : option nat) (m : Msg) (e : Extio)
  : outcome error Extio :=
  match h with
  | None => Panic "nil pointer dereference"
  | Some i =>
      match P_Inputs e !! i with
      | None => Panic "nil pointer dereference"
      | Some inp =>
          let '(inp, err) := WriteMsg inp m in
          let e := set_P_Inputs (<[i := inp]> (P_Inputs e)) e in
          match err with
          | None => Ok e
          | Some err => Err err e
          end
      end
  end.

(** What the parse step of [ReadSingle] leaves: an early [return nil], or
    the buffer, the message and [parse_err]. *)
Inductive parsed : Type :=
| Skipped
| Parsed (buf : bytes) (m : Msg) (parse_err : option error)
| ParsePanic (why : string).

(** [ReadSingle], the parse step. *)
Definition ReadSingle_parse (e : Extio) (buf : bytes) : parsed :=
  let m := GetMsg in
  if opt_raw e then (* raw message *)
    let '(m, n, err) := FromBytes buf m in
    match err with
    | Some err => Parsed buf m (Some err)
    | None =>
        if negb (n =? Z.of_nat (length buf)) then Parsed buf m (Some ErrLength)
        else Parsed buf m None
    end
  else if opt_mrt e then (* MRT message *)
    match mrt e with
    | None => ParsePanic "nil pointer dereference"
    | Some rd =>
        let '(m, n, err) := Mrt_FromBytes rd buf m in
        match err with
        | Some err =>
            if error_eqb err ErrSub then Skipped
            else Parsed buf m (Some err)
        | None =>
            if negb (n =? Z.of_nat (length buf))
            then Parsed buf m (Some ErrLength)
            else Parsed buf m None
        end
    end
  else (* parse text in buf into m *)
    let buf := TrimSpace buf in
    match buf with
    | [] => Skipped
    | c :: _ =>
        if Byte.eqb c "#" then Skipped (* comment *)
        else if Byte.eqb c "[" then (* a BGP message *)
          let '(m, err) := FromJSON buf m in
          let m := if m_Type m =? INVALID then Use KEEPALIVE m else m in
          Parsed buf m err
        else if Byte.eqb c "{" then (* an UPDATE *)
          let m := Use UPDATE m in
          let '(m, err) := Update_FromJSON buf m in
          Parsed buf m err
        else Parsed buf m (Some ErrFormat)
    end.

(** [ReadSingle], after a parse without error: pre-process and sail. *)
Definition ReadSingle_sail (e : Extio) (m : Msg) (cb : option CallbackFunc)
  : outcome error Extio :=
  let '(ok, m) := check e cb m in
  if negb ok then Ok e
  else
    match m_Dir m with
    | DIR_L => write_msg (InputL e) m e
    | DIR_R => write_msg (InputR e) m e
    | _ => write_msg (InputD e) m e
    end.

(** [Extio.ReadSingle] *)
Definition ReadSingle (e : Extio) (buf : bytes) (cb : option CallbackFunc)
  : outcome error Extio :=
  (* write-only to process? *)
  if opt_write e then Ok e
  else
    match ReadSingle_parse e buf with
    | ParsePanic why => Panic why
    | Skipped => Ok e
    | Parsed buf m (Some parse_err) =>
        (* parse error? *)
        if opt_pardon e then Ok e
        else if opt_raw e then
          Err parse_err
            (set_log (log e ++ [LogErrHex parse_err buf
                                  "input read single error"]) e)
        else
          Err parse_err
            (set_log (log e ++ [LogErrBytes parse_err buf
                                  "input read single error"]) e)
    | Parsed buf m None => ReadSingle_sail e m cb
    end.

(** [ReadBuf], the text branch after [eio.buf.Write(buf)]: [rest] is what
    of [eio.buf] is still to be searched for a newline, [acc] the bytes
    before it.  Each line is taken off [eio.buf] before [ReadSingle] sees
    it; what follows the last newline stays buffered. *)
Fixpoint ReadBuf_lines (cb : option CallbackFunc) (e : Extio)
    (acc rest : bytes) : outcome error Extio :=
  match rest with
  | [] => Ok (set_buf acc e)
  | c :: rest =>
      if Byte.eqb c "010" then
        match ReadSingle (set_buf rest e) (acc ++ [c]) cb with
        | Panic why => Panic why
        | Err err e => Err err e
        | Ok e => ReadBuf_lines cb e [] rest
        end
      else ReadBuf_lines cb e (acc ++ [c]) rest
  end.

(** [ReadBuf], the end shared by the raw and MRT branches. *)
Definition ReadBuf_result (e : Extio) (err : option error)
  : outcome error Extio :=
  match err with
  | None => Ok e (* success *)
  | Some err =>
      if error_eqb err ErrUnexpectedEOF then Ok e (* wait for more *)
      else if negb (opt_pardon e) then
        Err err (set_log (log e ++ [LogErr err "input read stream error"]) e)
      else Ok e
  end.

(** [Extio.ReadBuf]; [data] is its argument [buf]. *)
Definition ReadBuf (e : Extio) (data : bytes) (cb : option CallbackFunc)
  : outcome error Extio :=
  (* write-only to process? *)
  if opt_write e then Ok e
  else if opt_raw e then (* raw message(s) *)
    match InputD e with
    | None => Panic "nil pointer dereference"
    | Some i =>
        match P_Inputs e !! i with
        | None => Panic "nil pointer dereference"
        | Some inp =>
            let '(inp, err) := WriteFunc inp data (check e cb) in
            ReadBuf_result (set_P_Inputs (<[i := inp]> (P_Inputs e)) e) err
        end
    end
  else if opt_mrt e then (* MRT message(s) *)
    match mrt e with
    | None => Panic "nil pointer dereference"
    | Some rd =>
        match mr_Input rd with
        | None => Panic "nil pointer dereference"
        | Some i =>
            match P_Inputs e !! i with
            | None => Panic "nil pointer dereference"
            | Some inp =>
                let '(inp, err) := Mrt_WriteFunc rd inp data (check e cb) in
                ReadBuf_result (set_P_Inputs (<[i := inp]> (P_Inputs e)) e) err
            end
        end
    end
  else (* buffer and parse all lines in buf so far *)
    ReadBuf_lines cb e [] (buf e ++ data).

(** One turn of the loop of [ReadStream] with a buffer of [l] bytes:
    the loop returns, or goes on with a buffer of the length given. *)
Inductive turn : Type :=
| Return (r : outcome error Extio)
| Continue (rd : reader) (e : Extio) (l : Z).

Definition ReadStream_turn (rd : reader) (e : Extio)
    (cb : option CallbackFunc) (l : Z) : Z * turn :=
  (* block on read, try parsing *)
  let '(rd, data, err) := Read rd l in
  let n := Z.of_nat (length data) in
  (n,
   if l <? n then Return (Panic "slice bounds out of range")
   else
     match (if 0 <? n then ReadBuf e data cb else Ok e) with
     | Panic why => Return (Panic why)
     | Err parse_err e => Return (Err parse_err e)
     | Ok e =>
         (* should stop here? *)
         match err with
         | Some err =>
             if error_eqb err EOF then Return (Ok e) else Return (Err err e)
         | None =>
             (* grow buffer? *)
             if (Z.quot l 2 <? n) && (l <=? 4 * 1024 * 1024)
             then Continue rd e (l * 2)
             else Continue rd e l
         end
     end).

(** The loop of [ReadStream], for at most [fuel] turns.  Answers the
    length of the buffer and the count read at each turn taken, and the
    value returned, if the loop returned within [fuel] turns. *)
Fixpoint ReadStream_loop (fuel : nat) (rd : reader) (e : Extio)
    (cb : option CallbackFunc) (l : Z)
  : list (Z * Z) * option (outcome error Extio) :=
  match fuel with
  | O => ([], None)
  | S fuel =>
      let '(n, t) := ReadStream_turn rd e cb l in
      match t with
      | Return r => ([(l, n)], Some r)
      | Continue rd e l' =>
          let '(tr, r) := ReadStream_loop fuel rd e cb l' in
          ((l, n) :: tr, r)
      end
  end.

(** [Extio.ReadStream]: [buf := make([]byte, 64*1024)], then the loop. *)
Definition ReadStream (fuel : nat) (rd : reader) (e : Extio)
    (cb : option CallbackFunc)
  : list (Z * Z) * option (outcome error Extio) :=
  ReadStream_loop fuel rd e cb (64 * 1024).

(** *** Egress *)

(** What a call that returns a bool leaves: the value returned with the
    adapter and the message as they are then, or a panic. *)
Inductive sent : Type :=
| Sent (ret : bool) (e : Extio) (m : Msg)
| SendPanic (why : string).

(** [Extio.SendMsg].  [eio.Pool.Get()] yields an empty buffer; the pool of
    buffers is not part of the state. *)
Definition SendMsg (e : Extio) (m : Msg) : sent :=
  (* read-only from process? *)
  if opt_read e then Sent true e m
  else
    (* filter the message? *)
    let m := if negb (opt_copy e) then Action_Drop m else m in
    (* copy to a bytes buffer *)
    let bb : bytes := [] in
    let serialized : option (Msg * bytes * option error) :=
      if opt_raw e then
        let '(m, err) := Marshal m in
        match err with
        | None => let '(bb, err) := WriteTo m bb in Some (m, bb, err)
        | Some err => Some (m, bb, Some err)
        end
      else if opt_mrt e then None (* panic("TODO") *)
      else
        let '(bb, err) := bb_Write (GetJSON m) bb in Some (m, bb, err) in
    match serialized with
    | None => SendPanic "TODO"
    | Some (m, bb, Some err) =>
        Sent true (set_log (log e ++ [LogWarn err "extio write error"]) e) m
    | Some (m, bb, None) =>
        (* try writing, don't panic on channel closed *)
        let '(ch, ok) := send_safe (Output e) bb in
        if negb ok then Sent true (set_Output ch e) (Callback_Drop m)
        else Sent true (set_Output ch e) m
    end.

(** *** Shutdown *)

(** [in.Close()] through the pointer [h]. *)
Definition close_input (h : option nat) (e : Extio) : option Extio :=
  match h with
  | None => None
  | Some i =>
      match P_Inputs e !! i with
      | None => None
      | Some inp => Some (set_P_Inputs (<[i := Close inp]> (P_Inputs e)) e)
      end
  end.

(** Modelled from the spec: [close_safe] is declared outside the files at
    hand; "channel close is idempotent ...: double-close is a no-op". *)
Definition close_safe (ch : chan) : chan := mkChan true (ch_queue ch).

(** [Extio.OutputClose] *)
Definition OutputClose (e : Extio) : outcome error Extio :=
  let e := set_opt_read true e in
  match Callback e with
  | None => Panic "nil pointer dereference"
  | Some cb =>
      let e := set_Callback (Some (mkPCallback (cb_Dir cb) (cb_Types cb) true))
                 e in
      Ok (set_Output (close_safe (Output e)) e)
  end.

(** [Extio.InputClose] *)
Definition InputClose (e : Extio) : outcome error Extio :=
  let e := set_opt_write true e in
  match close_input (InputL e) e with
  | None => Panic "nil pointer dereference"
  | Some e =>
      match close_input (InputR e) e with
      | None => Panic "nil pointer dereference"
      | Some e => Ok e
      end
  end.

(** *** WriteStream *)

Section WriteStream.

(** The [io.Writer] handed to WriteStream, and [bb.WriteTo(w)]. *)
Variable writer : Type.
Variable bb_WriteTo : bytes -> writer -> writer * option error.

(** What WriteStream has come to: it returned, or it waits on the
    channel, which is open and empty. *)
Inductive drained : Type :=
| Returned (r : outcome error Extio) (w : writer)
| Waiting (e : Extio) (w : writer).

(** [for bb := range eio.Output], over the buffers [q] queued on the
    channel.  No sender runs alongside: the queue only shrinks. *)
Fixpoint WriteStream_range (q : list bytes) (e : Extio) (w : writer)
  : drained :=
  match q with
  | [] => if ch_closed (Output e) then Returned (Ok e) w else Waiting e w
  | bb :: q =>
      let e := set_Output (mkChan (ch_closed (Output e)) q) e in
      let '(w, err) := bb_WriteTo bb w in
      match err with
      | Some err =>
          match OutputClose e with
          | Ok e | Err _ e => Returned (Err err e) w
          | Panic why => Returned (Panic why) w
          end
      | None => WriteStream_range q e w
      end
  end.

(** [Extio.WriteStream] *)
Definition WriteStream (e : Extio) (w : writer) : drained :=
  WriteStream_range (ch_queue (Output e)) e w.

End WriteStream.

End Adapter.

End Extio.

(** ** TCP MD5 signatures (pkg/stages/util-tcp.go) *)

Module Tcp.

Definition AF_INET : Z := 2.
Definition AF_INET6 : Z := 10.
Definition TCP_MD5SIG_FLAG_PREFIX : Z := 1.

(** [unix.TCPMD5Sig], with the family of its address. *)
Record TCPMD5Sig : Type := mkTCPMD5Sig {
  Family : Z;
  Flags : Z;
  Prefixlen : Z;
  Keylen : Z;
  Key : list byte }.

(** [var key [80]byte; l := copy(key[:], md5pass)]: the array after the
    copy, and the number of bytes copied. *)
Definition copy_key (md5pass : list byte) : list byte * Z :=
  let l := Nat.min 80 (length md5pass) in
  (take l md5pass ++ replicate (80 - l) "000"%byte, Z.of_nat l).

(** The signature the function returned by [tcp_md5] hands to
    setsockopt for a connection of network [net]; [Keylen] is
    [uint16(l)]. *)
Definition tcp_md5_sig (md5pass : list byte) (net : string) : TCPMD5Sig :=
  let '(key, l) := copy_key md5pass in
  let family :=
    if String.eqb net "tcp6" || String.eqb net "udp6" || String.eqb net "ip6"
    then AF_INET6 else AF_INET in
  mkTCPMD5Sig family TCP_MD5SIG_FLAG_PREFIX 0 (l mod 2 ^ 16) key.

(** [tcp_md5]: nil for an empty password; otherwise the control function,
    given by the signature it sets. *)
Definition tcp_md5 (md5pass : list byte) : option (string -> TCPMD5Sig) :=
  if (length md5pass =? 0)%nat then None else Some (tcp_md5_sig md5pass).

End Tcp.

(** * A small pipeline

    Two stages, "@a" at slot 1 injecting at "@b", and "@b" at slot 2; a
    stage implementation that registers one L and one R input. *)

Module Demo.

Import Koanf Msg Pipe Bgpipe.

Definition roles : StageOptions := mkStageOptions false false false false false.

Definition stage (idx : Z) (name : string) (k : koanf) : StageBase :=
  mkStageBase idx "tcp" name k roles false false false false DIR_NONE
    None None "" [] [] [].

Definition in_L : Input := mkInput "L" 0 DIR_L false FILTER_NONE 0.
Definition in_R : Input := mkInput "R" 0 DIR_R false FILTER_NONE 0.

(** The number of slots after slot 0. *)
Definition count (b : Bgpipe) : Z :=
  Z.max 0 (Z.of_nat (length (Stages b)) - 1).

Definition child (s : ptr) (b : Bgpipe) : outcome error Bgpipe :=
  let po := P_Options b in
  Ok (set_P_Options
        (mkOptions (Callbacks po) (Handlers po) (Inputs po ++ [in_L; in_R])) b).

Definition stage_b : StageBase := stage 2 "@b" ∅.

(** The pipeline whose first stage has the "in" option [v]. *)
Definition pipeline_in (v : string) : Bgpipe :=
  mkBgpipe {[ "reverse" := KBool true ]} [None; Some 0%nat; Some 1%nat]
    {[ 0%nat := stage 1 "@a" {[ "in" := KString v ]}; 1%nat := stage_b ]}
    (mkOptions [] [] []).

Definition stage_a : StageBase := stage 1 "@a" {[ "in" := KString "@b" ]}.

Definition pipeline : Bgpipe := pipeline_in "@b".

(** [stage_a] when its implementation attaches, and when it returns. *)
Definition stage_a_resolved : StageBase :=
  mkStageBase 1 "tcp" "@a" {[ "in" := KString "@b" ]} roles true false
    true false DIR_L (Some LineL) (Some LineR) "" [] [] [].

Definition attached : Bgpipe :=
  mkBgpipe {[ "reverse" := KBool true ]} [None; Some 0%nat; Some 1%nat]
    (<[ 0%nat := stage_a_resolved ]> {[ 0%nat := stage_a; 1%nat := stage_b ]})
    (mkOptions [] [] [in_L; in_R]).

End Demo.

(** * A small library

    An instance of what the adapter consumes: inputs are queues of
    messages, JSON parsing accepts anything, marshalling refuses messages
    of type INVALID, whitespace is the ASCII one, and the reader fills
    every buffer it is given. *)

Module ExtioDemo.

Import Koanf Msg Extio.

Definition is_space (b : byte) : bool :=
  match b with
  | x09 | x0a | x0b | x0c | x0d | x20 => true
  | _ => false
  end.

Fixpoint trim_left (l : bytes) : bytes :=
  match l with
  | [] => []
  | b :: r => if is_space b then trim_left r else l
  end.

Definition trim (l : bytes) : bytes := rev (trim_left (rev (trim_left l))).

Definition type_of_string (v : string) : option Z :=
  if String.eqb v "OPEN" then Some OPEN
  else if String.eqb v "UPDATE" then Some UPDATE
  else if String.eqb v "KEEPALIVE" then Some KEEPALIVE
  else None.

Definition marshal (m : Msg) : Msg * option error :=
  if m_Type m =? INVALID then (m, Some (ErrLib "invalid type")) else (m, None).

Definition lib : Lib := {|
  input := list Msg;
  AddInput := fun _ => [];
  WriteMsg := fun q m => (q ++ [m], None);
  WriteFunc := fun q _ _ => (q, None);
  Close := fun q => q;
  TypeString := type_of_string;
  FromBytes := fun b m => (m, Z.of_nat (length b), None);
  Mrt_FromBytes := fun _ b m => (m, Z.of_nat (length b), None);
  Mrt_WriteFunc := fun _ q _ _ => (q, None);
  FromJSON := fun _ m => (m, None);
  Update_FromJSON := fun _ m => (m, None);
  Marshal := marshal;
  WriteTo := fun m bb => (bb ++ m_Data m, None);
  GetJSON := m_Data;
  bb_Write := fun p bb => (bb ++ p, None);
  TrimSpace := trim;
  Now := 0;
  reader := unit;
  Read := fun rd l => (rd, replicate (Z.to_nat l) x00, None) |}.

(** An adapter of a right-hand stage before Attach, with the store [k]. *)
Definition fresh (k : koanf) : @Extio lib :=
  @mkExtio lib k false false false DIR_R [] false false false false false
    false false false false None [] None None None None (mkChan false [])
    [] [].

(** The adapter Attach makes of it ([fresh k] itself if Attach fails). *)
Definition attached (k : koanf) : @Extio lib :=
  match Attach (fresh k) with
  | Ok e => e
  | _ => fresh k
  end.

(** Text mode; text mode, write-only; MRT mode; raw mode. *)
Definition text : @Extio lib := attached ∅.

Definition text_write_only : @Extio lib :=
  attached {[ "write" := KBool true ]}.

Definition mrt_out : @Extio lib := attached {[ "mrt" := KBool true ]}.

Definition raw_out : @Extio lib := attached {[ "raw" := KBool true ]}.

(** MRT mode, once OutputClose has made the adapter read-only. *)
Definition mrt_closed : @Extio lib :=
  match OutputClose mrt_out with
  | Ok e => e
  | _ => mrt_out
  end.

(** The reader of [lib]. *)
Definition full_reader : @reader lib := tt.

(** A message of type INVALID, which [marshal] refuses. *)
Definition blank : Msg := GetMsg.

End ExtioDemo.

(** * A library that refuses

    A second stand-in for the libraries: its inputs refuse every message,
    its raw and MRT writers report a bad marker (or, for an empty buffer,
    an unexpected end), its MRT parser finds no BGP message, and its
    reader is at the end of the file. *)

Module ExtioPicky.

Import Koanf Msg Extio.

Definition write_func (q : list Msg) (data : bytes)
  : list Msg * option error :=
  match data with
  | [] => (q, Some ErrUnexpectedEOF)
  | _ => (q, Some (ErrLib "bad marker"))
  end.

Definition lib : Lib := {|
  input := list Msg;
  AddInput := fun _ => [];
  WriteMsg := fun q m => (q, Some (ErrLib "input closed"));
  WriteFunc := fun q data _ => write_func q data;
  Close := fun q => q;
  TypeString := ExtioDemo.type_of_string;
  FromBytes := fun b m => (m, 0, None);
  Mrt_FromBytes := fun _ b m => (m, 0, Some ErrSub);
  Mrt_WriteFunc := fun _ q data _ => write_func q data;
  FromJSON := fun _ m => (m, None);
  Update_FromJSON := fun _ m => (m, None);
  Marshal := ExtioDemo.marshal;
  WriteTo := fun m bb => (bb, Some (ErrLib "short write"));
  GetJSON := m_Data;
  bb_Write := fun p bb => (bb ++ p, None);
  TrimSpace := ExtioDemo.trim;
  Now := 0;
  reader := unit;
  Read := fun rd l => (rd, [], Some EOF) |}.

(** An adapter of a right-hand stage before Attach, with the store [k],
    and the adapter Attach makes of it. *)
Definition fresh (k : koanf) : @Extio lib :=
  @mkExtio lib k false false false DIR_R [] false false false false false
    false false false false None [] None None None None (mkChan false [])
    [] [].

Definition attached (k : koanf) : @Extio lib :=
  match Attach (fresh k) with
  | Ok e => e
  | _ => fresh k
  end.

(** Raw mode; MRT mode; text mode with --type UPDATE. *)
Definition raw_in : @Extio lib := attached {[ "raw" := KBool true ]}.

Definition mrt_in : @Extio lib := attached {[ "mrt" := KBool true ]}.

Definition updates_only : @Extio lib :=
  attached {[ "type" := KStrings ["UPDATE"] ]}.

End ExtioPicky.

(** * A small command line

    A repository of three commands whose stages declare no flags; "tcp"
    takes one positional argument, "addr". *)

Module DemoArgs.

Import Koanf Msg Pipe Bgpipe.

Definition empty : Bgpipe := mkBgpipe ∅ [] ∅ (mkOptions [] [] []).

Definition new_stage (b : Bgpipe) (cmd : string) : option StageBase :=
  if String.eqb cmd "tcp" || String.eqb cmd "stdout" || String.eqb cmd "grep"
  then Some (mkStageBase 0 cmd cmd ∅ Demo.roles false false false false
               DIR_NONE None None "" [] [] [])
  else None.

Definition is_addr (v : string) : bool := false.

Definition is_file (v : string) : bool := false.

Definition args_of (st : StageBase) : option (list string) :=
  if String.eqb (Cmd st) "tcp" then Some ["addr"] else None.

Definition flags_parse (st : StageBase) (args : list string)
  : error + (koanf * list string) :=
  inr (K st, args).

End DemoArgs.

(** * A small writer

    A writer that appends what it is given and refuses an empty
    buffer. *)

Module DemoWriter.

Import Extio.

Definition write_to (bb : bytes) (w : bytes) : bytes * option error :=
  match bb with
  | [] => (w, Some (ErrLib "short write"))
  | _ => (w ++ bb, None)
  end.

(** Text mode, with two buffers queued, the second one empty. *)
Definition queued : @Extio ExtioDemo.lib :=
  set_Output (mkChan false [["a"%byte]; []; ["b"%byte]]) ExtioDemo.text.

End DemoWriter.

(** * A scripted reader

    The small library again, with a reader that hands out the buffers of
    a script one per call and then reports the end of the file. *)

Module DemoStream.

Import Koanf Msg Extio.

Definition read (rd : list bytes) (l : Z)
  : list bytes * bytes * option error :=
  match rd with
  | [] => ([], [], Some EOF)
  | data :: rest => (rest, data, None)
  end.

Definition lib : Lib := {|
  input := list Msg;
  AddInput := fun _ => [];
  WriteMsg := fun q m => (q ++ [m], None);
  WriteFunc := fun q _ _ => (q, None);
  Close := fun q => q;
  TypeString := ExtioDemo.type_of_string;
  FromBytes := fun b m => (m, Z.of_nat (length b), None);
  Mrt_FromBytes := fun _ b m => (m, Z.of_nat (length b), None);
  Mrt_WriteFunc := fun _ q _ _ => (q, None);
  FromJSON := fun _ m => (m, None);
  Update_FromJSON := fun _ m => (m, None);
  Marshal := ExtioDemo.marshal;
  WriteTo := fun m bb => (bb ++ m_Data m, None);
  GetJSON := m_Data;
  bb_Write := fun p bb => (bb ++ p, None);
  TrimSpace := ExtioDemo.trim;
  Now := 0;
  reader := list bytes;
  Read := read |}.

(** The text-mode adapter of a right-hand stage, after Attach. *)
Definition text : @Extio lib :=
  match Attach (@mkExtio lib ∅ false false false DIR_R [] false false false
                  false false false false false false None [] None None None
                  None (mkChan false []) [] []) with
  | Ok e => e
  | Err _ e => e
  | Panic _ =>
      @mkExtio lib ∅ false false false DIR_R [] false false false
        false false false false false false None [] None None None
        None (mkChan false []) [] []
  end.


End DemoStream.

(** * Vocabulary of the properties *)

(** The byte [c] occurs in [s]. *)
Fixpoint occursb (c : ascii) (s : string) : bool :=
  match s with
  | EmptyString => false
  | String a s' => Ascii.eqb a c || occursb c s'
  end.

(** [s] contains [c] and does not begin with it. *)
Definition occurs_inside (c : ascii) (s : string) : bool :=
  match s with
  | EmptyString => false
  | String a s' => negb (Ascii.eqb a c) && occursb c s'
  end.

(** The rewrite in the spec's words: a name with a slash is kept, a name
    with a dot and no slash gets "bgpfix/", a bare name "bgpfix/pipe.". *)
Definition spec_event (et : string) : string :=
  if occursb "/" et then et
  else if occursb "." et then "bgpfix/" +:+ et
  else "bgpfix/pipe." +:+ et.

(** What --reverse leaves of a stage [st0]: [st] has the "left" and
    "right" options of [st0], exchanged if [f] is set, every other option
    as in [st0], and differs from [st0] in no field other than Index and
    K. *)
Definition lr_rel (f : bool) (st0 st : Bgpipe.StageBase) : Prop :=
  Koanf.K_Bool (Bgpipe.K st) "left"
    = (if f then Koanf.K_Bool (Bgpipe.K st0) "right"
       else Koanf.K_Bool (Bgpipe.K st0) "left") /\
  Koanf.K_Bool (Bgpipe.K st) "right"
    = (if f then Koanf.K_Bool (Bgpipe.K st0) "left"
       else Koanf.K_Bool (Bgpipe.K st0) "right") /\
  (forall key, key <> "left" -> key <> "right" ->
     Bgpipe.K st !! key = Bgpipe.K st0 !! key) /\
  st = Bgpipe.set_K (Bgpipe.K st) (Bgpipe.set_Index (Bgpipe.Index st) st0).

(** Whether the slots of [l] point to [s] an odd number of times. *)
Fixpoint flips (s : ptr) (l : list (option ptr)) : bool :=
  match l with
  | [] => false
  | x :: l => xorb (bool_decide (x = Some s)) (flips s l)
  end.

(** [st2] is the stage of the first slot of [stages] that points to a
    stage named [v]. *)
Definition first_named (h : gmap ptr Bgpipe.StageBase)
    (stages : list (option ptr)) (v : string) (st2 : Bgpipe.StageBase)
  : Prop :=
  exists (i : nat) (p : ptr),
    stages !! i = Some (Some p) /\ h !! p = Some st2 /\
    Bgpipe.Name st2 = v /\
    forall (j : nat) (q : ptr) (stq : Bgpipe.StageBase),
      (j < i)%nat -> stages !! j = Some (Some q) -> h !! q = Some stq ->
      Bgpipe.Name stq <> v.

(** No slot of [stages] points to a stage named [v]. *)
Definition none_named (h : gmap ptr Bgpipe.StageBase)
    (stages : list (option ptr)) (v : string) : Prop :=
  forall (j : nat) (q : ptr) (stq : Bgpipe.StageBase),
    stages !! j = Some (Some q) -> h !! q = Some stq ->
    Bgpipe.Name stq <> v.

(** The input [li] is [li0] stamped with the stage index [idx] and the
    position filter ([frev], [ffwd], [fid]): reverse mode on an L input,
    forward mode on an R input. *)
Definition input_wired (idx : Z) (frev ffwd : Pipe.FilterMode) (fid : Z)
    (li0 li : Pipe.Input) : Prop :=
  Pipe.in_Name li = Pipe.in_Name li0 /\
  Pipe.in_Dir li = Pipe.in_Dir li0 /\
  Pipe.in_Id li = idx /\
  Pipe.in_FilterValue li = fid /\
  (Pipe.in_Dir li = Msg.DIR_L ->
     Pipe.in_Reverse li = true /\ Pipe.in_CallbackFilter li = frev) /\
  (Pipe.in_Dir li = Msg.DIR_R ->
     Pipe.in_Reverse li = false /\ Pipe.in_CallbackFilter li = ffwd).

(** The outcome [r] of attaching the stage at [s] is success, with the
    inputs [new] the stage registered wired as above and the inputs [old]
    registered before it untouched. *)
Definition wired_with (r : outcome Bgpipe.error Bgpipe.Bgpipe) (s : ptr)
    (old new : list Pipe.Input) (idx : Z)
    (frev ffwd : Pipe.FilterMode) (fid : Z) : Prop :=
  exists (b2 : Bgpipe.Bgpipe) (st2 : Bgpipe.StageBase),
    r = Ok b2 /\ Bgpipe.heap b2 !! s = Some st2 /\
    Forall2 (input_wired idx frev ffwd fid) new (Bgpipe.inputs st2) /\
    Pipe.Inputs (Bgpipe.P_Options b2) = old ++ Bgpipe.inputs st2.

(** The outcome [r] is the unknown-injection-target error for [v]. *)
Definition fails_inject (r : outcome Bgpipe.error Bgpipe.Bgpipe)
    (v : string) : Prop :=
  exists b2 : Bgpipe.Bgpipe, r = Err (Bgpipe.ErrInject v) b2.

(** The adapter [e'] has the mode options of [e]. *)
Definition same_modes {lib : Extio.Lib} (e e' : Extio.Extio) : Prop :=
  Extio.opt_raw e' = Extio.opt_raw e /\
  Extio.opt_mrt e' = Extio.opt_mrt e /\
  Extio.opt_read e' = Extio.opt_read e /\
  Extio.opt_write e' = Extio.opt_write e /\
  Extio.opt_copy e' = Extio.opt_copy e.

(** The lengths the read buffer of ReadStream may have: 64 KiB doubled at
    most seven times. *)
Definition size_ok (l : Z) : Prop :=
  exists k : Z, 0 <= k <= 7 /\ l = 64 * 1024 * 2 ^ k.

(** In a trace of (buffer length, bytes read), each length follows from
    the turn before: doubled if that read filled more than half of a
    buffer of at most 4 MiB, the same otherwise. *)
Fixpoint grows (tr : list (Z * Z)) : Prop :=
  match tr with
  | [] => True
  | (l, n) :: rest =>
      match rest with
      | [] => True
      | (l', _) :: _ =>
          l' = if (Z.quot l 2 <? n) && (l <=? 4 * 1024 * 1024)
               then l * 2 else l
      end /\ grows rest
  end.

(** The trace of a reader that fills every buffer. *)
Fixpoint full_trace (fuel : nat) (l : Z) : list (Z * Z) :=
  match fuel with
  | O => []
  | S fuel =>
      (l, l) :: full_trace fuel (if l <=? 4 * 1024 * 1024 then l * 2 else l)
  end.

(** [e'] is [e] but for the inputs of the pipe and the log. *)
Definition inputs_log_only {lib : Extio.Lib} (e e' : Extio.Extio) : Prop :=
  e' = Extio.set_log (Extio.log e')
         (Extio.set_P_Inputs (Extio.P_Inputs e') e).

(** [e'] is [e] but for the inputs of the pipe, the log and the line
    buffer. *)
Definition inputs_log_buf_only {lib : Extio.Lib} (e e' : Extio.Extio) : Prop :=
  e' = Extio.set_buf (Extio.buf e')
         (Extio.set_log (Extio.log e')
            (Extio.set_P_Inputs (Extio.P_Inputs e') e)).

(** The input [i] of the pipe was handed the message [m], which it took
    ([err] is [None]) or refused with [err]: [ins'] is [ins] after that. *)
Definition wrote_to {lib : Extio.Lib} (ins ins' : list Extio.input)
    (err : option Extio.error) : Prop :=
  exists (i : nat) (inp : Extio.input) (m : Extio.Msg),
    ins !! i = Some inp /\ (Extio.WriteMsg inp m).2 = err /\
    ins' = <[i := (Extio.WriteMsg inp m).1]> ins.

(** The pointers of an adapter that reads lead to inputs of the pipe, and
    its MRT reader writes to the default input. *)
Definition inputs_ok {lib : Extio.Lib} (e : Extio.Extio) : Prop :=
  Extio.opt_write e = false ->
  exists l r d : nat,
    Extio.InputL e = Some l /\ Extio.InputR e = Some r /\
    Extio.InputD e = Some d /\
    (l < length (Extio.P_Inputs e))%nat /\
    (r < length (Extio.P_Inputs e))%nat /\
    (d < length (Extio.P_Inputs e))%nat /\
    exists rd, Extio.mrt e = Some rd /\ Extio.mr_Input rd = Some d.

(** A call of ReadSingle or of ReadBuf. *)
Inductive read_op : Type :=
| Single (data : Extio.bytes) (cb : option Extio.CallbackFunc)
| Buf (data : Extio.bytes) (cb : option Extio.CallbackFunc).

(** The adapter after the calls [ops], whatever errors they return;
    [None] if one of them panics. *)
Fixpoint reads {lib : Extio.Lib} (ops : list read_op) (e : Extio.Extio)
  : option Extio.Extio :=
  match ops with
  | [] => Some e
  | op :: ops =>
      match (match op with
             | Single data cb => Extio.ReadSingle e data cb
             | Buf data cb => Extio.ReadBuf e data cb
             end) with
      | Ok e' | Err _ e' => reads ops e'
      | Panic _ => None
      end
  end.

(** The message type a --type value names: a canonical name of the
    library, or an integer from 0 to 255. *)
Definition type_value {lib : Extio.Lib} (v : string) : option Z :=
  match Extio.TypeString v with
  | Some typ => Some typ
  | None =>
      match Strconv.Atoi v with
      | Some tnum => if (0 <=? tnum) && (tnum <=? 255) then Some tnum else None
      | None => None
      end
  end.

(** The values of [vs] that are not empty name the types [ts], in order. *)
Definition names_types {lib : Extio.Lib} (vs : list string) (ts : list Z)
  : Prop :=
  Forall2 (fun v typ => type_value v = Some typ)
    (filter (fun v => v <> "") vs) ts.

(** The outcome [r] with the line buffer of its adapter set to [x]. *)
Definition with_buf {lib : Extio.Lib} (x : Extio.bytes)
    (r : outcome Extio.error Extio.Extio) : outcome Extio.error Extio.Extio :=
  match r with
  | Ok e => Ok (Extio.set_buf x e)
  | Err err e => Err err (Extio.set_buf x e)
  | Panic why => Panic why
  end.

(** No byte of [l] is a newline. *)
Definition no_newline (l : Extio.bytes) : Prop :=
  Forall (fun c => Byte.eqb c "010" = false) l.

(** [e'] is [e] but for the output channel and the log. *)
Definition output_log_only {lib : Extio.Lib} (e e' : Extio.Extio) : Prop :=
  e' = Extio.set_log (Extio.log e')
         (Extio.set_Output (Extio.Output e') e).

(** The stage list is well formed: a slot that points to a stage is not
    slot 0, its stage is allocated and carries the index of the slot, and
    no stage sits in two slots. *)
Definition stages_wf (b : Bgpipe.Bgpipe) : Prop :=
  (forall (i : nat) (p : ptr),
     Bgpipe.Stages b !! i = Some (Some p) ->
     (0 < i)%nat /\
     exists st, Bgpipe.heap b !! p = Some st /\
                Bgpipe.Index st = Z.of_nat i) /\
  (forall (i j : nat) (p : ptr),
     Bgpipe.Stages b !! i = Some (Some p) ->
     Bgpipe.Stages b !! j = Some (Some p) -> i = j).

(** The slot AddStage works on when asked for [idx]: the end of the list
    (slot 1 of an empty one) for an [idx] that is not positive. *)
Definition slot_for (b : Bgpipe.Bgpipe) (idx : Z) : nat :=
  if idx <=? 0 then Nat.max 1 (length (Bgpipe.Stages b)) else Z.to_nat idx.

(** The writer after the buffers [q] went to it in order, each write
    taken to succeed. *)
Definition written {writer : Type}
    (bb_WriteTo : Extio.bytes -> writer -> writer * option Extio.error)
    (q : list Extio.bytes) (w : writer) : writer :=
  foldl (fun w bb => (bb_WriteTo bb w).1) w q.


(** * Properties *)

(** ** Event names (cfgEvents) *)

Section EventNames.

Import Koanf Events.

Lemma IndexByte_ge (s : string) (c : ascii) : -1 <= Strings.IndexByte s c.
Proof.
  induction s as [|a s IH]; simpl; [lia|].
  destruct (Ascii.eqb a c); [lia|].
  destruct (Strings.IndexByte s c <? 0) eqn:E; lia.
Qed.

Lemma IndexByte_neg (s : string) (c : ascii) :
  (Strings.IndexByte s c <? 0) = negb (occursb c s).
Proof.
  induction s as [|a s IH]; simpl; [done|].
  destruct (Ascii.eqb a c); simpl; [done|].
  rewrite <- IH. pose proof (IndexByte_ge s c).
  destruct (Strings.IndexByte s c <? 0) eqn:E; [done|].
  apply Z.ltb_ge in E. apply Z.ltb_ge. lia.
Qed.

Lemma IndexByte_pos (s : string) (c : ascii) :
  (0 <? Strings.IndexByte s c) = occurs_inside c s.
Proof.
  destruct s as [|a s]; simpl; [done|].
  destruct (Ascii.eqb a c); simpl; [done|].
  pose proof (IndexByte_neg s c) as Hn. pose proof (IndexByte_ge s c).
  destruct (Strings.IndexByte s c <? 0) eqn:E.
  - symmetry in Hn. apply negb_true_iff in Hn. by rewrite Hn.
  - symmetry in Hn. apply negb_false_iff in Hn. rewrite Hn.
    apply Z.ltb_ge in E. apply Z.ltb_lt. lia.
Qed.

Variable ToUpper : string -> string.

Lemma rewrite_event_cases (et : string) :
  rewrite_event ToUpper et =
    if occurs_inside "/" et then et
    else if occurs_inside "." et then "bgpfix/" +:+ et
    else "bgpfix/pipe." +:+ ToUpper et.
Proof.
  unfold rewrite_event. rewrite !IndexByte_pos.
  by destruct (occurs_inside "." et), (occurs_inside "/" et).
Qed.

Lemma cfgEvents_map (k : koanf) (key : string) :
  cfgEvents ToUpper k key = map (rewrite_event ToUpper) (K_Strings k key).
Proof.
  unfold cfgEvents. by destruct (K_Strings k key).
Qed.

(** C8, as the code has it: every configured event name is rewritten in
    place; a name that contains '/' and does not begin with it is kept;
    otherwise a name that contains '.' and does not begin with it gets
    the prefix "bgpfix/"; any other name is put in upper case and gets
    the prefix "bgpfix/pipe.". *)
Theorem cfgEvents_rewrites (k : koanf) (key : string) (i : nat) (et : string) :
  K_Strings k key !! i = Some et ->
  length (cfgEvents ToUpper k key) = length (K_Strings k key) /\
  (occurs_inside "/" et = true ->
     cfgEvents ToUpper k key !! i = Some et) /\
  (occurs_inside "/" et = false -> occurs_inside "." et = true ->
     cfgEvents ToUpper k key !! i = Some ("bgpfix/" +:+ et)) /\
  (occurs_inside "/" et = false -> occurs_inside "." et = false ->
     cfgEvents ToUpper k key !! i = Some ("bgpfix/pipe." +:+ ToUpper et)).
Proof.
  intros Hi. rewrite cfgEvents_map, length_map, list_lookup_fmap, Hi. simpl.
  rewrite rewrite_event_cases.
  split; [done|]. repeat split; intros; by repeat match goal with
    | H : occurs_inside _ _ = _ |- _ => rewrite H; clear H end.
Qed.

End EventNames.

Lemma cfgEvents_rewrites_witness :
  let k : Koanf.koanf := {[ "wait" := Koanf.KStrings ["start"; "bgp.OPEN"; "lib/pkg.X"] ]} in
  Koanf.K_Strings k "wait" !! 1%nat = Some "bgp.OPEN" /\
  Events.cfgEvents Strings.ToUpperASCII k "wait" !! 1%nat
    = Some "bgpfix/bgp.OPEN".
Proof.
  simpl. split; [reflexivity|].
  apply (cfgEvents_rewrites Strings.ToUpperASCII
           {[ "wait" := Koanf.KStrings ["start"; "bgp.OPEN"; "lib/pkg.X"] ]}
           "wait" 1 "bgp.OPEN"); reflexivity.
Defined.

(** C8 as stated fails: a lower-case bare name comes out in upper case,
    and a name that begins with '/' is not kept. *)
Lemma cfgEvents_not_spec_event :
  let k : Koanf.koanf := {[ "wait" := Koanf.KStrings ["start"; "/x"] ]} in
  Events.cfgEvents Strings.ToUpperASCII k "wait"
    = ["bgpfix/pipe.START"; "bgpfix/pipe./X"] /\
  map spec_event (Koanf.K_Strings k "wait") = ["bgpfix/pipe.start"; "/x"] /\
  Events.cfgEvents Strings.ToUpperASCII k "wait"
    <> map spec_event (Koanf.K_Strings k "wait").
Proof.
  simpl. split; [reflexivity|]. split; [reflexivity|]. vm_compute. discriminate.
Qed.

(** ** Reversal of the pipeline (Bgpipe.Attach, --reverse) *)

Section Reverse.

Import Koanf Bgpipe.

Lemma K_Bool_insert_eq (k : koanf) (key : string) (v : bool) :
  K_Bool (<[key := KBool v]> k) key = v.
Proof. unfold K_Bool. by rewrite lookup_insert_eq. Qed.

Lemma K_Bool_insert_ne (k : koanf) (key key' : string) (v : kval) :
  key <> key' -> K_Bool (<[key := v]> k) key' = K_Bool k key'.
Proof. intros. unfold K_Bool. by rewrite lookup_insert_ne. Qed.

Lemma reverse_stage_K (idx : Z) (st : StageBase) :
  K (reverse_stage idx st)
  = <["right" := KBool (K_Bool (K st) "left")]>
      (<["left" := KBool (K_Bool (K st) "right")]> (K st)).
Proof. reflexivity. Qed.

Lemma reverse_stage_Index (idx : Z) (st : StageBase) :
  Index (reverse_stage idx st) = idx.
Proof. reflexivity. Qed.

Lemma lr_rel_refl (st : StageBase) : lr_rel false st st.
Proof. unfold lr_rel. by destruct st. Qed.

Lemma lr_rel_step (f : bool) (idx : Z) (st0 st : StageBase) :
  lr_rel f st0 st -> lr_rel (negb f) st0 (reverse_stage idx st).
Proof.
  intros (Hl & Hr & Hk & Hst). unfold lr_rel.
  rewrite reverse_stage_K, reverse_stage_Index.
  rewrite K_Bool_insert_ne, K_Bool_insert_eq, K_Bool_insert_eq by done.
  rewrite Hl, Hr. repeat split.
  - by destruct f.
  - by destruct f.
  - intros key H1 H2. rewrite !lookup_insert_ne by done. by apply Hk.
  - unfold reverse_stage. simpl. rewrite Hl, Hr.
    rewrite Hst. by destruct st0.
Qed.

Lemma flips_app (s : ptr) (l1 l2 : list (option ptr)) :
  flips s (l1 ++ l2) = xorb (flips s l1) (flips s l2).
Proof.
  induction l1 as [|x l1 IH]; simpl.
  - by destruct (flips s l2).
  - rewrite IH. by rewrite xorb_assoc.
Qed.

Lemma flips_rev (s : ptr) (l : list (option ptr)) :
  flips s (rev l) = flips s l.
Proof.
  induction l as [|x l IH]; simpl; [done|].
  rewrite flips_app, IH. simpl. rewrite xorb_false_r. apply xorb_comm.
Qed.

(** One pass of the loop flips the options of a stage once per slot that
    points to it. *)
Lemma reverse_loop_rel (h0 : gmap ptr StageBase) (l : list (option ptr)) :
  forall (idx : Z) (h : gmap ptr StageBase) (f : ptr -> bool),
    (forall s st0, h0 !! s = Some st0 ->
       exists st, h !! s = Some st /\ lr_rel (f s) st0 st) ->
    forall s st0, h0 !! s = Some st0 ->
      exists st, reverse_loop idx l h !! s = Some st /\
                 lr_rel (xorb (f s) (flips s l)) st0 st.
Proof.
  induction l as [|[p|] l IH]; intros idx h f Hinv s st0 Hs; simpl.
  - rewrite xorb_false_r. by apply Hinv.
  - destruct (IH (idx + 1) (alter (reverse_stage idx) p h)
                (fun s => xorb (f s) (bool_decide (Some p = Some s)))) with
      (s := s) (st0 := st0) as (st & Hst & Hrel); [|done|].
    + intros s' st0' Hs'. destruct (Hinv s' st0' Hs') as (st' & Hst' & Hrel').
      destruct (decide (p = s')) as [->|Hne].
      * exists (reverse_stage idx st'). rewrite lookup_alter_eq, Hst'.
        split; [done|]. rewrite bool_decide_eq_true_2 by done.
        rewrite xorb_true_r. by apply lr_rel_step.
      * exists st'. rewrite lookup_alter_ne by done. split; [done|].
        rewrite bool_decide_eq_false_2 by congruence.
        by rewrite xorb_false_r.
    + exists st. split; [done|]. by rewrite <- xorb_assoc.
  - destruct (IH (idx + 1) h f Hinv s st0 Hs) as (st & Hst & Hrel).
    by exists st.
Qed.

Lemma reverse_loop_absent (l : list (option ptr)) :
  forall (idx : Z) (h : gmap ptr StageBase) (s : ptr),
    Some s ∉ l -> reverse_loop idx l h !! s = h !! s.
Proof.
  induction l as [|[p|] l IH]; intros idx h s Hs; simpl; [done| |].
  - rewrite IH by set_solver. apply lookup_alter_ne. set_solver.
  - apply IH. set_solver.
Qed.

(** After a pass, a stage carries the index of the last slot that points
    to it. *)
Lemma reverse_loop_Index (l : list (option ptr)) :
  forall (idx : Z) (h : gmap ptr StageBase) (i : nat) (s : ptr)
         (st : StageBase),
    l !! i = Some (Some s) ->
    (forall j, (i < j)%nat -> l !! j <> Some (Some s)) ->
    reverse_loop idx l h !! s = Some st ->
    Index st = idx + Z.of_nat i.
Proof.
  induction l as [|x l IH]; intros idx h i s st Hi Hlast Hst; [done|].
  destruct i as [|i].
  - simpl in Hi. injection Hi as ->. simpl in Hst.
    rewrite reverse_loop_absent in Hst.
    + rewrite lookup_alter_eq in Hst.
      destruct (h !! s) as [st0|]; simpl in Hst; [|done].
      injection Hst as <-. rewrite reverse_stage_Index. lia.
    + intros Hin. apply list_elem_of_lookup in Hin as [j Hj].
      by apply (Hlast (S j)); [lia|].
  - simpl in Hi.
    assert (Hlast' : forall j, (i < j)%nat -> l !! j <> Some (Some s)).
    { intros j Hj. apply (Hlast (S j)). lia. }
    destruct x as [p|]; simpl in Hst.
    + rewrite (IH _ _ _ _ _ Hi Hlast' Hst). lia.
    + rewrite (IH _ _ _ _ _ Hi Hlast' Hst). lia.
Qed.

(** C3: with --reverse set, running the reversal block of Bgpipe.Attach
    twice gives back the stage list slot for slot, with the global store
    and the pipe options untouched; every stage has its "left" and "right"
    options as before, differs from what it was in no other option and in
    no field other than Index and K, and carries the index of its slot. *)
Theorem Attach_reverse_twice (b : Bgpipe) :
  K_Bool (B_K b) "reverse" = true ->
  Stages b <> [] ->
  exists b1 b2,
    Attach_reverse b = Ok b1 /\ Attach_reverse b1 = Ok b2 /\
    Stages b2 = Stages b /\
    B_K b2 = B_K b /\ P_Options b2 = P_Options b /\
    (forall s st, heap b !! s = Some st ->
       exists st2, heap b2 !! s = Some st2 /\ lr_rel false st st2) /\
    (forall i s st2,
       Stages b !! i = Some (Some s) ->
       (forall j, (i < j)%nat -> Stages b !! j <> Some (Some s)) ->
       heap b2 !! s = Some st2 -> Index st2 = Z.of_nat i).
Proof.
  intros Hrev Hne. unfold Attach_reverse. rewrite Hrev.
  destruct (Stages b) as [|s0 rest] eqn:HS; [done|].
  eexists _, _. split; [reflexivity|]. simpl. rewrite Hrev.
  split; [reflexivity|]. simpl. rewrite rev_involutive.
  split; [done|]. split; [done|]. split; [done|]. split.
  - intros s st Hs.
    destruct (reverse_loop_rel (heap b) (s0 :: rev (rev rest)) 0
                (reverse_loop 0 (s0 :: rev rest) (heap b))
                (fun s => xorb false (flips s (s0 :: rev rest))))
      with (s := s) (st0 := st) as (st2 & Hst2 & Hrel); [|done|].
    + intros s' st0' Hs'.
      by apply (reverse_loop_rel (heap b) (s0 :: rev rest) 0 (heap b)
                  (fun _ => false)); [intros ? st' ?; exists st';
                                      split; [done|apply lr_rel_refl]|].
    + exists st2. rewrite rev_involutive in Hst2, Hrel.
      split; [done|]. simpl in Hrel. rewrite flips_rev in Hrel.
      by rewrite xorb_nilpotent in Hrel.
  - intros i s st2 Hi Hlast Hst2.
    by rewrite (reverse_loop_Index _ _ _ _ _ _ Hi Hlast Hst2).
Qed.

End Reverse.

Lemma Attach_reverse_twice_witness :
  exists b1 b2,
    Bgpipe.Attach_reverse Demo.pipeline = Ok b1 /\
    Bgpipe.Attach_reverse b1 = Ok b2 /\
    Bgpipe.Stages b2 = Bgpipe.Stages Demo.pipeline.
Proof.
  destruct (Attach_reverse_twice Demo.pipeline) as (b1 & b2 & H1 & H2 & H3 & _).
  - reflexivity.
  - discriminate.
  - by exists b1, b2.
Defined.

(** ** Stage attachment (StageBase.attach) *)

Section AttachProperties.

Import Koanf Msg Pipe Bgpipe.

Variable StageCount : Bgpipe -> Z.
Variable Stage_Attach : ptr -> Bgpipe -> outcome error Bgpipe.

Local Abbreviation attach_resolve := (Bgpipe.attach_resolve StageCount).
Local Abbreviation attach_child := (Bgpipe.attach_child Stage_Attach).
Local Abbreviation attach := (Bgpipe.attach StageCount Stage_Attach).

(** C2: a stage with neither "left" nor "right" set goes right, unless it
    is flagged last and produces, or is flagged first and does not
    produce, in which case it goes left; IsLeft is then the negation of
    IsRight, and the stage implementation is attached in that state.  A
    stage with both set fails with ErrLR unless its options say Bidir, in
    which case it keeps both and gets the direction L|R. *)
Theorem attach_direction (s : ptr) (b : Bgpipe) (st : StageBase) :
  heap b !! s = Some st ->
  (K_Bool (K st) "left" = false -> K_Bool (K st) "right" = false ->
     exists st',
       attach_resolve b st = Ok st' /\
       attach s b = attach_child s (store s st' b) /\
       Options st' = Options st /\
       IsFirst st' = IsFirst st || (Index st =? 1) /\
       IsLast st' = IsLast st
                    || (negb (Index st =? 1) && (Index st =? StageCount b)) /\
       IsRight st' = negb ((IsLast st' && IsProducer (Options st'))
                           || (IsFirst st' && negb (IsProducer (Options st')))) /\
       IsLeft st' = negb (IsRight st') /\
       Dir st' = (if IsRight st' then DIR_R else DIR_L)) /\
  (K_Bool (K st) "left" = true -> K_Bool (K st) "right" = true ->
     Bidir (Options st) = false ->
     exists st', attach s b = Err ErrLR (store s st' b)) /\
  (K_Bool (K st) "left" = true -> K_Bool (K st) "right" = true ->
     Bidir (Options st) = true ->
     exists st',
       attach_resolve b st = Ok st' /\
       attach s b = attach_child s (store s st' b) /\
       IsLeft st' = true /\ IsRight st' = true /\ Dir st' = DIR_LR).
Proof.
  intros Hs. unfold Bgpipe.attach. rewrite Hs.
  unfold Bgpipe.attach_resolve.
  destruct st as [idx cmd name k [bidir prod cons sin sout] fst lst
                  l r d up down lg cbs hds ins].
  simpl in *.
  split; [|split].
  - intros Hl Hr.
    destruct (idx =? 1), (idx =? StageCount b); simpl; rewrite Hl, Hr; simpl;
      destruct fst, lst, prod; simpl;
      eexists; (split; [reflexivity|]); simpl; repeat split.
  - intros Hl Hr ->.
    destruct (idx =? 1), (idx =? StageCount b); simpl; rewrite Hl, Hr; simpl;
      eexists; reflexivity.
  - intros Hl Hr ->.
    destruct (idx =? 1), (idx =? StageCount b); simpl; rewrite Hl, Hr; simpl;
      eexists; (split; [reflexivity|]); simpl; repeat split.
Qed.

Lemma find_stage_ext (h h' : gmap ptr StageBase) (l : list (option ptr))
    (v : string) :
  (forall p, (fun st => (Name st, Index st)) <$> h !! p
             = (fun st => (Name st, Index st)) <$> h' !! p) ->
  find_stage h l v = find_stage h' l v.
Proof.
  intros Hext. induction l as [|[p|] l IH]; simpl; [done| |done].
  specialize (Hext p).
  destruct (h !! p) as [st|], (h' !! p) as [st'|]; simpl in Hext;
    try done.
  injection Hext as -> ->. by rewrite IH.
Qed.

Lemma find_stage_none (h : gmap ptr StageBase) (l : list (option ptr))
    (v : string) :
  none_named h l v -> find_stage h l v = 0.
Proof.
  induction l as [|[p|] l IH]; intros Hn; simpl; [done| |].
  - assert (none_named h l v) as Hl.
    { intros j q stq Hj. apply (Hn (S j) q stq Hj). }
    destruct (h !! p) as [st|] eqn:Hp; [|by apply IH].
    destruct (String.eqb_spec (Name st) v) as [Heq|_]; [|by apply IH].
    exfalso. by apply (Hn 0%nat p st).
  - apply IH. intros j q stq Hj. apply (Hn (S j) q stq Hj).
Qed.

Lemma find_stage_first (h : gmap ptr StageBase) (l : list (option ptr))
    (v : string) (st2 : StageBase) :
  first_named h l v st2 -> find_stage h l v = Index st2.
Proof.
  intros (i & p & Hi & Hp & Hname & Hbefore).
  revert i Hi Hbefore. induction l as [|x l IH]; intros i Hi Hbefore; [done|].
  destruct i as [|i].
  - simpl in Hi. injection Hi as ->. simpl. rewrite Hp.
    by rewrite (proj2 (String.eqb_eq _ _) Hname).
  - simpl in Hi.
    assert (find_stage h l v = Index st2) as Hl.
    { apply (IH i Hi). intros j q stq Hj. apply (Hbefore (S j)). lia. }
    destruct x as [q|]; simpl; [|done].
    destruct (h !! q) as [stq|] eqn:Hq; [|done].
    destruct (String.eqb_spec (Name stq) v) as [Heq|_]; [|done].
    exfalso. apply (Hbefore 0%nat q stq); [lia|done|done|done].
Qed.

Lemma at_name (v name : string) :
  v = String "@" name -> Strconv.Atoi v = None.
Proof. by intros ->. Qed.

Lemma at_match (v name : string) :
  v = String "@" name ->
  forall x : Z, match v with String "@" _ => x | _ => 0 end = x.
Proof. by intros ->. Qed.

Lemma slice_from_le {A : Type} (n : nat) (l : list A) :
  (n <= length l)%nat -> slice_from n l = Some (drop n l).
Proof.
  intros H. unfold slice_from.
  by rewrite (proj2 (Nat.leb_le _ _) H).
Qed.

Lemma Forall2_fix_input (idx : Z) (frev ffwd : FilterMode) (fid : Z)
    (l : list Input) :
  Forall2 (input_wired idx frev ffwd fid) l
          (map (fix_input idx frev ffwd fid) l).
Proof.
  induction l as [|li l IH]; simpl; constructor; [|done].
  unfold input_wired, fix_input.
  destruct li as [nm id [| | |] rv cf fv]; simpl; repeat split; done.
Qed.

(** Once the stage implementation has attached, [attach] ends as the
    switch on the "in" option says. *)
Lemma attach_reaches_filter (s : ptr) (b b1 : Bgpipe) (st st0 st1 : StageBase) :
  heap b !! s = Some st ->
  attach_resolve b st = Ok st0 ->
  Stage_Attach s (store s st0 b) = Ok b1 ->
  heap b1 !! s = Some st1 ->
  0 < Index st1 ->
  Name st1 <> "" ->
  (IsConsumer (Options st1) = true -> IsFirst st1 || IsLast st1 = true) ->
  (length (Callbacks (P_Options b)) <= length (Callbacks (P_Options b1)))%nat ->
  (length (Handlers (P_Options b)) <= length (Handlers (P_Options b1)))%nat ->
  (length (Inputs (P_Options b)) <= length (Inputs (P_Options b1)))%nat ->
  exists (st' : StageBase) (b' : Bgpipe),
    Name st' = Name st1 /\ Index st' = Index st1 /\ K st' = K st1 /\
    heap b' = <[s := st']> (heap b1) /\ Stages b' = Stages b1 /\
    (forall e, in_filter st' b' = inl e -> exists b2, attach s b = Err e b2) /\
    (forall frev ffwd fid,
       in_filter st' b' = inr (frev, ffwd, fid) ->
       wired_with (attach s b) s
         (take (length (Inputs (P_Options b))) (Inputs (P_Options b1)))
         (drop (length (Inputs (P_Options b))) (Inputs (P_Options b1)))
         (Index st1) frev ffwd fid).
Proof.
  intros Hs Hres Hchild Hs1 Hidx Hname Hcons Hcbs Hhds Hins.
  unfold Bgpipe.attach, Bgpipe.attach_child. rewrite Hs, Hres. simpl.
  rewrite Hchild. unfold attach_wire. rewrite Hs1.
  rewrite (proj2 (Z.ltb_lt _ _) Hidx).
  destruct (Name st1) as [|c nm] eqn:HN; [done|].
  set (name := if negb (Ascii.eqb c "[") then _ else _).
  assert (IsConsumer (Options (set_Logger name st1))
          && negb (IsFirst (set_Logger name st1) || IsLast (set_Logger name st1))
          = false) as ->.
  { simpl. destruct (IsConsumer (Options st1)); [|done].
    by rewrite Hcons. }
  rewrite (slice_from_le _ _ Hcbs). simpl.
  rewrite (slice_from_le _ _ Hhds). simpl.
  rewrite (slice_from_le _ _ Hins).
  eexists _, _. split; [|split; [|split; [|split; [|split; [|split]]]]];
    cycle 5.
  - intros e He. rewrite He. by eexists.
  - intros frev ffwd fid Hf. rewrite Hf. simpl.
    eexists _, _. split; [reflexivity|]. simpl.
    split; [apply lookup_insert_eq|]. simpl.
    split; [apply Forall2_fix_input | done].
  - simpl. by rewrite HN.
  - done.
  - done.
  - done.
  - done.
Qed.

(** C1: when the stage at a positive index has attached its
    implementation, the input position filter follows its "in" option:
    "next" or empty gives GE / LE with the stage's own index, "here" gives
    GT / LT with its own index, "first" gives no filter, "last" gives the
    all filter, an integer gives GE / LE with that integer, "@name" gives
    GE / LE with the index of the first stage of that name; a value that
    yields no positive id makes attach fail with ErrInject.  Every input
    the stage registered gets the stage index and the filter id, an L
    input the reverse mode, an R input the forward mode. *)
Theorem attach_in_filter (s : ptr) (b b1 : Bgpipe) (st st0 st1 : StageBase) :
  heap b !! s = Some st ->
  attach_resolve b st = Ok st0 ->
  Stage_Attach s (store s st0 b) = Ok b1 ->
  heap b1 !! s = Some st1 ->
  0 < Index st1 ->
  Name st1 <> "" ->
  (IsConsumer (Options st1) = true -> IsFirst st1 || IsLast st1 = true) ->
  (length (Callbacks (P_Options b)) <= length (Callbacks (P_Options b1)))%nat ->
  (length (Handlers (P_Options b)) <= length (Handlers (P_Options b1)))%nat ->
  (length (Inputs (P_Options b)) <= length (Inputs (P_Options b1)))%nat ->
  let v := K_String (K st1) "in" in
  let wired := wired_with (attach s b) s
         (take (length (Inputs (P_Options b))) (Inputs (P_Options b1)))
         (drop (length (Inputs (P_Options b))) (Inputs (P_Options b1)))
         (Index st1) in
  (v = "next" \/ v = "" -> wired FILTER_GE FILTER_LE (Index st1)) /\
  (v = "here" -> wired FILTER_GT FILTER_LT (Index st1)) /\
  (v = "first" -> wired FILTER_NONE FILTER_NONE 0) /\
  (v = "last" -> wired FILTER_ALL FILTER_ALL 0) /\
  (v <> "next" -> v <> "" -> v <> "here" -> v <> "first" -> v <> "last" ->
   (forall id, Strconv.Atoi v = Some id -> 0 < id ->
      wired FILTER_GE FILTER_LE id) /\
   (forall id, Strconv.Atoi v = Some id -> id <= 0 ->
      fails_inject (attach s b) v) /\
   (forall name st2, v = String "@" name ->
      first_named (heap b1) (Stages b1) v st2 -> 0 < Index st2 ->
      wired FILTER_GE FILTER_LE (Index st2)) /\
   (forall name st2, v = String "@" name ->
      first_named (heap b1) (Stages b1) v st2 -> Index st2 <= 0 ->
      fails_inject (attach s b) v) /\
   (forall name, v = String "@" name ->
      none_named (heap b1) (Stages b1) v -> fails_inject (attach s b) v) /\
   (Strconv.Atoi v = None -> (forall name, v <> String "@" name) ->
      fails_inject (attach s b) v)).
Proof.
  intros Hs Hres Hchild Hs1 Hidx Hname Hcons Hcbs Hhds Hins v wired.
  destruct (attach_reaches_filter s b b1 st st0 st1)
    as (st' & b' & HN & HI & HK & Hheap & Hstages & Herr & Hok); try done.
  assert (Hfind : find_stage (heap b') (Stages b') v
                  = find_stage (heap b1) (Stages b1) v).
  { rewrite Hstages, Hheap. apply find_stage_ext. intros p.
    destruct (decide (s = p)) as [<-|Hne].
    - rewrite lookup_insert_eq, Hs1. simpl. by rewrite HN, HI.
    - by rewrite lookup_insert_ne. }
  assert (Hv : K_String (K st') "in" = v) by (by rewrite HK).
  unfold fails_inject. subst wired.
  split; [|split; [|split; [|split]]].
  - intros Hcase. apply Hok. unfold in_filter. rewrite Hv, HI.
    by destruct Hcase as [-> | ->].
  - intros Hcase. apply Hok. unfold in_filter. rewrite Hv, HI.
    by rewrite Hcase.
  - intros Hcase. apply Hok. unfold in_filter. rewrite Hv.
    by rewrite Hcase.
  - intros Hcase. apply Hok. unfold in_filter. rewrite Hv.
    by rewrite Hcase.
  - intros N1 N2 N3 N4 N5.
    assert (Hdefault : in_filter st' b' =
              let fid := match Strconv.Atoi v with
                         | Some id => id
                         | None => match v with
                                   | String "@" _ =>
                                       find_stage (heap b1) (Stages b1) v
                                   | _ => 0
                                   end
                         end in
              if fid <=? 0 then inl (ErrInject v)
              else inr (FILTER_GE, FILTER_LE, fid)).
    { unfold in_filter. rewrite Hv, Hfind.
      apply String.eqb_neq in N1, N2, N3, N4, N5.
      by rewrite N1, N2, N3, N4, N5. }
    repeat split.
    + intros id Hid Hpos. apply Hok. rewrite Hdefault, Hid. simpl.
      by rewrite (proj2 (Z.leb_gt _ _) Hpos).
    + intros id Hid Hneg. apply Herr. rewrite Hdefault, Hid. simpl.
      by rewrite (proj2 (Z.leb_le _ _) Hneg).
    + intros name st2 Hat Hfirst Hpos. apply Hok. rewrite Hdefault.
      rewrite (find_stage_first _ _ _ _ Hfirst), (at_name _ _ Hat).
      rewrite (at_match _ _ Hat). simpl.
      by rewrite (proj2 (Z.leb_gt _ _) Hpos).
    + intros name st2 Hat Hfirst Hneg. apply Herr. rewrite Hdefault.
      rewrite (find_stage_first _ _ _ _ Hfirst), (at_name _ _ Hat).
      rewrite (at_match _ _ Hat). simpl.
      by rewrite (proj2 (Z.leb_le _ _) Hneg).
    + intros name Hat Hnone. apply Herr. rewrite Hdefault.
      rewrite (find_stage_none _ _ _ Hnone), (at_name _ _ Hat).
      by rewrite (at_match _ _ Hat).
    + intros Hno Hnat. apply Herr. rewrite Hdefault, Hno.
      destruct v as [|c v']; [done|].
      destruct (Ascii.eqb_spec c "@") as [->|Hc]; [by destruct (Hnat v')|].
      assert (match String c v' with
              | String "@" _ => find_stage (heap b1) (Stages b1) (String c v')
              | _ => 0 end = 0) as ->; [|done].
      destruct c as [[] [] [] [] [] [] [] []]; try done.
Qed.

End AttachProperties.

Lemma attach_direction_witness :
  exists st',
    Bgpipe.attach_resolve Demo.count Demo.pipeline Demo.stage_a = Ok st' /\
    Bgpipe.IsLeft st' = true /\ Bgpipe.IsRight st' = false.
Proof.
  destruct (attach_direction Demo.count Demo.child 0%nat Demo.pipeline
              Demo.stage_a) as [Hdefault _].
  - reflexivity.
  - destruct Hdefault as (st' & Hres & _ & HO & HF & HL & HR & HLeft & _).
    + reflexivity.
    + reflexivity.
    + exists st'. split; [done|].
      assert (Bgpipe.IsRight st' = false) as Hright.
      { rewrite HR, HF, HL, HO. reflexivity. }
      split; [|done]. by rewrite HLeft, Hright.
Defined.

Lemma attach_in_filter_witness :
  wired_with (Bgpipe.attach Demo.count Demo.child 0%nat Demo.pipeline) 0%nat
    [] [Demo.in_L; Demo.in_R] 1 Pipe.FILTER_GE Pipe.FILTER_LE 2.
Proof.
  destruct (attach_in_filter Demo.count Demo.child 0%nat Demo.pipeline
              Demo.attached Demo.stage_a Demo.stage_a_resolved
              Demo.stage_a_resolved) as (_ & _ & _ & _ & Hdefault).
  - reflexivity.
  - reflexivity.
  - reflexivity.
  - reflexivity.
  - reflexivity.
  - discriminate.
  - discriminate.
  - simpl. lia.
  - simpl. lia.
  - simpl. lia.
  - destruct Hdefault as (_ & _ & Hat & _); try discriminate.
    apply (Hat "b" Demo.stage_b).
    + reflexivity.
    + exists 2%nat, 1%nat. repeat split.
      intros [|[|j]] q stq Hj Hq Hstq; [discriminate| |simpl in Hj; lia].
      injection Hq as <-. injection Hstq as <-. discriminate.
    + reflexivity.
Defined.

(** The model at work: integers as strconv reads them, and the outcome
    of attaching the first stage of the small pipeline for some values of
    its "in" option. *)
Example Atoi_values :
  Strconv.Atoi "12" = Some 12 /\ Strconv.Atoi "+7" = Some 7 /\
  Strconv.Atoi "-3" = Some (-3) /\ Strconv.Atoi "007" = Some 7 /\
  Strconv.Atoi "" = None /\ Strconv.Atoi "-" = None /\
  Strconv.Atoi "1_0" = None /\ Strconv.Atoi "@b" = None /\
  Strconv.Atoi "9223372036854775807" = Some 9223372036854775807 /\
  Strconv.Atoi "9223372036854775808" = None.
Proof. repeat split; reflexivity. Qed.

Example attach_here :
  match Bgpipe.attach Demo.count Demo.child 0%nat (Demo.pipeline_in "here") with
  | Ok b2 => Pipe.Inputs (Bgpipe.P_Options b2)
  | _ => []
  end
  = [Pipe.mkInput "L" 1 Msg.DIR_L true Pipe.FILTER_GT 1;
     Pipe.mkInput "R" 1 Msg.DIR_R false Pipe.FILTER_LT 1].
Proof. vm_compute. reflexivity. Qed.

Example attach_index :
  match Bgpipe.attach Demo.count Demo.child 0%nat (Demo.pipeline_in "2") with
  | Ok b2 => Pipe.Inputs (Bgpipe.P_Options b2)
  | _ => []
  end
  = [Pipe.mkInput "L" 1 Msg.DIR_L true Pipe.FILTER_GE 2;
     Pipe.mkInput "R" 1 Msg.DIR_R false Pipe.FILTER_LE 2].
Proof. vm_compute. reflexivity. Qed.

Example attach_unknown_target :
  match Bgpipe.attach Demo.count Demo.child 0%nat (Demo.pipeline_in "@c") with
  | Err e _ => Some e
  | _ => None
  end = Some (Bgpipe.ErrInject "@c") /\
  match Bgpipe.attach Demo.count Demo.child 0%nat (Demo.pipeline_in "0") with
  | Err e _ => Some e
  | _ => None
  end = Some (Bgpipe.ErrInject "0").
Proof. split; vm_compute; reflexivity. Qed.

(** ** The external I/O adapter: ingress *)

Section Ingress.

Import Koanf Msg Extio.

Context {lib : Lib}.

Lemma InputClose_write_only (e0 e : Extio) :
  InputClose e0 = Ok e -> opt_write e = true.
Proof.
  unfold InputClose, close_input. simpl.
  destruct (InputL e0) as [i|]; [|done].
  destruct (P_Inputs e0 !! i) as [inp|]; [|done]. simpl.
  destruct (InputR e0) as [j|]; [|done].
  destruct (_ !! j) as [inp'|]; [|done].
  by intros [= <-].
Qed.

(** C9: in write-only mode, whether the option was given or InputClose
    set it, ReadSingle and ReadBuf return nil for every buffer and
    callback and leave the adapter, the inputs of the pipe and the log as
    they were. *)
Theorem write_only_discards (e : Extio) (data : bytes)
    (cb : option CallbackFunc) :
  opt_write e = true \/ (exists e0, InputClose e0 = Ok e) ->
  ReadSingle e data cb = Ok e /\ ReadBuf e data cb = Ok e.
Proof.
  intros H.
  assert (opt_write e = true) as Hw.
  { destruct H as [H|[e0 H]]; [done | by apply (InputClose_write_only e0)]. }
  unfold ReadSingle, ReadBuf. by rewrite Hw.
Qed.

(** What ReadSingle does with a parse error [err] on the buffer [b]. *)
Lemma ReadSingle_text (e : Extio) (data : bytes) (cb : option CallbackFunc) :
  opt_write e = false -> opt_raw e = false -> opt_mrt e = false ->
  ReadSingle e data cb =
    match ReadSingle_parse e data with
    | ParsePanic why => Panic why
    | Skipped => Ok e
    | Parsed b m (Some err) =>
        if opt_pardon e then Ok e
        else Err err (set_log (log e ++ [LogErrBytes err b
                                           "input read single error"]) e)
    | Parsed b m None => ReadSingle_sail e m cb
    end.
Proof.
  intros Hw Hr Hm. unfold ReadSingle. rewrite Hw.
  destruct (ReadSingle_parse e data) as [|b m [err|]|]; try done.
  by rewrite Hr.
Qed.

(** C4, for an adapter that is not write-only: in text mode ReadSingle
    trims the buffer; an empty or '#' buffer is skipped with nil and no
    change; a '[' buffer is parsed as a message, which becomes a
    KEEPALIVE if its type is INVALID after the parse; a '{' buffer is
    parsed as an UPDATE; any other first byte is a format error.  A parse
    error is answered with nil and no change under --pardon, and is
    logged and returned otherwise; without a parse error the message goes
    on to the type filter, the callback and the input of its
    direction. *)
Theorem ReadSingle_text_mode (e : Extio) (data : bytes)
    (cb : option CallbackFunc) :
  opt_write e = false -> opt_raw e = false -> opt_mrt e = false ->
  let b := TrimSpace data in
  let on_error (err : error) :=
    if opt_pardon e then ReadSingle e data cb = Ok e
    else ReadSingle e data cb =
           Err err (set_log (log e ++ [LogErrBytes err b
                                         "input read single error"]) e) in
  (b = [] -> ReadSingle e data cb = Ok e) /\
  (forall rest, b = "#"%byte :: rest -> ReadSingle e data cb = Ok e) /\
  (forall rest, b = "["%byte :: rest ->
     let m := (FromJSON b GetMsg).1 in
     let m' := if m_Type m =? INVALID then Use KEEPALIVE m else m in
     match (FromJSON b GetMsg).2 with
     | Some err => on_error err
     | None => ReadSingle e data cb = ReadSingle_sail e m' cb
     end) /\
  (forall rest, b = "{"%byte :: rest ->
     let m := (Update_FromJSON b (Use UPDATE GetMsg)).1 in
     match (Update_FromJSON b (Use UPDATE GetMsg)).2 with
     | Some err => on_error err
     | None => ReadSingle e data cb = ReadSingle_sail e m cb
     end) /\
  (forall c rest, b = c :: rest ->
     c <> "#"%byte -> c <> "["%byte -> c <> "{"%byte ->
     on_error ErrFormat).
Proof.
  intros Hw Hr Hm b on_error. subst on_error.
  rewrite (ReadSingle_text e data cb Hw Hr Hm).
  unfold ReadSingle_parse. rewrite Hr, Hm.
  subst b. generalize (TrimSpace data). intros b.
  split; [|split; [|split; [|split]]].
  - by intros ->.
  - by intros rest ->.
  - intros rest ->. simpl.
    destruct (FromJSON _ GetMsg) as [m [err|]]; simpl; [|done].
    by destruct (opt_pardon e).
  - intros rest ->. simpl.
    destruct (Update_FromJSON _ (Use UPDATE GetMsg)) as [m [err|]]; simpl;
      [|done].
    by destruct (opt_pardon e).
  - intros c rest -> N1 N2 N3.
    assert (Byte.eqb c "#" = false) as ->.
    { apply not_true_iff_false. intros Heq. by apply Byte.byte_dec_bl in Heq. }
    assert (Byte.eqb c "[" = false) as ->.
    { apply not_true_iff_false. intros Heq. by apply Byte.byte_dec_bl in Heq. }
    assert (Byte.eqb c "{" = false) as ->.
    { apply not_true_iff_false. intros Heq. by apply Byte.byte_dec_bl in Heq. }
    by destruct (opt_pardon e).
Qed.

End Ingress.

Lemma write_only_discards_witness :
  let data := list_byte_of_string "[1,2]" in
  @Extio.ReadSingle ExtioDemo.lib ExtioDemo.text_write_only data None
    = Ok ExtioDemo.text_write_only /\
  @Extio.ReadBuf ExtioDemo.lib ExtioDemo.text_write_only data None
    = Ok ExtioDemo.text_write_only.
Proof.
  apply (@write_only_discards ExtioDemo.lib). left. vm_compute. reflexivity.
Defined.

(** The adapters of the small library are what Attach returns. *)
Example Attach_demo :
  @Extio.Attach ExtioDemo.lib (ExtioDemo.fresh ∅) = Ok ExtioDemo.text /\
  @Extio.Attach ExtioDemo.lib
    (ExtioDemo.fresh {[ "write" := Koanf.KBool true ]})
  = Ok ExtioDemo.text_write_only /\
  @Extio.Attach ExtioDemo.lib (ExtioDemo.fresh {[ "mrt" := Koanf.KBool true ]})
  = Ok ExtioDemo.mrt_out /\
  @Extio.Attach ExtioDemo.lib (ExtioDemo.fresh {[ "raw" := Koanf.KBool true ]})
  = Ok ExtioDemo.raw_out /\
  @Extio.OutputClose ExtioDemo.lib ExtioDemo.mrt_out = Ok ExtioDemo.mrt_closed.
Proof. repeat apply conj; vm_compute; reflexivity. Qed.

(** In text mode a '[' line whose parse leaves the type INVALID is
    delivered as a KEEPALIVE on the input of the adapter. *)
Example ReadSingle_keepalive :
  @Extio.ReadSingle ExtioDemo.lib ExtioDemo.text
    (list_byte_of_string " [] ") None
  = Ok (@Extio.set_P_Inputs ExtioDemo.lib
          [[Extio.Use Extio.KEEPALIVE Extio.GetMsg]] ExtioDemo.text).
Proof. vm_compute. reflexivity. Qed.

Lemma ReadSingle_text_mode_witness :
  let data := list_byte_of_string " oops " in
  Extio.opt_pardon ExtioDemo.text = false /\
  @Extio.ReadSingle ExtioDemo.lib ExtioDemo.text data None
  = Err Extio.ErrFormat
      (@Extio.set_log ExtioDemo.lib
         (Extio.log ExtioDemo.text
          ++ [Extio.LogErrBytes Extio.ErrFormat
                (@Extio.TrimSpace ExtioDemo.lib data)
                "input read single error"]) ExtioDemo.text).
Proof.
  intros data.
  assert (Extio.opt_pardon ExtioDemo.text = false) as Hpardon
    by (vm_compute; reflexivity).
  split; [exact Hpardon|].
  destruct (@ReadSingle_text_mode ExtioDemo.lib ExtioDemo.text data None)
    as (_ & _ & _ & _ & Hother); [vm_compute; reflexivity..|].
  specialize (Hother "o"%byte (list_byte_of_string "ops")).
  rewrite Hpardon in Hother.
  apply Hother; [vm_compute; reflexivity | discriminate..].
Defined.

(** C4 as stated fails: a write-only adapter in text mode, without
    --pardon, answers nil to a line that begins with neither '#', '[' nor
    '{'; there is no format error. *)
Lemma ReadSingle_write_only_no_format_error :
  let e := ExtioDemo.text_write_only in
  let data := list_byte_of_string "oops" in
  Extio.opt_raw e = false /\ Extio.opt_mrt e = false /\
  Extio.opt_pardon e = false /\
  @Extio.TrimSpace ExtioDemo.lib data = data /\
  @Extio.ReadSingle ExtioDemo.lib e data None = Ok e /\
  (forall e', @Extio.ReadSingle ExtioDemo.lib e data None
              <> Err Extio.ErrFormat e').
Proof.
  assert (@Extio.ReadSingle ExtioDemo.lib ExtioDemo.text_write_only
            (list_byte_of_string "oops") None
          = Ok ExtioDemo.text_write_only) as Hnil
    by (vm_compute; reflexivity).
  cbv zeta. rewrite Hnil.
  repeat apply conj; try (vm_compute; reflexivity). discriminate.
Qed.

(** ** The external I/O adapter: Attach *)

Section AttachOptions.

Import Koanf Msg Extio.

Context {lib : Lib}.

Lemma Attach_types_modes (vs : list string) :
  forall e : Extio,
    match Attach_types vs e with
    | Ok e' => same_modes e e'
    | Err err e' => same_modes e e' /\ exists v, err = ErrType v
    | Panic _ => False
    end.
Proof.
  induction vs as [|v vs IH]; intros e; simpl; [done|].
  destruct (String.length v =? 0)%nat; [apply IH|].
  destruct (TypeString v) as [typ|].
  - specialize (IH (set_opt_type (opt_type e ++ [typ]) e)).
    by destruct (Attach_types vs _).
  - destruct (Strconv.Atoi v) as [tnum|]; [|by split; [|exists v]].
    destruct ((0 <=? tnum) && (tnum <=? 255)); [|by split; [|exists v]].
    specialize (IH (set_opt_type (opt_type e ++ [tnum]) e)).
    by destruct (Attach_types vs _).
Qed.

Lemma Attach_inputs_copy (e : Extio) :
  match Attach_inputs e with
  | Ok e' => opt_copy e' = opt_copy e /\ (opt_raw e && opt_mrt e = false)
  | Err err e' => err = ErrRawMrt /\ e' = e /\ opt_raw e && opt_mrt e = true
  | Panic _ => False
  end.
Proof.
  unfold Attach_inputs. destruct e; simpl.
  destruct (_ && _); [done|]. split; [|done].
  repeat match goal with
         | |- context [if ?c then _ else _] => destruct c; simpl
         end; done.
Qed.

(** C5: Attach returns an error when "raw" and "mrt" are both set, and
    when "read" and "write" are both set; when exactly one of "read" and
    "write" is set, the adapter Attach leaves has opt_copy set, also when
    Attach ends at the check of --raw against --mrt. *)
Theorem Attach_option_checks (e : Extio) :
  (K_Bool (K e) "raw" = true -> K_Bool (K e) "mrt" = true ->
     exists err e', Attach e = Err err e') /\
  (K_Bool (K e) "read" = true -> K_Bool (K e) "write" = true ->
     exists err e', Attach e = Err err e') /\
  (xorb (K_Bool (K e) "read") (K_Bool (K e) "write") = true ->
     forall e', Attach e = Ok e' \/ Attach e = Err ErrRawMrt e' ->
                opt_copy e' = true).
Proof.
  unfold Attach.
  match goal with |- context [Attach_types ?vs ?e0] =>
    pose proof (Attach_types_modes vs e0) as Hmodes;
    destruct (Attach_types vs e0) as [e1|err e1|why] end; [| |done].
  - destruct Hmodes as (Hraw & Hmrt & Hread & Hwrite & Hcopy).
    simpl in Hraw, Hmrt, Hread, Hwrite, Hcopy.
    rewrite Hread, Hwrite.
    split; [|split].
    + intros Hr Hm.
      destruct (K_Bool (K e) "read"), (K_Bool (K e) "write"); simpl;
        try (by eexists _, _);
        match goal with |- context [Attach_inputs ?x] =>
          pose proof (Attach_inputs_copy x) as Hin;
          destruct (Attach_inputs x) as [e2|err2 e2|] end;
        try done; try (by eexists _, _);
        destruct Hin as [_ Hin]; simpl in Hin;
        by rewrite Hraw, Hmrt, Hr, Hm in Hin.
    + intros -> ->. simpl. by eexists _, _.
    + intros Hx e'.
      destruct (K_Bool (K e) "read"), (K_Bool (K e) "write"); simpl in *;
        try done;
        match goal with |- context [Attach_inputs ?x] =>
          pose proof (Attach_inputs_copy x) as Hin;
          destruct (Attach_inputs x) as [e2|err2 e2|] end; try done.
      * destruct Hin as [Hin _]. simpl in Hin. by intros [[= <-]|?].
      * destruct Hin as (_ & -> & _). by intros [?|[= _ <-]].
      * destruct Hin as [Hin _]. simpl in Hin. by intros [[= <-]|?].
      * destruct Hin as (_ & -> & _). by intros [?|[= _ <-]].
  - destruct Hmodes as [_ [v ->]]. split; [|split].
    + intros _ _. by eexists _, _.
    + intros _ _. by eexists _, _.
    + by intros _ e' [?|?].
Qed.

End AttachOptions.


Lemma Attach_option_checks_witness :
  exists e',
    @Extio.Attach ExtioDemo.lib
      (ExtioDemo.fresh {[ "read" := Koanf.KBool true ]}) = Ok e' /\
    Extio.opt_copy e' = true.
Proof.
  eexists. split; [vm_compute; reflexivity|].
  destruct (@Attach_option_checks ExtioDemo.lib
              (ExtioDemo.fresh {[ "read" := Koanf.KBool true ]}))
    as (_ & _ & Hcopy).
  apply Hcopy; [vm_compute; reflexivity | left; vm_compute; reflexivity].
Defined.

(** ** The external I/O adapter: ReadStream *)

Section Stream.

Import Koanf Msg Extio.

Context {lib : Lib}.

Lemma ReadStream_turn_next (rd rd' : reader) (e e' : Extio)
    (cb : option CallbackFunc) (l n l' : Z) :
  ReadStream_turn rd e cb l = (n, Continue rd' e' l') ->
  l' = if (Z.quot l 2 <? n) && (l <=? 4 * 1024 * 1024) then l * 2 else l.
Proof.
  unfold ReadStream_turn.
  destruct (Read rd l) as [[rd0 data] err].
  destruct (l <? Z.of_nat (length data)); [done|].
  destruct (if 0 <? Z.of_nat (length data) then ReadBuf e data cb else Ok e)
    as [e0|perr e0|why]; [|done..].
  destruct err as [err|].
  - by destruct (error_eqb err EOF).
  - intros H. injection H as <- Ht.
    destruct ((_ <? _) && (_ <=? _)); by injection Ht as _ _ <-.
Qed.

Lemma size_ok_next (l n : Z) :
  size_ok l ->
  size_ok (if (Z.quot l 2 <? n) && (l <=? 4 * 1024 * 1024) then l * 2 else l).
Proof.
  intros (k & Hk & ->).
  destruct ((_ <? _) && (_ <=? _)) eqn:E; [|by exists k].
  apply andb_true_iff in E as [_ E]. apply Z.leb_le in E.
  assert (k = 0 \/ k = 1 \/ k = 2 \/ k = 3 \/ k = 4 \/ k = 5 \/ k = 6 \/ k = 7)
    as Hcases by lia.
  exists (k + 1). split.
  - destruct Hcases as [->|[->|[->|[->|[->|[->|[->| ->]]]]]]];
      simpl in E; lia.
  - rewrite Z.pow_add_r by lia. lia.
Qed.

Lemma size_ok_bounds (l : Z) : size_ok l -> 64 * 1024 <= l <= 8 * 1024 * 1024.
Proof.
  intros (k & Hk & ->).
  assert (k = 0 \/ k = 1 \/ k = 2 \/ k = 3 \/ k = 4 \/ k = 5 \/ k = 6 \/ k = 7)
    as Hcases by lia.
  destruct Hcases as [->|[->|[->|[->|[->|[->|[->| ->]]]]]]]; simpl; lia.
Qed.

Lemma ReadStream_loop_sizes (cb : option CallbackFunc) (fuel : nat) :
  forall (rd : reader) (e : Extio) (l : Z),
    size_ok l ->
    let tr := (ReadStream_loop fuel rd e cb l).1 in
    (fuel <> O -> exists n rest, tr = (l, n) :: rest) /\
    grows tr /\
    Forall (fun p => size_ok p.1) tr.
Proof.
  induction fuel as [|fuel IH]; intros rd e l Hl; simpl; [done|].
  destruct (ReadStream_turn rd e cb l) as [n t] eqn:Hturn.
  destruct t as [r|rd' e' l'].
  - simpl. split; [by eexists _, _|]. split; [done|].
    by repeat constructor.
  - pose proof (ReadStream_turn_next _ _ _ _ _ _ _ _ Hturn) as Hl'.
    assert (size_ok l') as Hok by (rewrite Hl'; by apply size_ok_next).
    destruct (IH rd' e' l' Hok) as (Hhd & Hgrows & Hall).
    destruct (ReadStream_loop fuel rd' e' cb l') as [tr r] eqn:Hloop.
    simpl in *. split; [by eexists _, _|]. split.
    + split; [|done]. destruct fuel as [|fuel].
      * simpl in Hloop. by injection Hloop as <- _.
      * destruct Hhd as (n' & rest & ->); [done|]. done.
    + by constructor.
Qed.

(** C6, as the code has it: the read buffer of ReadStream starts at
    64 KiB; from one read to the next it is doubled if the read filled
    more than half of it and it is at most 4 MiB long, and keeps its
    length otherwise; its length is 64 KiB doubled at most seven times,
    so never more than 8 MiB. *)
Theorem ReadStream_buffer (fuel : nat) (rd : reader) (e : Extio)
    (cb : option CallbackFunc) :
  let tr := (ReadStream fuel rd e cb).1 in
  (fuel <> O -> exists n rest, tr = (64 * 1024, n) :: rest) /\
  grows tr /\
  Forall (fun p => size_ok p.1 /\ 64 * 1024 <= p.1 <= 8 * 1024 * 1024) tr.
Proof.
  unfold ReadStream.
  destruct (ReadStream_loop_sizes cb fuel rd e (64 * 1024))
    as (Hhd & Hgrows & Hall).
  { exists 0. split; [lia | reflexivity]. }
  split; [done|]. split; [done|].
  eapply Forall_impl; [exact Hall|].
  intros p Hp. split; [done | by apply size_ok_bounds].
Qed.

End Stream.

Lemma ReadStream_buffer_witness :
  Forall (fun p => size_ok p.1 /\ 64 * 1024 <= p.1 <= 8 * 1024 * 1024)
    (@Extio.ReadStream ExtioDemo.lib 3 ExtioDemo.full_reader
       ExtioDemo.raw_out None).1.
Proof.
  apply (@ReadStream_buffer ExtioDemo.lib 3 ExtioDemo.full_reader
           ExtioDemo.raw_out None).
Defined.

(** In raw mode the small library takes any bytes and leaves the adapter
    as it is. *)
Lemma raw_out_ReadBuf (data : Extio.bytes) :
  @Extio.ReadBuf ExtioDemo.lib ExtioDemo.raw_out data None
  = Ok ExtioDemo.raw_out.
Proof.
  unfold Extio.ReadBuf.
  assert (Extio.opt_write ExtioDemo.raw_out = false) as ->
    by (vm_compute; reflexivity).
  assert (Extio.opt_raw ExtioDemo.raw_out = true) as ->
    by (vm_compute; reflexivity).
  assert (Extio.InputD ExtioDemo.raw_out = Some 0%nat) as ->
    by (vm_compute; reflexivity).
  assert (Extio.P_Inputs ExtioDemo.raw_out = [[]]) as ->
    by (vm_compute; reflexivity).
  cbn [lookup list_lookup Extio.WriteFunc ExtioDemo.lib].
  vm_compute. reflexivity.
Qed.

(** A reader that fills every buffer, feeding an adapter in raw mode. *)
Lemma full_reader_trace (fuel : nat) :
  forall l : Z,
    0 < l ->
    (@Extio.ReadStream_loop ExtioDemo.lib fuel ExtioDemo.full_reader
       ExtioDemo.raw_out None l).1 = full_trace fuel l.
Proof.
  induction fuel as [|fuel IH]; intros l Hl; [reflexivity|].
  cbn [Extio.ReadStream_loop full_trace].
  assert (@Extio.ReadStream_turn ExtioDemo.lib ExtioDemo.full_reader
            ExtioDemo.raw_out None l
          = (l, Extio.Continue ExtioDemo.full_reader ExtioDemo.raw_out
                  (if l <=? 4 * 1024 * 1024 then l * 2 else l))) as ->.
  { unfold Extio.ReadStream_turn. cbn [Extio.Read ExtioDemo.lib].
    rewrite length_replicate, Z2Nat.id by lia.
    rewrite Z.ltb_irrefl, (proj2 (Z.ltb_lt 0 l) Hl), raw_out_ReadBuf.
    assert ((Z.quot l 2 <? l) = true) as ->.
    { apply Z.ltb_lt. apply Z.quot_lt; lia. }
    by destruct (l <=? 4 * 1024 * 1024). }
  specialize (IH (if l <=? 4 * 1024 * 1024 then l * 2 else l)).
  destruct (Extio.ReadStream_loop fuel _ _ None _) as [tr r].
  simpl in *. f_equal. apply IH. destruct (l <=? _); lia.
Qed.

(** C6 as stated fails: when every read fills the buffer, the eighth read
    is made with a buffer of 8 MiB. *)
Lemma ReadStream_buffer_above_4MiB :
  (@Extio.ReadStream ExtioDemo.lib 8 ExtioDemo.full_reader ExtioDemo.raw_out
     None).1 !! 7%nat = Some (8388608, 8388608) /\
  4 * 1024 * 1024 < 8388608.
Proof.
  unfold Extio.ReadStream. rewrite full_reader_trace by lia.
  split; [vm_compute; reflexivity | lia].
Qed.

(** ** The external I/O adapter: egress *)

Section Egress.

Import Koanf Msg Extio.

Context {lib : Lib}.

(** C7, as the code has it: with --mrt set, and neither --read nor --raw,
    SendMsg panics ("TODO") on every message: it serializes nothing,
    queues nothing, and returns no value. *)
Theorem SendMsg_mrt_panics (e : Extio) (m : Msg) :
  opt_mrt e = true -> opt_read e = false -> opt_raw e = false ->
  SendMsg e m = SendPanic "TODO".
Proof.
  intros Hm Hr Hraw. unfold SendMsg. by rewrite Hr, Hraw, Hm.
Qed.

(** C10, as the code has it: SendMsg never returns false; it returns
    true in every mode but the MRT one, where it panics.  When
    serialization fails it logs a warning and returns true, the output
    channel is as before, and the message that went to serialization had
    its action marked drop unless --copy is set. *)
Theorem SendMsg_returns_true (e : Extio) (m : Msg) :
  let m0 := if negb (opt_copy e) then Action_Drop m else m in
  let warned (err : error) :=
    set_log (log e ++ [LogWarn err "extio write error"]) e in
  ((exists e' m', SendMsg e m = Sent true e' m') \/
   (SendMsg e m = SendPanic "TODO" /\
    opt_read e = false /\ opt_raw e = false /\ opt_mrt e = true)) /\
  (opt_copy e = false -> mx_Action_Drop m0 = true) /\
  (forall err, Output (warned err) = Output e) /\
  (opt_read e = false -> opt_raw e = true ->
     forall m1 err, Marshal m0 = (m1, Some err) ->
       SendMsg e m = Sent true (warned err) m1) /\
  (opt_read e = false -> opt_raw e = true ->
     forall m1 bb err, Marshal m0 = (m1, None) ->
       WriteTo m1 [] = (bb, Some err) ->
       SendMsg e m = Sent true (warned err) m1) /\
  (opt_read e = false -> opt_raw e = false -> opt_mrt e = false ->
     forall bb err, bb_Write (GetJSON m0) [] = (bb, Some err) ->
       SendMsg e m = Sent true (warned err) m0).
Proof.
  intros m0 warned. subst warned. unfold SendMsg. fold m0.
  split; [|split; [|split; [|split; [|split]]]].
  - destruct (opt_read e); [left; by eexists _, _|].
    destruct (opt_raw e).
    + left. destruct (Marshal m0) as [m1 [err|]]; [by eexists _, _|].
      destruct (WriteTo m1 []) as [bb [err|]]; [by eexists _, _|].
      destruct (send_safe (Output e) bb) as [ch []]; by eexists _, _.
    + destruct (opt_mrt e); [by right|].
      left. destruct (bb_Write (GetJSON m0) []) as [bb [err|]];
        [by eexists _, _|].
      destruct (send_safe (Output e) bb) as [ch []]; by eexists _, _.
  - intros Hc. subst m0. by rewrite Hc.
  - done.
  - intros -> -> m1 err ->. done.
  - intros -> -> m1 bb err -> ->. done.
  - intros -> -> -> bb err ->. done.
Qed.

End Egress.

Lemma SendMsg_mrt_panics_witness :
  @Extio.SendMsg ExtioDemo.lib ExtioDemo.mrt_out ExtioDemo.blank
  = Extio.SendPanic "TODO".
Proof.
  apply (@SendMsg_mrt_panics ExtioDemo.lib); vm_compute; reflexivity.
Defined.

(** C7 as stated fails: with --mrt set, once OutputClose has made the
    adapter read-only, SendMsg returns true and leaves the adapter and the
    message as they are. *)
Lemma SendMsg_mrt_read_only_returns :
  @Extio.OutputClose ExtioDemo.lib ExtioDemo.mrt_out = Ok ExtioDemo.mrt_closed /\
  Extio.opt_mrt ExtioDemo.mrt_closed = true /\
  @Extio.SendMsg ExtioDemo.lib ExtioDemo.mrt_closed ExtioDemo.blank
  = Extio.Sent true ExtioDemo.mrt_closed ExtioDemo.blank /\
  @Extio.SendMsg ExtioDemo.lib ExtioDemo.mrt_closed ExtioDemo.blank
  <> Extio.SendPanic "TODO".
Proof.
  assert (@Extio.SendMsg ExtioDemo.lib ExtioDemo.mrt_closed ExtioDemo.blank
          = Extio.Sent true ExtioDemo.mrt_closed ExtioDemo.blank) as Hsent
    by (vm_compute; reflexivity).
  rewrite Hsent.
  repeat apply conj; try (vm_compute; reflexivity). discriminate.
Qed.

Lemma SendMsg_returns_true_witness :
  @Extio.SendMsg ExtioDemo.lib ExtioDemo.raw_out ExtioDemo.blank
  = Extio.Sent true
      (@Extio.set_log ExtioDemo.lib
         (Extio.log ExtioDemo.raw_out
          ++ [Extio.LogWarn (Extio.ErrLib "invalid type") "extio write error"])
         ExtioDemo.raw_out)
      (Extio.Action_Drop ExtioDemo.blank).
Proof.
  destruct (@SendMsg_returns_true ExtioDemo.lib ExtioDemo.raw_out
              ExtioDemo.blank) as (_ & _ & _ & Hmarshal & _).
  assert (Extio.opt_copy ExtioDemo.raw_out = false) as Hcopy
    by (vm_compute; reflexivity).
  rewrite Hcopy in Hmarshal.
  apply Hmarshal; vm_compute; reflexivity.
Defined.

(** C10 as stated fails: in MRT mode SendMsg does not return true, it
    panics. *)
Lemma SendMsg_mrt_no_return :
  @Extio.SendMsg ExtioDemo.lib ExtioDemo.mrt_out ExtioDemo.blank
  = Extio.SendPanic "TODO" /\
  (forall e' m', @Extio.SendMsg ExtioDemo.lib ExtioDemo.mrt_out ExtioDemo.blank
                 <> Extio.Sent true e' m').
Proof.
  assert (@Extio.SendMsg ExtioDemo.lib ExtioDemo.mrt_out ExtioDemo.blank
          = Extio.SendPanic "TODO") as Hpanic by (vm_compute; reflexivity).
  rewrite Hpanic. split; [reflexivity | discriminate].
Qed.

(** * Further properties *)

(** ** The external I/O adapter: what reading changes *)

Section IngressFrame.

Import Koanf Msg Extio.

Context {lib : Lib}.

Lemma inputs_log_only_refl (e : Extio) : inputs_log_only e e.
Proof. unfold inputs_log_only. by destruct e. Qed.

Lemma inputs_log_only_fields (e e' : Extio) :
  inputs_log_only e e' ->
  opt_write e' = opt_write e /\ opt_raw e' = opt_raw e /\
  opt_mrt e' = opt_mrt e /\ opt_pardon e' = opt_pardon e /\
  InputL e' = InputL e /\ InputR e' = InputR e /\ InputD e' = InputD e /\
  mrt e' = mrt e /\ buf e' = buf e /\ Output e' = Output e.
Proof. unfold inputs_log_only. intros ->. by destruct e. Qed.

(** What a write through the pointer [h] does. *)
Lemma write_msg_inv (h : option nat) (m : Msg) (e : Extio) :
  match write_msg h m e with
  | Ok e' =>
      inputs_log_only e e' /\ log e' = log e /\
      wrote_to (P_Inputs e) (P_Inputs e') None
  | Err err e' =>
      inputs_log_only e e' /\ log e' = log e /\
      wrote_to (P_Inputs e) (P_Inputs e') (Some err)
  | Panic _ =>
      h = None \/ exists i, h = Some i /\ P_Inputs e !! i = None
  end.
Proof.
  unfold write_msg. destruct h as [i|]; [|by left].
  destruct (P_Inputs e !! i) as [inp|] eqn:Hi; [|right; by exists i].
  destruct (WriteMsg inp m) as [inp' err] eqn:HW.
  assert (inputs_log_only e (set_P_Inputs (<[i:=inp']> (P_Inputs e)) e))
    as Hframe by (unfold inputs_log_only; by destruct e).
  assert (forall err', err = err' ->
            wrote_to (P_Inputs e)
              (P_Inputs (set_P_Inputs (<[i:=inp']> (P_Inputs e)) e)) err')
    as Hwrote.
  { intros err' <-. exists i, inp, m. rewrite HW. by destruct e. }
  destruct err as [err|]; (split; [done|]); (split; [by destruct e|]);
    by apply Hwrote.
Qed.

(** ReadSingle, outcome by outcome. *)
Lemma ReadSingle_inv (e : Extio) (data : bytes) (cb : option CallbackFunc) :
  match ReadSingle e data cb with
  | Ok e' =>
      inputs_log_only e e' /\ log e' = log e /\
      (P_Inputs e' = P_Inputs e \/ wrote_to (P_Inputs e) (P_Inputs e') None)
  | Err err e' =>
      inputs_log_only e e' /\
      ((opt_pardon e = false /\ P_Inputs e' = P_Inputs e /\
        exists entry, log e' = log e ++ [entry]) \/
       (log e' = log e /\
        wrote_to (P_Inputs e) (P_Inputs e') (Some err)))
  | Panic _ =>
      opt_write e = false /\
      ((opt_mrt e = true /\ mrt e = None) \/
       (exists h, (h = InputL e \/ h = InputR e \/ h = InputD e) /\
          (h = None \/ exists i, h = Some i /\ P_Inputs e !! i = None)))
  end.
Proof.
  unfold ReadSingle.
  destruct (opt_write e) eqn:Hw.
  { split; [apply inputs_log_only_refl|]. split; [done|by left]. }
  destruct (ReadSingle_parse e data) as [|b m [err|]|why] eqn:Hparse.
  - split; [apply inputs_log_only_refl|]. split; [done|by left].
  - destruct (opt_pardon e) eqn:Hp.
    { split; [apply inputs_log_only_refl|]. split; [done|by left]. }
    destruct (opt_raw e);
      (split; [unfold inputs_log_only; by destruct e|]); left;
      (split; [done|]); (split; [by destruct e|]); eexists; by destruct e.
  - unfold ReadSingle_sail. destruct (check e cb m) as [[] m']; simpl.
    + assert (forall h, (h = InputL e \/ h = InputR e \/ h = InputD e) ->
                match write_msg h m' e with
                | Ok e' =>
                    inputs_log_only e e' /\ log e' = log e /\
                    (P_Inputs e' = P_Inputs e \/
                     wrote_to (P_Inputs e) (P_Inputs e') None)
                | Err err e' =>
                    inputs_log_only e e' /\
                    ((opt_pardon e = false /\ P_Inputs e' = P_Inputs e /\
                      exists entry, log e' = log e ++ [entry]) \/
                     (log e' = log e /\
                      wrote_to (P_Inputs e) (P_Inputs e') (Some err)))
                | Panic _ =>
                    false = false /\
                    ((opt_mrt e = true /\ mrt e = None) \/
                     (exists h, (h = InputL e \/ h = InputR e \/ h = InputD e) /\
                        (h = None \/
                         exists i, h = Some i /\ P_Inputs e !! i = None)))
                end) as Hwrite.
      { intros h Hh. pose proof (write_msg_inv h m' e) as Hinv.
        destruct (write_msg h m' e) as [e'|err e'|why].
        - destruct Hinv as (? & ? & ?). split; [done|]. split; [done|by right].
        - destruct Hinv as (? & ? & ?). split; [done|]. by right.
        - split; [done|]. right. by exists h. }
      destruct (m_Dir m'); apply Hwrite; auto.
    + split; [apply inputs_log_only_refl|]. split; [done|by left].
  - split; [done|]. left.
    unfold ReadSingle_parse in Hparse.
    destruct (opt_raw e).
    { destruct (FromBytes data GetMsg) as [[m n] [err|]]; [done|].
      by destruct (negb _). }
    destruct (opt_mrt e); [|].
    { split; [done|]. destruct (mrt e) as [rd|]; [|done].
      destruct (Mrt_FromBytes rd data GetMsg) as [[m n] [err|]].
      - by destruct (error_eqb err ErrSub).
      - by destruct (negb _). }
    exfalso. destruct (TrimSpace data) as [|c rest]; [done|].
    destruct (Byte.eqb c "#"); [done|].
    destruct (Byte.eqb c "[").
    { by destruct (FromJSON _ GetMsg) as [m err]. }
    destruct (Byte.eqb c "{"); [|done].
    by destruct (Update_FromJSON _ _) as [m err].
Qed.

(** ReadSingle changes nothing of the adapter but the inputs of the pipe
    and the log.  It returns nil without logging, having written to at
    most one input; it returns an error either after logging one line for
    a parse error, which needs --pardon unset and leaves the inputs alone,
    or because the one input it wrote to refused the message. *)
Theorem ReadSingle_frame (e : Extio) (data : bytes)
    (cb : option CallbackFunc) :
  match ReadSingle e data cb with
  | Ok e' =>
      inputs_log_only e e' /\ log e' = log e /\
      (P_Inputs e' = P_Inputs e \/ wrote_to (P_Inputs e) (P_Inputs e') None)
  | Err err e' =>
      inputs_log_only e e' /\
      ((opt_pardon e = false /\ P_Inputs e' = P_Inputs e /\
        exists entry, log e' = log e ++ [entry]) \/
       (log e' = log e /\
        wrote_to (P_Inputs e) (P_Inputs e') (Some err)))
  | Panic _ => True
  end.
Proof.
  pose proof (ReadSingle_inv e data cb) as H.
  by destruct (ReadSingle e data cb).
Qed.

End IngressFrame.

(** ** The external I/O adapter: reading after Attach *)

Section IngressSafe.

Import Koanf Msg Extio.

Context {lib : Lib}.

Lemma wrote_to_length (ins ins' : list input) (err : option error) :
  wrote_to ins ins' err -> length ins' = length ins.
Proof. intros (i & inp & m & _ & _ & ->). apply length_insert. Qed.

Lemma inputs_ok_frame (e e' : Extio) :
  inputs_ok e -> inputs_log_only e e' ->
  length (P_Inputs e') = length (P_Inputs e) -> inputs_ok e'.
Proof.
  intros Hok Hframe Hlen.
  destruct (inputs_log_only_fields e e' Hframe)
    as (Hw & _ & _ & _ & HL & HR & HD & Hm & _).
  unfold inputs_ok. rewrite Hw, HL, HR, HD, Hm, Hlen. exact Hok.
Qed.

Lemma inputs_ok_set_buf (e : Extio) (b : bytes) :
  inputs_ok e -> inputs_ok (set_buf b e).
Proof. unfold inputs_ok. by destruct e. Qed.

Lemma lookup_inside {A : Type} (l : list A) (i : nat) :
  (i < length l)%nat -> l !! i <> None.
Proof. intros H Hn. apply lookup_ge_None in Hn. lia. Qed.

(** With good pointers ReadSingle does not panic and leaves good
    pointers. *)
Lemma ReadSingle_safe (e : Extio) (data : bytes) (cb : option CallbackFunc) :
  inputs_ok e ->
  match ReadSingle e data cb with
  | Ok e' | Err _ e' =>
      inputs_ok e' /\ inputs_log_only e e' /\
      length (P_Inputs e') = length (P_Inputs e)
  | Panic _ => False
  end.
Proof.
  intros Hok. pose proof (ReadSingle_inv e data cb) as Hinv.
  destruct (ReadSingle e data cb) as [e'|err e'|why].
  - destruct Hinv as (Hframe & _ & Hins).
    assert (length (P_Inputs e') = length (P_Inputs e)) as Hlen.
    { destruct Hins as [->|Hw]; [done|by eapply wrote_to_length]. }
    split; [by eapply inputs_ok_frame|done].
  - destruct Hinv as (Hframe & Hins).
    assert (length (P_Inputs e') = length (P_Inputs e)) as Hlen.
    { destruct Hins as [(_ & -> & _)|[_ Hw]];
        [done|by eapply wrote_to_length]. }
    split; [by eapply inputs_ok_frame|done].
  - destruct Hinv as (Hw & Hbad).
    destruct (Hok Hw) as (l & r & d & HL & HR & HD & Hl & Hr & Hd & rd & Hm & _).
    destruct Hbad as [[_ Hnone]|(h & Hh & Hbad)]; [congruence|].
    assert (exists i, h = Some i /\ (i < length (P_Inputs e))%nat)
      as (i & -> & Hi).
    { destruct Hh as [->|[->| ->]]; eauto. }
    destruct Hbad as [?|(j & [= <-] & Hj)]; [done|].
    by apply lookup_inside in Hi.
Qed.

Lemma inputs_log_buf_only_trans (e e1 e2 : Extio) :
  inputs_log_buf_only e e1 -> inputs_log_buf_only e1 e2 ->
  inputs_log_buf_only e e2.
Proof.
  unfold inputs_log_buf_only. intros H1 H2.
  etransitivity; [exact H2|]. rewrite H1. by destruct e.
Qed.

(** The same for the lines of ReadBuf. *)
Lemma ReadBuf_lines_safe (cb : option CallbackFunc) (rest : bytes) :
  forall (e : Extio) (acc : bytes),
    inputs_ok e ->
    match ReadBuf_lines cb e acc rest with
    | Ok e' | Err _ e' =>
        inputs_ok e' /\ inputs_log_buf_only e e' /\
        length (P_Inputs e') = length (P_Inputs e)
    | Panic _ => False
    end.
Proof.
  induction rest as [|c rest IH]; intros e acc Hok; simpl.
  - split; [by apply inputs_ok_set_buf|].
    split; [unfold inputs_log_buf_only; by destruct e|by destruct e].
  - destruct (Byte.eqb c "010"); [|by apply IH].
    pose proof (ReadSingle_safe (set_buf rest e) (acc ++ [c]) cb
                  (inputs_ok_set_buf e rest Hok)) as Hsingle.
    assert (forall e1, inputs_log_only (set_buf rest e) e1 ->
                       inputs_log_buf_only e e1) as Hstep.
    { unfold inputs_log_only, inputs_log_buf_only. intros e1 ->.
      by destruct e. }
    assert (length (P_Inputs (set_buf rest e)) = length (P_Inputs e))
      as Hlen0 by (by destruct e).
    destruct (ReadSingle (set_buf rest e) (acc ++ [c]) cb) as [e1|err e1|why];
      [|by destruct Hsingle as (? & ? & ?); repeat split;
          [|apply Hstep|congruence]|done].
    destruct Hsingle as (Hok1 & Hframe1 & Hlen1).
    specialize (IH e1 [] Hok1).
    destruct (ReadBuf_lines cb e1 [] rest) as [e2|err e2|why]; [| |done].
    + destruct IH as (Hok2 & Hframe2 & Hlen2). split; [done|].
      split; [|congruence].
      eapply inputs_log_buf_only_trans; [by apply Hstep|done].
    + destruct IH as (Hok2 & Hframe2 & Hlen2). split; [done|].
      split; [|congruence].
      eapply inputs_log_buf_only_trans; [by apply Hstep|done].
Qed.

Lemma ReadBuf_safe (e : Extio) (data : bytes) (cb : option CallbackFunc) :
  inputs_ok e ->
  match ReadBuf e data cb with
  | Ok e' | Err _ e' =>
      inputs_ok e' /\ inputs_log_buf_only e e' /\
      length (P_Inputs e') = length (P_Inputs e)
  | Panic _ => False
  end.
Proof.
  intros Hok. unfold ReadBuf.
  assert (inputs_log_buf_only e e) as Hrefl
    by (unfold inputs_log_buf_only; by destruct e).
  destruct (opt_write e) eqn:Hw; [done|].
  destruct (Hok Hw) as (l & r & d & HL & HR & HD & Hl & Hr & Hd & rd & Hm & Hrd).
  assert (forall inp' err,
            match ReadBuf_result
                    (set_P_Inputs (<[d:=inp']> (P_Inputs e)) e) err with
            | Ok e' | Err _ e' =>
                inputs_ok e' /\ inputs_log_buf_only e e' /\
                length (P_Inputs e') = length (P_Inputs e)
            | Panic _ => False
            end) as Hresult.
  { intros inp' err.
    assert (inputs_ok (set_P_Inputs (<[d:=inp']> (P_Inputs e)) e)) as Hok'.
    { eapply inputs_ok_frame; [exact Hok| |].
      - unfold inputs_log_only. by destruct e.
      - destruct e; simpl. apply length_insert. }
    assert (length (P_Inputs (set_P_Inputs (<[d:=inp']> (P_Inputs e)) e))
            = length (P_Inputs e)) as Hlen.
    { destruct e; simpl. apply length_insert. }
    assert (inputs_log_buf_only e
              (set_P_Inputs (<[d:=inp']> (P_Inputs e)) e)) as Hframe
      by (unfold inputs_log_buf_only; by destruct e).
    unfold ReadBuf_result.
    destruct err as [err|]; [|done].
    destruct (error_eqb err ErrUnexpectedEOF); [done|].
    destruct (negb _); [|done].
    split; [|split].
    - eapply inputs_ok_frame; [exact Hok'| |].
      + unfold inputs_log_only. by destruct e.
      + by destruct e.
    - unfold inputs_log_buf_only. by destruct e.
    - destruct e; simpl. apply length_insert. }
  destruct (opt_raw e).
  { rewrite HD.
    destruct (P_Inputs e !! d) as [inp|] eqn:Hlook;
      [|by apply lookup_inside in Hd].
    destruct (WriteFunc inp data (check e cb)) as [inp' err].
    apply Hresult. }
  destruct (opt_mrt e); [|by apply ReadBuf_lines_safe].
  rewrite Hm, Hrd.
  destruct (P_Inputs e !! d) as [inp|] eqn:Hlook;
    [|by apply lookup_inside in Hd].
  destruct (Mrt_WriteFunc rd inp data (check e cb)) as [inp' err].
  apply Hresult.
Qed.

Lemma Attach_types_others (vs : list string) :
  forall e : Extio,
    match Attach_types vs e with
    | Ok e' | Err _ e' => e' = set_opt_type (opt_type e') e
    | Panic _ => False
    end.
Proof.
  induction vs as [|v vs IH]; intros e; simpl; [by destruct e|].
  destruct (String.length v =? 0)%nat; [apply IH|].
  destruct (TypeString v) as [typ|].
  - specialize (IH (set_opt_type (opt_type e ++ [typ]) e)).
    destruct (Attach_types vs _) as [e'|err e'|]; [| |done];
      rewrite IH; by destruct e.
  - destruct (Strconv.Atoi v) as [tnum|]; [|by destruct e].
    destruct ((0 <=? tnum) && (tnum <=? 255)); [|by destruct e].
    specialize (IH (set_opt_type (opt_type e ++ [tnum]) e)).
    destruct (Attach_types vs _) as [e'|err e'|]; [| |done];
      rewrite IH; by destruct e.
Qed.

Lemma Attach_inputs_ok (e e' : Extio) :
  Attach_inputs e = Ok e' -> inputs_ok e'.
Proof.
  unfold Attach_inputs, inputs_ok.
  destruct e as [k bidir last left dir typ raw mrt_ rd wr cp ns nt ntg pd
                 mr bf cbk il ir idf out ins lg]; simpl.
  destruct (raw && mrt_); [done|].
  destruct wr, rd, bidir, left, last; simpl; intros [= <-]; simpl;
    try done; intros _;
    repeat match goal with
           | |- exists _ : nat, _ => eexists
           | |- exists _ : MrtReader, _ => eexists
           | |- _ /\ _ => split
           | |- _ = _ => reflexivity
           end;
    rewrite ?length_app; simpl; lia.
Qed.

(** After a successful Attach no sequence of ReadSingle and ReadBuf calls
    panics, whatever the buffers and callbacks and whatever errors the
    calls return on the way. *)
Theorem Attach_reads_safe (e0 e : Extio) (ops : list read_op) :
  Attach e0 = Ok e -> is_Some (reads ops e).
Proof.
  intros Hattach.
  assert (inputs_ok e) as Hok.
  { unfold Attach in Hattach.
    destruct (Attach_types _ _) as [e1|err e1|]; [|done..].
    destruct (opt_read e1 || opt_write e1);
      [destruct (opt_read e1 && opt_write e1); [done|]|];
      by eapply Attach_inputs_ok. }
  clear Hattach. revert e Hok.
  induction ops as [|op ops IH]; intros e Hok; simpl; [done|].
  destruct op as [data cb|data cb].
  - pose proof (ReadSingle_safe e data cb Hok) as Hs.
    destruct (ReadSingle e data cb) as [e'|err e'|]; [| |done];
      apply IH; by destruct Hs.
  - pose proof (ReadBuf_safe e data cb Hok) as Hs.
    destruct (ReadBuf e data cb) as [e'|err e'|]; [| |done];
      apply IH; by destruct Hs.
Qed.

End IngressSafe.

Lemma Attach_reads_safe_witness :
  is_Some
    (@reads ExtioDemo.lib
       [Single (list_byte_of_string "oops") None;
        Buf (list_byte_of_string "[] ") None]
       ExtioDemo.text).
Proof.
  apply (@Attach_reads_safe ExtioDemo.lib (ExtioDemo.fresh ∅)).
  vm_compute. reflexivity.
Defined.

(** ** The external I/O adapter: what Attach sets up *)

Section AttachWiring.

Import Koanf Msg Extio.

Context {lib : Lib}.

Lemma names_types_nil : names_types [] [].
Proof. constructor. Qed.

Lemma names_types_skip (v : string) (vs : list string) (ts : list Z) :
  (String.length v =? 0)%nat = true ->
  names_types vs ts -> names_types (v :: vs) ts.
Proof.
  intros Hv H. unfold names_types. rewrite filter_cons_False; [done|].
  destruct v; [tauto|done].
Qed.

Lemma names_types_cons (v : string) (typ : Z) (vs : list string)
    (ts : list Z) :
  (String.length v =? 0)%nat = false -> type_value v = Some typ ->
  names_types vs ts -> names_types (v :: vs) (typ :: ts).
Proof.
  intros Hv Ht H. unfold names_types. rewrite filter_cons_True.
  - by constructor.
  - by destruct v.
Qed.

(** The loop over the --type values records one type for each value that
    is not empty, in the order given; it stops at the first value that
    names no type, with that value in the error and the types before it
    recorded. *)
Theorem Attach_types_spec (vs : list string) (e : Extio) :
  match Attach_types vs e with
  | Ok e' =>
      exists ts, names_types vs ts /\ opt_type e' = opt_type e ++ ts
  | Err err e' =>
      exists pre v post ts,
        vs = pre ++ v :: post /\ v <> "" /\ type_value v = None /\
        err = ErrType v /\
        names_types pre ts /\ opt_type e' = opt_type e ++ ts
  | Panic _ => False
  end.
Proof.
  revert e. induction vs as [|v vs IH]; intros e; simpl.
  { exists []. split; [apply names_types_nil|by rewrite app_nil_r]. }
  destruct (String.length v =? 0)%nat eqn:Hv.
  { specialize (IH e).
    destruct (Attach_types vs e) as [e'|err e'|]; [| |done].
    - destruct IH as (ts & Hts & Ht). exists ts.
      split; [by apply names_types_skip|done].
    - destruct IH as (pre & w & post & ts & -> & Hw & Hnone & -> & Hts & Ht).
      exists (v :: pre), w, post, ts.
      repeat apply conj; try done. by apply names_types_skip. }
  assert (v <> "") as Hne by (by destruct v).
  assert (forall typ, type_value v = Some typ ->
            match Attach_types vs (set_opt_type (opt_type e ++ [typ]) e) with
            | Ok e' =>
                exists ts, names_types (v :: vs) ts /\
                           opt_type e' = opt_type e ++ ts
            | Err err e' =>
                exists pre w post ts,
                  v :: vs = pre ++ w :: post /\ w <> "" /\
                  type_value w = None /\ err = ErrType w /\
                  names_types pre ts /\ opt_type e' = opt_type e ++ ts
            | Panic _ => False
            end) as Hstep.
  { intros typ Htyp.
    specialize (IH (set_opt_type (opt_type e ++ [typ]) e)).
    assert (opt_type (set_opt_type (opt_type e ++ [typ]) e)
            = opt_type e ++ [typ]) as Hset by (by destruct e).
    destruct (Attach_types vs _) as [e'|err e'|]; [| |done].
    - destruct IH as (ts & Hts & Ht). exists (typ :: ts).
      split; [by apply names_types_cons|].
      rewrite Ht, Hset, <- app_assoc. done.
    - destruct IH as (pre & w & post & ts & -> & Hw & Hnone & -> & Hts & Ht).
      exists (v :: pre), w, post, (typ :: ts).
      repeat apply conj; try done.
      + by apply names_types_cons.
      + rewrite Ht, Hset, <- app_assoc. done. }
  assert (forall e0 : Extio, type_value v = None ->
            exists pre w post ts,
              v :: vs = pre ++ w :: post /\ w <> "" /\
              type_value w = None /\ ErrType v = ErrType w /\
              names_types pre ts /\ opt_type e = opt_type e ++ ts) as Hbad.
  { intros _ Hnone. exists [], v, vs, [].
    split_and!; [done|done|done|done|apply names_types_nil|].
    by rewrite app_nil_r. }
  unfold type_value in Hstep, Hbad.
  destruct (TypeString v) as [typ|]; [by apply Hstep|].
  destruct (Strconv.Atoi v) as [tnum|]; [|by apply Hbad].
  destruct ((0 <=? tnum) && (tnum <=? 255)); [by apply Hstep|by apply Hbad].
Qed.

(** Up to its last part, Attach changes the options only. *)
Lemma Attach_inv (e0 e : Extio) :
  Attach e0 = Ok e ->
  exists e1,
    Attach_inputs e1 = Ok e /\
    P_Inputs e1 = P_Inputs e0 /\ IsBidir e1 = IsBidir e0 /\
    IsLast e1 = IsLast e0 /\ IsLeft e1 = IsLeft e0 /\ Dir e1 = Dir e0 /\
    InputL e1 = InputL e0 /\ InputR e1 = InputR e0 /\
    InputD e1 = InputD e0 /\ mrt e1 = mrt e0 /\ Callback e1 = Callback e0.
Proof.
  unfold Attach. intros H.
  match type of H with
  | context [Attach_types ?vs ?x] =>
      pose proof (Attach_types_others vs x) as Ht;
      destruct (Attach_types vs x) as [e1|err e1|]; [|done..]
  end.
  assert (P_Inputs e1 = P_Inputs e0 /\ IsBidir e1 = IsBidir e0 /\
          IsLast e1 = IsLast e0 /\ IsLeft e1 = IsLeft e0 /\
          Dir e1 = Dir e0 /\ InputL e1 = InputL e0 /\
          InputR e1 = InputR e0 /\ InputD e1 = InputD e0 /\
          mrt e1 = mrt e0 /\ Callback e1 = Callback e0) as Hsame.
  { rewrite Ht. by destruct e0. }
  destruct (opt_read e1 || opt_write e1).
  - destruct (opt_read e1 && opt_write e1); [done|].
    exists (set_opt_copy true e1). split; [done|]. by destruct e1.
  - by exists e1.
Qed.

(** The last part of Attach, on its own. *)
Lemma Attach_inputs_inv (e1 e : Extio) :
  Attach_inputs e1 = Ok e ->
  let n := length (P_Inputs e1) in
  (if opt_write e then
     P_Inputs e = P_Inputs e1 /\ InputL e = InputL e1 /\
     InputR e = InputR e1 /\ InputD e = InputD e1 /\ mrt e = mrt e1
   else
     mrt e = Some (mkMrtReader (InputD e) (opt_notags e)) /\
     if IsBidir e1 then
       P_Inputs e = P_Inputs e1 ++ [AddInput DIR_L; AddInput DIR_R] /\
       InputL e = Some n /\ InputR e = Some (S n) /\
       InputD e = (if IsLast e1 then Some n else Some (S n))
     else
       P_Inputs e
       = P_Inputs e1 ++ [AddInput (if IsLeft e1 then DIR_L else DIR_R)] /\
       InputL e = Some n /\ InputR e = Some n /\ InputD e = Some n) /\
  Callback e = (if opt_read e then Callback e1
                else Some (mkPCallback (Dir e1) (opt_type e) false)).
Proof.
  unfold Attach_inputs.
  destruct e1 as [k bidir last left dir typ raw mrt_ rd wr cp ns nt ntg pd
                  mr bf cbk il ir idf out ins lg]; simpl.
  destruct (raw && mrt_); [done|].
  destruct wr, rd, bidir, left, last; simpl; intros [= <-]; simpl;
    rewrite ?length_app; repeat apply conj; try reflexivity;
    try (simpl; f_equal; lia);
    exact (eq_sym (app_assoc ins [AddInput DIR_L] [AddInput DIR_R])).
Qed.

(** What a successful Attach leaves of the stage's inputs and callback.
    A write-only adapter gets no input.  Otherwise a bidirectional stage
    gets an L and an R input, the default one being L for the last stage
    and R for any other; a stage of one direction gets one input, to
    which all three pointers lead, so that messages of either direction
    go to it.  The MRT reader writes to the default input.  A callback
    for the stage's direction and the --type list is registered unless
    the adapter is read-only. *)
Theorem Attach_wiring (e0 e : Extio) :
  Attach e0 = Ok e ->
  let n := length (P_Inputs e0) in
  (if opt_write e then
     P_Inputs e = P_Inputs e0 /\ InputL e = InputL e0 /\
     InputR e = InputR e0 /\ InputD e = InputD e0 /\ mrt e = mrt e0
   else
     mrt e = Some (mkMrtReader (InputD e) (opt_notags e)) /\
     if IsBidir e0 then
       P_Inputs e = P_Inputs e0 ++ [AddInput DIR_L; AddInput DIR_R] /\
       InputL e = Some n /\ InputR e = Some (S n) /\
       InputD e = (if IsLast e0 then Some n else Some (S n))
     else
       P_Inputs e
       = P_Inputs e0 ++ [AddInput (if IsLeft e0 then DIR_L else DIR_R)] /\
       InputL e = Some n /\ InputR e = Some n /\ InputD e = Some n) /\
  Callback e = (if opt_read e then Callback e0
                else Some (mkPCallback (Dir e0) (opt_type e) false)).
Proof.
  intros H.
  apply Attach_inv in H
    as (e1 & H & HP & HB & HLa & HLe & HDi & HL & HR & HD & HM & HC).
  apply Attach_inputs_inv in H.
  rewrite HP, HB, HLa, HLe, HDi, HL, HR, HD, HM, HC in H. exact H.
Qed.

End AttachWiring.

Lemma Attach_wiring_witness :
  @Extio.InputL ExtioDemo.lib ExtioDemo.text = Some 0%nat /\
  @Extio.InputR ExtioDemo.lib ExtioDemo.text = Some 0%nat.
Proof.
  pose proof (@Attach_wiring ExtioDemo.lib (ExtioDemo.fresh ∅) ExtioDemo.text)
    as H.
  assert (@Extio.Attach ExtioDemo.lib (ExtioDemo.fresh ∅) = Ok ExtioDemo.text)
    as Ha by (vm_compute; reflexivity).
  specialize (H Ha). cbv zeta in H.
  assert (@Extio.opt_write ExtioDemo.lib ExtioDemo.text = false) as Hw
    by (vm_compute; reflexivity).
  assert (@Extio.IsBidir ExtioDemo.lib (ExtioDemo.fresh ∅) = false) as Hb
    by (vm_compute; reflexivity).
  rewrite Hw, Hb in H. destruct H as [(_ & _ & HL & HR & _) _].
  split; [exact HL|exact HR].
Defined.

(** ** The external I/O adapter: lines across calls of ReadBuf *)

Section IngressLines.

Import Koanf Msg Extio.

Context {lib : Lib}.

Lemma set_buf_set_buf (x y : bytes) (e : Extio) :
  set_buf x (set_buf y e) = set_buf x e.
Proof. by destruct e. Qed.


Lemma write_msg_set_buf (x : bytes) (h : option nat) (m : Msg) (e : Extio) :
  write_msg h m (set_buf x e) = with_buf x (write_msg h m e).
Proof.
  unfold write_msg. destruct h as [i|]; [|done].
  replace (P_Inputs (set_buf x e)) with (P_Inputs e) by (by destruct e).
  destruct (P_Inputs e !! i) as [inp|]; [|done].
  destruct (WriteMsg inp m) as [inp' [err|]]; simpl; by destruct e.
Qed.

(** ReadSingle neither reads nor writes the line buffer. *)
Lemma ReadSingle_set_buf (x : bytes) (e : Extio) (data : bytes)
    (cb : option CallbackFunc) :
  ReadSingle (set_buf x e) data cb = with_buf x (ReadSingle e data cb).
Proof.
  unfold ReadSingle.
  replace (opt_write (set_buf x e)) with (opt_write e) by (by destruct e).
  destruct (opt_write e); [done|].
  replace (ReadSingle_parse (set_buf x e) data)
    with (ReadSingle_parse e data) by (by destruct e).
  destruct (ReadSingle_parse e data) as [|b m [err|]|why]; [done| | |done].
  - replace (opt_pardon (set_buf x e)) with (opt_pardon e)
      by (by destruct e).
    destruct (opt_pardon e); [done|].
    replace (opt_raw (set_buf x e)) with (opt_raw e) by (by destruct e).
    destruct (opt_raw e); simpl; by destruct e.
  - unfold ReadSingle_sail.
    replace (check (set_buf x e) cb) with (check e cb) by (by destruct e).
    destruct (check e cb m) as [ok m'].
    destruct (negb ok); [done|].
    replace (InputL (set_buf x e)) with (InputL e) by (by destruct e).
    replace (InputR (set_buf x e)) with (InputR e) by (by destruct e).
    replace (InputD (set_buf x e)) with (InputD e) by (by destruct e).
    destruct (m_Dir m'); apply write_msg_set_buf.
Qed.

(** The lines of ReadBuf start from the bytes handed to them, not from
    the buffer of the adapter. *)
Lemma ReadBuf_lines_set_buf (cb : option CallbackFunc) (x rest : bytes) :
  forall (e : Extio) (acc : bytes),
    ReadBuf_lines cb (set_buf x e) acc rest = ReadBuf_lines cb e acc rest.
Proof.
  induction rest as [|c rest IH]; intros e acc; simpl.
  - by rewrite set_buf_set_buf.
  - destruct (Byte.eqb c "010"); [|apply IH].
    by rewrite set_buf_set_buf.
Qed.

Lemma ReadBuf_lines_acc (cb : option CallbackFunc) (a : bytes) :
  forall (e : Extio) (acc rest : bytes),
    no_newline a ->
    ReadBuf_lines cb e acc (a ++ rest) = ReadBuf_lines cb e (acc ++ a) rest.
Proof.
  induction a as [|c a IH]; intros e acc rest Ha; simpl.
  - by rewrite app_nil_r.
  - inversion Ha as [|? ? Hc Ha']; subst. rewrite Hc.
    rewrite IH by done. by rewrite <- app_assoc.
Qed.

Lemma ReadBuf_lines_buf (cb : option CallbackFunc) (rest : bytes) :
  forall (e e1 : Extio) (acc : bytes),
    no_newline acc -> ReadBuf_lines cb e acc rest = Ok e1 ->
    no_newline (buf e1) /\ exists pre, acc ++ rest = pre ++ buf e1.
Proof.
  induction rest as [|c rest IH]; intros e e1 acc Hacc; simpl.
  - intros [= <-]. replace (buf (set_buf acc e)) with acc by (by destruct e).
    split; [done|]. exists []. by rewrite app_nil_r.
  - destruct (Byte.eqb c "010") eqn:Hc.
    + destruct (ReadSingle _ _ cb) as [e'|err e'|why]; [|done..].
      intros H. apply IH in H as [Hno (pre & Hpre)]; [|constructor].
      split; [done|]. exists ((acc ++ [c]) ++ pre).
      simpl in Hpre. rewrite <- !app_assoc. simpl. by rewrite Hpre.
    + intros H. apply IH in H as [Hno (pre & Hpre)].
      * split; [done|]. exists pre. rewrite <- Hpre, <- app_assoc. done.
      * apply Forall_app. split; [done|]. by repeat constructor.
Qed.

Lemma ReadBuf_lines_app (cb : option CallbackFunc) (r1 : bytes) :
  forall (e e1 : Extio) (acc r2 : bytes),
    ReadBuf_lines cb e acc r1 = Ok e1 ->
    ReadBuf_lines cb e acc (r1 ++ r2) = ReadBuf_lines cb e1 (buf e1) r2.
Proof.
  induction r1 as [|c r1 IH]; intros e e1 acc r2; simpl.
  - intros [= <-]. replace (buf (set_buf acc e)) with acc by (by destruct e).
    by rewrite ReadBuf_lines_set_buf.
  - destruct (Byte.eqb c "010"); [|apply IH].
    rewrite (ReadSingle_set_buf r1), (ReadSingle_set_buf (r1 ++ r2)).
    destruct (ReadSingle e (acc ++ [c]) cb) as [e'|err e'|why]; simpl;
      [|done..].
    rewrite !ReadBuf_lines_set_buf. apply IH.
Qed.

(** ReadBuf changes nothing of the adapter but the inputs of the pipe,
    the log and the line buffer. *)
Lemma ReadBuf_lines_frame (cb : option CallbackFunc) (rest : bytes) :
  forall (e : Extio) (acc : bytes),
    match ReadBuf_lines cb e acc rest with
    | Ok e' | Err _ e' => inputs_log_buf_only e e'
    | Panic _ => True
    end.
Proof.
  induction rest as [|c rest IH]; intros e acc; simpl.
  - unfold inputs_log_buf_only. by destruct e.
  - destruct (Byte.eqb c "010"); [|apply IH].
    pose proof (ReadSingle_inv (set_buf rest e) (acc ++ [c]) cb) as Hs.
    assert (forall e1, inputs_log_only (set_buf rest e) e1 ->
                       inputs_log_buf_only e e1) as Hstep.
    { unfold inputs_log_only, inputs_log_buf_only. intros e1 ->.
      by destruct e. }
    destruct (ReadSingle _ _ cb) as [e1|err e1|why]; [| |done].
    + specialize (IH e1 []). destruct Hs as (Hs & _).
      destruct (ReadBuf_lines cb e1 [] rest) as [e2|err e2|why]; [| |done];
        (eapply inputs_log_buf_only_trans; [by apply Hstep|done]).
    + destruct Hs as (Hs & _). by apply Hstep.
Qed.

Lemma inputs_log_buf_only_fields (e e' : Extio) :
  inputs_log_buf_only e e' ->
  opt_write e' = opt_write e /\ opt_raw e' = opt_raw e /\
  opt_mrt e' = opt_mrt e /\ opt_pardon e' = opt_pardon e /\
  opt_read e' = opt_read e /\ opt_copy e' = opt_copy e /\
  opt_type e' = opt_type e /\
  InputL e' = InputL e /\ InputR e' = InputR e /\ InputD e' = InputD e /\
  mrt e' = mrt e /\ Output e' = Output e /\ Callback e' = Callback e.
Proof. unfold inputs_log_buf_only. intros ->. by destruct e. Qed.

(** In text mode, as long as ReadBuf returns no error, it does not matter
    how the stream is cut into buffers: handing [a] and then [b] leaves
    what handing [a ++ b] at once leaves, errors and panics of the second
    call included.  After a call that returned nil the line buffer holds
    no newline and is the end of what was buffered and handed in. *)
Theorem ReadBuf_text_chunks (e e1 : Extio) (a b : bytes)
    (cb : option CallbackFunc) :
  opt_write e = false -> opt_raw e = false -> opt_mrt e = false ->
  ReadBuf e a cb = Ok e1 ->
  ReadBuf e1 b cb = ReadBuf e (a ++ b) cb /\
  no_newline (buf e1) /\ exists pre, buf e ++ a = pre ++ buf e1.
Proof.
  intros Hw Hraw Hmrt. unfold ReadBuf. rewrite Hw, Hraw, Hmrt. intros H.
  pose proof (ReadBuf_lines_frame cb (buf e ++ a) e []) as Hframe.
  rewrite H in Hframe.
  destruct (inputs_log_buf_only_fields e e1 Hframe)
    as (Hw1 & Hraw1 & Hmrt1 & _).
  rewrite Hw1, Hraw1, Hmrt1, Hw, Hraw, Hmrt.
  pose proof (ReadBuf_lines_buf cb _ _ _ _ (Forall_nil_2 _) H) as [Hno Hpre].
  split; [|done].
  rewrite app_assoc, (ReadBuf_lines_app cb _ _ _ _ b H).
  by rewrite ReadBuf_lines_acc.
Qed.

End IngressLines.

Lemma ReadBuf_text_chunks_witness :
  exists e1,
    @Extio.ReadBuf ExtioDemo.lib ExtioDemo.text (list_byte_of_string "[1") None
    = Ok e1 /\
    Extio.ReadBuf e1 ["]"%byte; "010"%byte] None
    = Extio.ReadBuf ExtioDemo.text
        (list_byte_of_string "[1" ++ ["]"%byte; "010"%byte]) None.
Proof.
  eexists. split; [vm_compute; reflexivity|].
  apply (@ReadBuf_text_chunks ExtioDemo.lib ExtioDemo.text);
    vm_compute; reflexivity.
Defined.

(** ** The external I/O adapter: output and shutdown *)

Section EgressFrame.

Import Koanf Msg Extio.

Context {lib : Lib}.

Lemma error_eqb_eq (a b : error) : error_eqb a b = true <-> a = b.
Proof.
  split.
  - destruct a, b; simpl; try done; intros H; apply String.eqb_eq in H;
      by subst.
  - intros <-. destruct a; simpl; try done; apply String.eqb_refl.
Qed.

Lemma send_safe_inv (ch ch' : chan) (bb : bytes) (ok : bool) :
  send_safe ch bb = (ch', ok) ->
  ch_closed ch' = ch_closed ch /\ ok = negb (ch_closed ch) /\
  ch_queue ch' = (if ch_closed ch then ch_queue ch else ch_queue ch ++ [bb]).
Proof.
  unfold send_safe. destruct ch as [[] q]; simpl; by intros [= <- <-].
Qed.

(** SendMsg changes nothing of the adapter but the output channel and the
    log, and never opens or closes the channel.  When it returns it has
    done one of four things: nothing, the adapter being read-only; logged
    one warning and queued nothing, serialization having failed; asked
    for its callback to be removed, the channel being closed; or queued
    one buffer at the end of the open channel.  Nothing is ever queued on
    a closed channel. *)
Theorem SendMsg_frame (e e' : Extio) (m m' : Msg) (ret : bool) :
  SendMsg e m = Sent ret e' m' ->
  output_log_only e e' /\ ch_closed (Output e') = ch_closed (Output e) /\
  ((e' = e /\ m' = m /\ opt_read e = true) \/
   (opt_read e = false /\ Output e' = Output e /\
    exists err, log e' = log e ++ [LogWarn err "extio write error"]) \/
   (opt_read e = false /\ log e' = log e /\
    ch_closed (Output e) = true /\ Output e' = Output e /\
    mx_Callback_Drop m' = true) \/
   (opt_read e = false /\ log e' = log e /\
    ch_closed (Output e) = false /\
    exists bb, ch_queue (Output e') = ch_queue (Output e) ++ [bb])).
Proof.
  unfold SendMsg.
  assert (output_log_only e e) as Hrefl
    by (unfold output_log_only; by destruct e).
  destruct (opt_read e) eqn:Hr.
  { intros [= <- <- <-]. split; [done|]. split; [done|]. by left. }
  set (m0 := if negb (opt_copy e) then Action_Drop m else m).
  assert (forall err m1,
            Sent true (set_log (log e ++ [LogWarn err "extio write error"]) e)
              m1 = Sent ret e' m' ->
            output_log_only e e' /\
            ch_closed (Output e') = ch_closed (Output e) /\
            ((e' = e /\ m' = m /\ false = true) \/
             (false = false /\ Output e' = Output e /\
              exists err, log e' = log e ++ [LogWarn err "extio write error"]) \/
             (false = false /\ log e' = log e /\
              ch_closed (Output e) = true /\ Output e' = Output e /\
              mx_Callback_Drop m' = true) \/
             (false = false /\ log e' = log e /\
              ch_closed (Output e) = false /\
              exists bb, ch_queue (Output e') = ch_queue (Output e) ++ [bb])))
    as Hwarn.
  { intros err m1 [= <- <- <-].
    split; [unfold output_log_only; by destruct e|].
    split; [by destruct e|]. right. left.
    split; [done|]. split; [by destruct e|]. exists err. by destruct e. }
  assert (forall bb m1,
            (let '(ch, ok) := send_safe (Output e) bb in
             if negb ok then Sent true (set_Output ch e) (Callback_Drop m1)
             else Sent true (set_Output ch e) m1) = Sent ret e' m' ->
            output_log_only e e' /\
            ch_closed (Output e') = ch_closed (Output e) /\
            ((e' = e /\ m' = m /\ false = true) \/
             (false = false /\ Output e' = Output e /\
              exists err, log e' = log e ++ [LogWarn err "extio write error"]) \/
             (false = false /\ log e' = log e /\
              ch_closed (Output e) = true /\ Output e' = Output e /\
              mx_Callback_Drop m' = true) \/
             (false = false /\ log e' = log e /\
              ch_closed (Output e) = false /\
              exists bb, ch_queue (Output e') = ch_queue (Output e) ++ [bb])))
    as Hsend.
  { intros bb m1.
    destruct (send_safe (Output e) bb) as [ch ok] eqn:Hs.
    apply send_safe_inv in Hs as (Hc & -> & Hq).
    assert (Output (set_Output ch e) = ch) as Ho by (by destruct e).
    assert (log (set_Output ch e) = log e) as Hl by (by destruct e).
    assert (output_log_only e (set_Output ch e)) as Hf
      by (unfold output_log_only; by destruct e).
    destruct (ch_closed (Output e)) eqn:Hcl; simpl; intros [= <- <- <-];
      (split; [done|]); (split; [by rewrite Ho|]); right; right.
    - left. rewrite Ho, Hl. repeat apply conj; try done.
      destruct ch as [c q], (Output e) as [c0 q0]. simpl in *. congruence.
    - right. rewrite Ho, Hl. repeat apply conj; try done. by exists bb. }
  destruct (opt_raw e).
  - destruct (Marshal m0) as [m1 [err|]]; [apply Hwarn|].
    destruct (WriteTo m1 []) as [bb [err|]]; [apply Hwarn|apply Hsend].
  - destruct (opt_mrt e); [done|].
    destruct (bb_Write (GetJSON m0) []) as [bb [err|]];
      [apply Hwarn|apply Hsend].
Qed.


(** OutputClose, when it returns. *)
Lemma OutputClose_inv (e e1 : Extio) :
  OutputClose e = Ok e1 ->
  opt_read e1 = true /\ ch_closed (Output e1) = true /\
  ch_queue (Output e1) = ch_queue (Output e) /\
  exists cb, Callback e = Some cb /\
    Callback e1 = Some (mkPCallback (cb_Dir cb) (cb_Types cb) true) /\
    e1 = set_Output (Output e1)
           (set_Callback (Callback e1) (set_opt_read true e)).
Proof.
  unfold OutputClose.
  replace (Callback (set_opt_read true e)) with (Callback e)
    by (by destruct e).
  destruct (Callback e) as [cb|]; [|done].
  intros [= <-]. repeat apply conj; try (by destruct e).
  exists cb. repeat apply conj; try done; by destruct e.
Qed.

(** After an Attach that registered a callback, OutputClose returns nil:
    the adapter is read-only from then on, its callback is marked for
    removal, the channel is closed with what was queued still in it, and
    nothing else has changed.  From then on SendMsg returns true for
    every message and touches neither the adapter nor the message, and a
    second OutputClose changes nothing. *)
Theorem OutputClose_after_Attach (e0 e : Extio) :
  Attach e0 = Ok e -> opt_read e = false ->
  exists e1 cb,
    OutputClose e = Ok e1 /\
    Callback e = Some cb /\
    e1 = set_Output (mkChan true (ch_queue (Output e)))
           (set_Callback (Some (mkPCallback (cb_Dir cb) (cb_Types cb) true))
              (set_opt_read true e)) /\
    (forall m, SendMsg e1 m = Sent true e1 m) /\
    OutputClose e1 = Ok e1.
Proof.
  intros Ha Hr.
  apply Attach_inv in Ha as (e2 & Ha & _).
  apply Attach_inputs_inv in Ha as [_ Hcb]. rewrite Hr in Hcb.
  unfold OutputClose, SendMsg.
  replace (Callback (set_opt_read true e)) with (Callback e)
    by (by destruct e).
  rewrite Hcb. eexists _, _. split; [reflexivity|]. split; [reflexivity|].
  split; [by destruct e|]. split; [by destruct e|by destruct e].
Qed.

(** InputClose after an Attach that added inputs returns nil: the adapter
    is write-only from then on, the inputs the adapter added are closed
    (the single input of a stage of one direction twice, through its L
    and its R pointer), and the inputs registered before are as they
    were. *)
Theorem InputClose_after_Attach (e0 e : Extio) :
  Attach e0 = Ok e -> opt_write e = false ->
  exists e1,
    InputClose e = Ok e1 /\
    e1 = set_P_Inputs (P_Inputs e1) (set_opt_write true e) /\
    P_Inputs e1
    = P_Inputs e0 ++
      (if IsBidir e0 then [Close (AddInput DIR_L); Close (AddInput DIR_R)]
       else [Close (Close (AddInput (if IsLeft e0 then DIR_L else DIR_R)))]).
Proof.
  intros Ha Hw.
  apply Attach_inv in Ha
    as (e2 & Ha & HP & HB & HLa & HLe & HDi & HL & HR & HD & HM & HC).
  apply Attach_inputs_inv in Ha as [Hin _]. rewrite Hw, HP, HB, HLe in Hin.
  cbv zeta in Hin. destruct Hin as [_ Hin].
  destruct e as [k bidir last left dir typ raw mrt_ rd wr cp ns nt ntg pd
                 mr bf cbk il ir idf out ins lg]; simpl in *.
  unfold InputClose, close_input; simpl.
  destruct (IsBidir e0).
  - destruct Hin as (-> & -> & -> & _).
    rewrite lookup_app_r, Nat.sub_diag by lia. simpl.
    rewrite insert_app_r_alt, Nat.sub_diag by lia. simpl.
    rewrite lookup_app_r by lia.
    replace (S (length (P_Inputs e0)) - length (P_Inputs e0))%nat with 1%nat
      by lia.
    simpl. eexists. split; [reflexivity|]. simpl. split; [done|].
    rewrite insert_app_r_alt by lia.
    replace (S (length (P_Inputs e0)) - length (P_Inputs e0))%nat with 1%nat
      by lia.
    done.
  - destruct Hin as (-> & -> & -> & _).
    rewrite lookup_app_r, Nat.sub_diag by lia. simpl.
    rewrite insert_app_r_alt, Nat.sub_diag by lia. simpl.
    rewrite lookup_app_r, Nat.sub_diag by lia. simpl.
    eexists. split; [reflexivity|]. simpl. split; [done|].
    rewrite insert_app_r_alt, Nat.sub_diag by lia. done.
Qed.

End EgressFrame.

Lemma SendMsg_frame_witness :
  exists e' m',
    @Extio.SendMsg ExtioDemo.lib ExtioDemo.text ExtioDemo.blank
    = Extio.Sent true e' m' /\
    output_log_only ExtioDemo.text e'.
Proof.
  eexists _, _. split; [vm_compute; reflexivity|].
  refine (proj1 (@SendMsg_frame ExtioDemo.lib ExtioDemo.text _
                   ExtioDemo.blank _ true _)).
  vm_compute. reflexivity.
Defined.

Lemma OutputClose_after_Attach_witness :
  exists e1,
    @Extio.OutputClose ExtioDemo.lib ExtioDemo.text = Ok e1 /\
    Extio.OutputClose e1 = Ok e1.
Proof.
  destruct (@OutputClose_after_Attach ExtioDemo.lib (ExtioDemo.fresh ∅)
              ExtioDemo.text)
    as (e1 & cb & H1 & _ & _ & _ & H2);
    [vm_compute; reflexivity|vm_compute; reflexivity|].
  exists e1. split; [exact H1|exact H2].
Defined.

Lemma InputClose_after_Attach_witness :
  exists e1,
    @Extio.InputClose ExtioDemo.lib ExtioDemo.text = Ok e1 /\
    Extio.P_Inputs e1 = [[]].
Proof.
  destruct (@InputClose_after_Attach ExtioDemo.lib (ExtioDemo.fresh ∅)
              ExtioDemo.text)
    as (e1 & H1 & _ & H2);
    [vm_compute; reflexivity|vm_compute; reflexivity|].
  exists e1. split; [exact H1|exact H2].
Defined.

(** ** The external I/O adapter: what is skipped, and what ends a stream *)

Section IngressSkips.

Import Koanf Msg Extio.

Context {lib : Lib}.

(** A message whose type is not in a --type list that is not empty goes
    nowhere: ReadSingle returns nil, the adapter is as before, and the
    callback handed to ReadSingle has no say: the check answers false
    and leaves the message as it is, whatever the callback would do. *)
Theorem ReadSingle_type_filter (e : Extio) (data b : bytes) (m : Msg)
    (cb : option CallbackFunc) :
  ReadSingle_parse e data = Parsed b m None ->
  opt_type e <> [] -> ~ In (m_Type m) (opt_type e) ->
  ReadSingle e data cb = Ok e /\
  check e cb m = (false, m).
Proof.
  intros Hparse Hne Hnot.
  assert (checkMsg e m = (false, m)) as Hcheck.
  { unfold checkMsg.
    assert ((0 <? length (opt_type e))%nat = true) as ->.
    { destruct (opt_type e); [done|]. by apply Nat.ltb_lt; simpl; lia. }
    assert (type_listed (m_Type m) (opt_type e) = false) as ->; [|done].
    unfold type_listed. apply not_true_is_false. intros H.
    apply existsb_exists in H as (t & Hin & Ht).
    apply Z.eqb_eq in Ht. by subst. }
  assert (check e cb m = (false, m)) as Hc.
  { unfold check. destruct cb; by rewrite Hcheck. }
  split; [|done].
  unfold ReadSingle. destruct (opt_write e); [done|].
  rewrite Hparse. unfold ReadSingle_sail. by rewrite Hc.
Qed.

(** In MRT mode a record that holds no BGP message ([mrt.ErrSub]) is
    skipped whether or not --pardon is set: ReadSingle returns nil,
    nothing is logged and nothing is written. *)
Theorem ReadSingle_mrt_skips_sub (e : Extio) (data : bytes) (rd : MrtReader)
    (cb : option CallbackFunc) :
  opt_raw e = false -> opt_mrt e = true -> mrt e = Some rd ->
  (Mrt_FromBytes rd data GetMsg).2 = Some ErrSub ->
  ReadSingle e data cb = Ok e.
Proof.
  intros Hraw Hmrt Hrd Hsub. unfold ReadSingle, ReadSingle_parse.
  destruct (opt_write e); [done|]. rewrite Hraw, Hmrt, Hrd.
  destruct (Mrt_FromBytes rd data GetMsg) as [[m n] err]. simpl in Hsub.
  by subst err.
Qed.

(** In raw and in MRT mode ReadBuf never returns io.ErrUnexpectedEOF (a
    message cut short by the end of the buffer waits for more), returns
    no error at all under --pardon, logs exactly the error it returns,
    and leaves the line buffer alone. *)
Theorem ReadBuf_binary_errors (e e' : Extio) (data : bytes)
    (cb : option CallbackFunc) (err : error) :
  opt_write e = false -> opt_raw e = true \/ opt_mrt e = true ->
  ReadBuf e data cb = Err err e' ->
  opt_pardon e = false /\ err <> ErrUnexpectedEOF /\
  log e' = log e ++ [LogErr err "input read stream error"] /\
  buf e' = buf e.
Proof.
  intros Hw Hmode. unfold ReadBuf. rewrite Hw.
  assert (forall e1,
            log e1 = log e -> buf e1 = buf e ->
            opt_pardon e1 = opt_pardon e ->
            forall r, ReadBuf_result e1 r = Err err e' ->
            opt_pardon e = false /\ err <> ErrUnexpectedEOF /\
            log e' = log e ++ [LogErr err "input read stream error"] /\
            buf e' = buf e) as Hres.
  { intros e1 Hl Hb Hp [r|]; unfold ReadBuf_result; [|done].
    destruct (error_eqb r ErrUnexpectedEOF) eqn:Heq; [done|].
    rewrite Hp. destruct (opt_pardon e); [done|]. simpl.
    intros [= <- <-]. split; [done|]. split.
    - intros ->. by rewrite (proj2 (error_eqb_eq _ _) eq_refl) in Heq.
    - rewrite <- Hl, <- Hb. by destruct e1. }
  assert (forall i inp',
            log (set_P_Inputs (<[i:=inp']> (P_Inputs e)) e) = log e /\
            buf (set_P_Inputs (<[i:=inp']> (P_Inputs e)) e) = buf e /\
            opt_pardon (set_P_Inputs (<[i:=inp']> (P_Inputs e)) e)
            = opt_pardon e) as Hset by (intros; by destruct e).
  destruct (opt_raw e).
  - destruct (InputD e) as [i|]; [|done].
    destruct (P_Inputs e !! i) as [inp|]; [|done].
    destruct (WriteFunc inp data (check e cb)) as [inp' r].
    destruct (Hset i inp') as (? & ? & ?). by apply Hres.
  - destruct Hmode as [?|Hm]; [done|]. rewrite Hm.
    destruct (mrt e) as [rd|]; [|done].
    destruct (mr_Input rd) as [i|]; [|done].
    destruct (P_Inputs e !! i) as [inp|]; [|done].
    destruct (Mrt_WriteFunc rd inp data (check e cb)) as [inp' r].
    destruct (Hset i inp') as (? & ? & ?). by apply Hres.
Qed.

(** ReadStream returns nil only when its reader reports io.EOF: with a
    reader that never does, it returns an error, panics, or goes on
    reading. *)
Theorem ReadStream_nil_at_EOF (fuel : nat) (rd : reader) (e e' : Extio)
    (cb : option CallbackFunc) (tr : list (Z * Z)) :
  (forall rd l, (Read rd l).2 <> Some EOF) ->
  ReadStream fuel rd e cb <> (tr, Some (Ok e')).
Proof.
  intros Hrd. unfold ReadStream. generalize (64 * 1024). revert rd e tr.
  induction fuel as [|fuel IH]; intros rd e tr l; simpl; [done|].
  unfold ReadStream_turn. specialize (Hrd rd l) as Hnow.
  destruct (Read rd l) as [[rd' data] err]. simpl in Hnow.
  destruct (l <? Z.of_nat (length data)); [done|].
  destruct (if 0 <? Z.of_nat (length data) then ReadBuf e data cb else Ok e)
    as [e1|err1 e1|why]; [|done..].
  destruct err as [err|].
  - destruct (error_eqb err EOF) eqn:Heq; [|done].
    apply error_eqb_eq in Heq. by subst.
  - destruct (_ && _).
    + specialize (IH rd' e1). destruct (ReadStream_loop fuel rd' e1 cb (l * 2))
        as [tr' r] eqn:Hl. intros [= <- ->]. by eapply IH.
    + specialize (IH rd' e1). destruct (ReadStream_loop fuel rd' e1 cb l)
        as [tr' r] eqn:Hl. intros [= <- ->]. by eapply IH.
Qed.

End IngressSkips.

Lemma ReadSingle_type_filter_witness :
  @Extio.ReadSingle ExtioPicky.lib ExtioPicky.updates_only
    (list_byte_of_string "[]") None
  = Ok ExtioPicky.updates_only.
Proof.
  refine (proj1 (@ReadSingle_type_filter ExtioPicky.lib
                   ExtioPicky.updates_only (list_byte_of_string "[]")
                   (list_byte_of_string "[]")
                   (Extio.Use Extio.KEEPALIVE Extio.GetMsg) None _ _ _)).
  - vm_compute. reflexivity.
  - vm_compute. discriminate.
  - vm_compute. intros [H|[]]. discriminate H.
Defined.

Lemma ReadSingle_mrt_skips_sub_witness :
  @Extio.ReadSingle ExtioPicky.lib ExtioPicky.mrt_in [] None
  = Ok ExtioPicky.mrt_in.
Proof.
  apply (@ReadSingle_mrt_skips_sub ExtioPicky.lib ExtioPicky.mrt_in []
           (Extio.mkMrtReader (Some 0%nat) false) None);
    vm_compute; reflexivity.
Defined.

Lemma ReadBuf_binary_errors_witness :
  exists e',
    @Extio.ReadBuf ExtioPicky.lib ExtioPicky.raw_in ["001"%byte] None
    = Err (Extio.ErrLib "bad marker") e' /\
    Extio.buf e' = [].
Proof.
  eexists. split; [vm_compute; reflexivity|].
  refine (proj2 (proj2 (proj2
            (@ReadBuf_binary_errors ExtioPicky.lib ExtioPicky.raw_in _
               ["001"%byte] None (Extio.ErrLib "bad marker") _ _ _)))).
  - vm_compute. reflexivity.
  - left. vm_compute. reflexivity.
  - vm_compute. reflexivity.
Defined.

Lemma ReadStream_nil_at_EOF_witness :
  ~ exists tr e',
      @Extio.ReadStream ExtioDemo.lib 3 ExtioDemo.full_reader ExtioDemo.text
        None
      = (tr, Some (Ok e')).
Proof.
  intros (tr & e' & H). revert H.
  apply (@ReadStream_nil_at_EOF ExtioDemo.lib).
  intros rd l. simpl. discriminate.
Defined.

(** ** Adding stages *)

Section AddStageProperties.

Import Koanf Bgpipe.

Variable NewStage : Bgpipe -> string -> option StageBase.

Local Abbreviation AddStage := (Bgpipe.AddStage NewStage).

Lemma new_ptr_fresh (b : Bgpipe) : heap b !! new_ptr b = None.
Proof. apply not_elem_of_dom. unfold new_ptr. apply is_fresh. Qed.

Lemma slot_for_spec (b : Bgpipe) (idx : Z) :
  (if idx <=? 0 then Z.max 1 (Z.of_nat (length (Stages b))) else idx)
  = Z.of_nat (slot_for b idx) /\ (0 < slot_for b idx)%nat.
Proof.
  unfold slot_for. destruct (idx <=? 0) eqn:E.
  - lia.
  - apply Z.leb_gt in E. lia.
Qed.

Lemma lookup_pad_stages (idx : Z) (stages : list (option ptr)) (j : nat) :
  pad_stages idx stages !! j
  = if (j <? length stages)%nat then stages !! j
    else if (Z.of_nat j <=? idx) then Some None else None.
Proof.
  unfold pad_stages. destruct (j <? length stages)%nat eqn:E.
  - apply Nat.ltb_lt in E. by rewrite lookup_app_l.
  - apply Nat.ltb_ge in E. rewrite lookup_app_r by done.
    destruct (Z.of_nat j <=? idx) eqn:E2.
    + apply Z.leb_le in E2. apply lookup_replicate_2. lia.
    + apply Z.leb_gt in E2. apply lookup_replicate_None. lia.
Qed.

Lemma length_pad_stages (idx : Z) (stages : list (option ptr)) :
  0 <= idx ->
  length (pad_stages idx stages) = Nat.max (length stages) (S (Z.to_nat idx)).
Proof.
  intros Hidx. unfold pad_stages. rewrite length_app, length_replicate. lia.
Qed.

(** What AddStage returns, case by case. *)
Lemma AddStage_inv (b : Bgpipe) (idx : Z) (cmd : string) :
  let n := slot_for b idx in
  match AddStage b idx cmd with
  | Ok (r, b') =>
      exists s, r = Some s /\
        ((b' = b /\ Stages b !! n = Some (Some s) /\
          exists st, heap b !! s = Some st /\ Cmd st = cmd) \/
         (mjoin (Stages b !! n) = None /\ s = new_ptr b /\
          exists st, NewStage b cmd = Some st /\
            b' = set_heap (<[s := set_Index (Z.of_nat n) st]> (heap b))
                   (set_Stages
                      (<[n := Some s]> (pad_stages (Z.of_nat n) (Stages b)))
                      b)))
  | Err err (r, b') =>
      r = None /\ b' = b /\
      ((err = ErrStageDiff /\
        exists s st, Stages b !! n = Some (Some s) /\
                     heap b !! s = Some st /\ Cmd st <> cmd) \/
       (err = ErrStageCmd /\ mjoin (Stages b !! n) = None /\
        NewStage b cmd = None))
  | Panic _ =>
      exists s, Stages b !! n = Some (Some s) /\ heap b !! s = None
  end.
Proof.
  intros n. unfold Bgpipe.AddStage.
  destruct (slot_for_spec b idx) as [-> Hpos]. fold n in Hpos |- *.
  rewrite Nat2Z.id.
  assert ((if Z.of_nat n <? Z.of_nat (length (Stages b))
           then mjoin (Stages b !! n) else None) = mjoin (Stages b !! n))
    as ->.
  { destruct (Z.of_nat n <? Z.of_nat (length (Stages b))) eqn:E; [done|].
    apply Z.ltb_ge in E. rewrite lookup_ge_None_2; [done|lia]. }
  destruct (Stages b !! n) as [[s|]|] eqn:Hn; simpl.
  - destruct (heap b !! s) as [st|] eqn:Hs; [|by exists s].
    destruct (String.eqb (Cmd st) cmd) eqn:Hc.
    + apply String.eqb_eq in Hc. exists s. split; [done|]. left.
      split; [done|]. split; [done|]. by exists st.
    + apply String.eqb_neq in Hc. split; [done|]. split; [done|]. left.
      split; [done|]. by exists s, st.
  - destruct (NewStage b cmd) as [st|] eqn:Hnew.
    + exists (new_ptr b). split; [done|]. right.
      split; [done|]. split; [done|]. by exists st.
    + split; [done|]. split; [done|]. by right.
  - destruct (NewStage b cmd) as [st|] eqn:Hnew.
    + exists (new_ptr b). split; [done|]. right.
      split; [done|]. split; [done|]. by exists st.
    + split; [done|]. split; [done|]. by right.
Qed.

(** AddStage, when it returns a stage. *)
Lemma AddStage_ok (b b' : Bgpipe) (idx : Z) (cmd : string)
    (r : option ptr) :
  stages_wf b -> AddStage b idx cmd = Ok (r, b') ->
  let n := slot_for b idx in
  stages_wf b' /\ (0 < n)%nat /\
  (exists s st, r = Some s /\ Stages b' !! n = Some (Some s) /\
                heap b' !! s = Some st /\ Index st = Z.of_nat n) /\
  length (Stages b') = Nat.max (length (Stages b)) (S n) /\
  (forall j, j <> n -> (j < length (Stages b))%nat ->
     Stages b' !! j = Stages b !! j) /\
  (forall j, j <> n -> (length (Stages b) <= j)%nat ->
     mjoin (Stages b' !! j) = None) /\
  (forall p st0, heap b !! p = Some st0 -> heap b' !! p = Some st0) /\
  B_K b' = B_K b /\ P_Options b' = P_Options b.
Proof.
  intros Hwf H n. pose proof (AddStage_inv b idx cmd) as Hinv.
  rewrite H in Hinv. fold n in Hinv.
  destruct (slot_for_spec b idx) as [_ Hpos]. fold n in Hpos.
  destruct Hinv as (s & -> & [(-> & Hn & st & Hs & Hc)|
                              (Hn & Hs & st & Hnew & ->)]).
  - destruct Hwf as [Hwf1 Hwf2].
    destruct (Hwf1 n s Hn) as (_ & st' & Hs' & Hidx).
    split; [done|]. split; [done|]. split; [by exists s, st'|].
    apply lookup_lt_Some in Hn as Hlt.
    split; [lia|]. split; [done|]. split; [|done].
    intros j _ Hj. by rewrite lookup_ge_None_2.
  - pose proof (new_ptr_fresh b) as Hfresh. rewrite <- Hs in Hfresh.
    destruct Hwf as [Hwf1 Hwf2].
    assert (length (pad_stages (Z.of_nat n) (Stages b))
            = Nat.max (length (Stages b)) (S n)) as Hlen.
    { rewrite length_pad_stages by lia. by rewrite Nat2Z.id. }
    assert (forall j p,
              <[n := Some s]> (pad_stages (Z.of_nat n) (Stages b)) !! j
              = Some (Some p) ->
              (j = n /\ p = s) \/ (j <> n /\ Stages b !! j = Some (Some p)))
      as Hslots.
    { intros j p Hj. destruct (decide (j = n)) as [->|Hne].
      - rewrite list_lookup_insert_eq in Hj by (rewrite Hlen; lia).
        left. split; [done|]. congruence.
      - rewrite list_lookup_insert_ne in Hj by done.
        rewrite lookup_pad_stages in Hj. right. split; [done|].
        destruct (j <? length (Stages b))%nat; [done|].
        by destruct (Z.of_nat j <=? Z.of_nat n). }
    assert (forall p st0, heap b !! p = Some st0 ->
              <[s := set_Index (Z.of_nat n) st]> (heap b) !! p = Some st0)
      as Hold.
    { intros p st0 Hp. rewrite lookup_insert_ne; [done|]. congruence. }
    simpl. split; [|split; [done|split; [|split; [|split; [|split]]]]].
    + split; simpl.
      * intros i p Hi. destruct (Hslots i p Hi) as [[-> ->]|[Hne Hi']].
        -- split; [done|]. eexists. rewrite lookup_insert_eq. done.
        -- destruct (Hwf1 i p Hi') as (Hi0 & st0 & Hp & Hidx).
           split; [done|]. exists st0. split; [by apply Hold|done].
      * intros i j p Hi Hj.
        destruct (Hslots i p Hi) as [[Hi1 Hp1]|[Hne Hi']],
                 (Hslots j p Hj) as [[Hj1 Hp2]|[Hne' Hj']].
        -- congruence.
        -- subst p. destruct (Hwf1 j s Hj') as (_ & st0 & Hp & _).
           congruence.
        -- subst p. destruct (Hwf1 i s Hi') as (_ & st0 & Hp & _).
           congruence.
        -- by eapply Hwf2.
    + exists s, (set_Index (Z.of_nat n) st). split; [done|].
      split; [by rewrite list_lookup_insert_eq by (rewrite Hlen; lia)|].
      split; [by rewrite lookup_insert_eq|done].
    + by rewrite length_insert.
    + intros j Hne Hj. rewrite list_lookup_insert_ne by done.
      rewrite lookup_pad_stages.
      by apply Nat.ltb_lt in Hj as ->.
    + intros j Hne Hj. rewrite list_lookup_insert_ne by done.
      rewrite lookup_pad_stages.
      apply Nat.ltb_ge in Hj as ->.
      by destruct (Z.of_nat j <=? Z.of_nat n).
    + by split.
Qed.

(** AddStage keeps the stage list well formed.  When it returns a stage,
    the stage sits in the slot asked for (the end of the list for an
    index that is not positive) and carries that index; no other slot
    that was there has changed, slots added before it are nil, the list
    is as long as needed and no longer, and every stage that was
    allocated is as it was. *)
Theorem AddStage_slot (b b' : Bgpipe) (idx : Z) (cmd : string)
    (r : option ptr) :
  stages_wf b -> AddStage b idx cmd = Ok (r, b') ->
  let n := slot_for b idx in
  stages_wf b' /\ (0 < n)%nat /\
  (exists s st, r = Some s /\ Stages b' !! n = Some (Some s) /\
                heap b' !! s = Some st /\ Index st = Z.of_nat n) /\
  length (Stages b') = Nat.max (length (Stages b)) (S n) /\
  (forall j, j <> n -> (j < length (Stages b))%nat ->
     Stages b' !! j = Stages b !! j) /\
  (forall j, j <> n -> (length (Stages b) <= j)%nat ->
     mjoin (Stages b' !! j) = None) /\
  (forall p st0, heap b !! p = Some st0 -> heap b' !! p = Some st0).
Proof.
  intros Hwf H n. destruct (AddStage_ok b b' idx cmd r Hwf H)
    as (H1 & H2 & H3 & H4 & H5 & H6 & H7 & _).
  exact (conj H1 (conj H2 (conj H3 (conj H4 (conj H5 (conj H6 H7)))))).
Qed.

(** AddStage returns the stage it created when asked again for the same
    positive index and command, and changes nothing then. *)
Theorem AddStage_again (b b' : Bgpipe) (idx : Z) (cmd : string) (s : ptr) :
  (forall b0 c st, NewStage b0 c = Some st -> Cmd st = c) ->
  0 < idx -> AddStage b idx cmd = Ok (Some s, b') ->
  AddStage b' idx cmd = Ok (Some s, b').
Proof.
  intros Hcmd Hidx H. pose proof (AddStage_inv b idx cmd) as Hinv.
  rewrite H in Hinv.
  assert (forall b0, slot_for b0 idx = Z.to_nat idx) as Hslot.
  { intros b0. unfold slot_for.
    destruct (idx <=? 0) eqn:E; [apply Z.leb_le in E; lia|done]. }
  rewrite Hslot in Hinv.
  destruct Hinv as (s' & [= <-] & [(-> & _)|(Hn & Hs & st & Hnew & ->)]);
    [done|].
  set (b1 := set_heap (<[s := set_Index (Z.of_nat (Z.to_nat idx)) st]>
                         (heap b))
               (set_Stages
                  (<[Z.to_nat idx := Some s]>
                     (pad_stages (Z.of_nat (Z.to_nat idx)) (Stages b)))
                  b)).
  assert (Stages b1 !! Z.to_nat idx = Some (Some s)) as Hlook.
  { subst b1. simpl. apply list_lookup_insert_eq.
    rewrite length_pad_stages by lia. lia. }
  assert (heap b1 !! s = Some (set_Index (Z.of_nat (Z.to_nat idx)) st))
    as Hheap.
  { subst b1. simpl. by rewrite lookup_insert_eq. }
  pose proof (AddStage_inv b1 idx cmd) as Hinv2.
  cbv zeta in Hinv2. rewrite Hslot, Hlook in Hinv2. clearbody b1.
  destruct (AddStage b1 idx cmd) as [[r b2]|err [r b2]|why].
  - destruct Hinv2 as (s2 & -> & [(-> & [= <-] & _)|(Hbad & _)]); done.
  - destruct Hinv2 as (_ & _ & [(_ & s2 & st2 & [= <-] & Hs2 & Hne)|
                                (_ & Hbad & _)]); [|done].
    rewrite Hheap in Hs2. injection Hs2 as <-.
    exfalso. apply Hne. simpl. by apply (Hcmd b).
  - destruct Hinv2 as (s2 & [= <-] & Hs2). by rewrite Hheap in Hs2.
Qed.

(** Asked for an index that is not positive, AddStage appends: it never
    returns a stage that was there, never reports a different command,
    and the new stage is the last slot of the list, which for an empty
    list is slot 1 after a nil slot 0. *)
Theorem AddStage_append (b : Bgpipe) (idx : Z) (cmd : string) :
  idx <= 0 ->
  match AddStage b idx cmd with
  | Ok (r, b') =>
      r = Some (new_ptr b) /\ heap b !! new_ptr b = None /\
      Stages b' = (match Stages b with
                   | [] => [None; Some (new_ptr b)]
                   | _ => Stages b ++ [Some (new_ptr b)]
                   end)
  | Err err (r, b') => err = ErrStageCmd /\ NewStage b cmd = None
  | Panic _ => False
  end.
Proof.
  intros Hidx. pose proof (AddStage_inv b idx cmd) as Hinv.
  assert (slot_for b idx = Nat.max 1 (length (Stages b))) as Hslot.
  { unfold slot_for. by apply Z.leb_le in Hidx as ->. }
  cbv zeta in Hinv. rewrite Hslot in Hinv.
  assert (Stages b !! Nat.max 1 (length (Stages b)) = None) as Hnone.
  { apply lookup_ge_None_2. lia. }
  rewrite Hnone in Hinv.
  destruct (AddStage b idx cmd) as [[r b']|err [r b']|why].
  - destruct Hinv as (s & -> & [(_ & ? & _)|(_ & -> & st & _ & ->)]);
      [done|].
    split; [done|]. split; [apply new_ptr_fresh|]. simpl.
    unfold pad_stages. destruct (Stages b) as [|x l]; simpl; [done|].
    replace (Nat.max 1 (S (length l))) with (S (length l)) by lia.
    replace (Z.to_nat (Z.of_nat (S (length l)) + 1
                       - Z.of_nat (S (length l)))) with 1%nat by lia.
    simpl. f_equal.
    replace (length l) with (length l + 0)%nat at 1 by lia.
    by rewrite insert_app_r.
  - destruct Hinv as (_ & _ & [(_ & s & st & ? & _)|(-> & _ & ->)]); done.
  - by destruct Hinv as (s & ? & _).
Qed.

End AddStageProperties.

Lemma stages_wf_empty : stages_wf DemoArgs.empty.
Proof. split; intros; done. Qed.

Lemma AddStage_slot_witness :
  exists b',
    Bgpipe.AddStage DemoArgs.new_stage DemoArgs.empty 3 "tcp"
    = Ok (Some 0%nat, b') /\
    length (Bgpipe.Stages b') = 4%nat.
Proof.
  eexists. split; [vm_compute; reflexivity|].
  refine (proj1 (proj2 (proj2 (proj2
            (AddStage_slot DemoArgs.new_stage DemoArgs.empty _ 3 "tcp"
               (Some 0%nat) stages_wf_empty _))))).
  vm_compute. reflexivity.
Defined.

Lemma AddStage_again_witness :
  exists b',
    Bgpipe.AddStage DemoArgs.new_stage DemoArgs.empty 3 "tcp"
    = Ok (Some 0%nat, b') /\
    Bgpipe.AddStage DemoArgs.new_stage b' 3 "tcp" = Ok (Some 0%nat, b').
Proof.
  eexists. split; [vm_compute; reflexivity|].
  apply (AddStage_again DemoArgs.new_stage DemoArgs.empty).
  - intros b0 c st. unfold DemoArgs.new_stage.
    destruct (_ || _); [|done]. by intros [= <-].
  - lia.
  - vm_compute. reflexivity.
Defined.

Lemma AddStage_append_witness :
  match Bgpipe.AddStage DemoArgs.new_stage DemoArgs.empty 0 "tcp" with
  | Ok (_, b') => Bgpipe.Stages b' = [None; Some 0%nat]
  | _ => False
  end.
Proof.
  pose proof (AddStage_append DemoArgs.new_stage DemoArgs.empty 0 "tcp") as H.
  assert (0 <= 0) as H0 by lia. specialize (H H0).
  destruct (Bgpipe.AddStage DemoArgs.new_stage DemoArgs.empty 0 "tcp")
    as [[r b']|err [r b']|why] eqn:E.
  - destruct H as (_ & _ & ->). vm_compute. reflexivity.
  - vm_compute in E. discriminate E.
  - exact H.
Defined.

(** ** Parsing the command line *)

Section ParseArgsProperties.

Import Koanf Bgpipe.

Variable NewStage : Bgpipe -> string -> option StageBase.
Variable IsAddr : string -> bool.
Variable IsFile : string -> bool.
Variable Args : StageBase -> option (list string).
Variable Flags_Parse : StageBase -> list string
                       -> error + (koanf * list string).

Local Abbreviation AddStage := (Bgpipe.AddStage NewStage).
Local Abbreviation Stage_parseArgs :=
  (Bgpipe.Stage_parseArgs Args Flags_Parse).
Local Abbreviation parseArgs_loop :=
  (Bgpipe.parseArgs_loop NewStage IsAddr IsFile Args Flags_Parse).
Local Abbreviation parseArgs :=
  (Bgpipe.parseArgs NewStage IsAddr IsFile Args Flags_Parse).

Lemma set_K_set_K (k1 k2 : koanf) (st : StageBase) :
  set_K k1 (set_K k2 st) = set_K k1 st.
Proof. by destruct st. Qed.

Lemma set_K_K (st : StageBase) : set_K (K st) st = st.
Proof. by destruct st. Qed.

Lemma K_set_K (k : koanf) (st : StageBase) : K (set_K k st) = k.
Proof. by destruct st. Qed.

(** The loop over the names binds each name to the argument of its
    position. *)
Lemma parseArgs_names_ok (names : list string) :
  forall (sargs : list string) (st : StageBase),
    (length names <= length sargs)%nat ->
    Forall (fun a => a <> "--") (take (length names) sargs) ->
    NoDup names ->
    exists st',
      parseArgs_names names sargs st = Ok (drop (length names) sargs, st') /\
      st' = set_K (K st') st /\
      (forall i name a, names !! i = Some name -> sargs !! i = Some a ->
         K st' !! name = Some (KString a)) /\
      (forall key, key ∉ names -> K st' !! key = K st !! key).
Proof.
  induction names as [|name names IH]; intros sargs st Hlen Hno Hdup; simpl.
  { exists st. split; [done|]. split; [by rewrite set_K_K|]. by split. }
  destruct sargs as [|a rest]; [simpl in Hlen; lia|].
  simpl in Hlen, Hno. apply Forall_cons in Hno as [Ha Hno].
  apply NoDup_cons in Hdup as [Hname Hdup].
  rewrite (proj2 (String.eqb_neq a "--")) by done.
  destruct (IH rest (set_K (K_Set (K st) name (KString a)) st))
    as (st' & Hrun & Hst & Hbound & Hother); [lia|done|done|].
  exists st'. split; [done|]. split; [|split].
  - rewrite Hst at 1. by rewrite set_K_set_K.
  - intros [|i] name' a' Hn Ha'; simpl in Hn, Ha'.
    + injection Hn as <-. injection Ha' as <-.
      rewrite Hother by done. unfold K_Set.
      rewrite K_set_K. by rewrite lookup_insert_eq.
    + by eapply Hbound.
  - intros key Hkey. apply not_elem_of_cons in Hkey as [Hne Hkey].
    rewrite Hother by done. unfold K_Set.
    rewrite K_set_K. by rewrite lookup_insert_ne.
Qed.

(** The loop stops at the first name that has no argument. *)
Lemma parseArgs_names_stop (names : list string) :
  forall (sargs : list string) (st : StageBase) (i : nat) (name : string),
    names !! i = Some name ->
    (i <= length sargs)%nat ->
    Forall (fun a => a <> "--") (take i sargs) ->
    sargs !! i = None \/ sargs !! i = Some "--" ->
    exists st',
      parseArgs_names names sargs st
      = Err (needs_argument name) (drop i sargs, st') /\
      st' = set_K (K st') st.
Proof.
  induction names as [|name0 names IH];
    intros sargs st i name Hi Hlen Hno Hend; [done|].
  destruct i as [|i]; simpl in Hi.
  - injection Hi as ->. simpl. exists st. rewrite set_K_K.
    destruct sargs as [|a rest]; [done|].
    destruct Hend as [?|[= ->]]; done.
  - destruct sargs as [|a rest]; [simpl in Hlen; lia|].
    simpl in Hlen, Hno, Hend. apply Forall_cons in Hno as [Ha Hno].
    simpl. rewrite (proj2 (String.eqb_neq a "--")) by done.
    destruct (IH rest (set_K (K_Set (K st) name0 (KString a)) st) i name)
      as (st' & Hrun & Hst); [done|lia|done|done|].
    exists st'. split; [done|]. rewrite Hst at 1. by rewrite set_K_set_K.
Qed.

Lemma parseArgs_names_K (names : list string) :
  forall (sargs : list string) (st : StageBase),
    match parseArgs_names names sargs st with
    | Ok (_, st') | Err _ (_, st') => st' = set_K (K st') st
    | Panic _ => False
    end.
Proof.
  induction names as [|name names IH]; intros sargs st; simpl.
  { by rewrite set_K_K. }
  destruct sargs as [|a rest]; [by rewrite set_K_K|].
  destruct (String.eqb a "--"); [by rewrite set_K_K|].
  specialize (IH rest (set_K (K_Set (K st) name (KString a)) st)).
  destruct (parseArgs_names names rest _) as [[u st']|err [u st']|];
    [| |done]; rewrite IH at 1; by rewrite set_K_set_K.
Qed.

(** StageBase.parseArgs changes nothing of the stage but its store, and
    does not panic. *)
Lemma Stage_parseArgs_K (st : StageBase) (args : list string) :
  match Stage_parseArgs st args with
  | Ok (_, st') | Err _ (_, st') => st' = set_K (K st') st
  | Panic _ => False
  end.
Proof.
  unfold Bgpipe.Stage_parseArgs.
  destruct (Flags_Parse st args) as [err|[k sargs]]; [by rewrite set_K_K|].
  destruct (Args (set_K k st)) as [[|name names]|].
  - by rewrite K_set_K, set_K_set_K.
  - pose proof (parseArgs_names_K (name :: names) sargs (set_K k st)) as H.
    destruct (parseArgs_names (name :: names) sargs (set_K k st))
      as [[u st']|err [u st']|]; [| |done];
      rewrite H at 1; by rewrite set_K_set_K.
  - by rewrite K_set_K.
Qed.

(** When the flags parse and every positional name finds an argument
    before any "--", StageBase.parseArgs returns nil: each name is bound
    in the stage's store to the argument of its position, no other key
    of the store the flags left is touched, nothing else of the stage
    changes, and what is returned unused is what follows the named
    arguments, less one leading "--". *)
Theorem Stage_parseArgs_binds (st : StageBase) (args sargs : list string)
    (k : koanf) (names : list string) :
  Flags_Parse st args = inr (k, sargs) ->
  Args (set_K k st) = Some names -> names <> [] -> NoDup names ->
  (length names <= length sargs)%nat ->
  Forall (fun a => a <> "--") (take (length names) sargs) ->
  exists st',
    Stage_parseArgs st args
    = Ok (drop_dashes (drop (length names) sargs), st') /\
    st' = set_K (K st') st /\
    (forall i name a, names !! i = Some name -> sargs !! i = Some a ->
       K st' !! name = Some (KString a)) /\
    (forall key, key ∉ names -> K st' !! key = k !! key).
Proof.
  intros Hparse Hargs Hne Hdup Hlen Hno.
  unfold Bgpipe.Stage_parseArgs. rewrite Hparse, Hargs.
  destruct (parseArgs_names_ok names sargs (set_K k st) Hlen Hno Hdup)
    as (st' & Hrun & Hst & Hbound & Hother).
  destruct names as [|name names]; [done|]. rewrite Hrun.
  exists st'. split; [done|]. split; [|split; [done|]].
  - rewrite Hst at 1. by rewrite set_K_set_K.
  - intros key Hkey. rewrite Hother by done. by rewrite K_set_K.
Qed.

(** When a positional name finds no argument, the arguments having run
    out or a "--" standing in its place, StageBase.parseArgs returns the
    error that names it, together with the arguments from that place on
    as unused, the "--" included. *)
Theorem Stage_parseArgs_missing (st : StageBase) (args sargs : list string)
    (k : koanf) (names : list string) (i : nat) (name : string) :
  Flags_Parse st args = inr (k, sargs) ->
  Args (set_K k st) = Some names -> names !! i = Some name ->
  (i <= length sargs)%nat ->
  Forall (fun a => a <> "--") (take i sargs) ->
  sargs !! i = None \/ sargs !! i = Some "--" ->
  exists st',
    Stage_parseArgs st args = Err (needs_argument name) (drop i sargs, st') /\
    st' = set_K (K st') st.
Proof.
  intros Hparse Hargs Hi Hlen Hno Hend.
  unfold Bgpipe.Stage_parseArgs. rewrite Hparse, Hargs.
  destruct (parseArgs_names_stop names sargs (set_K k st) i name
              Hi Hlen Hno Hend) as (st' & Hrun & Hst).
  destruct names as [|name0 names]; [done|]. rewrite Hrun.
  exists st'. split; [done|]. rewrite Hst at 1. by rewrite set_K_set_K.
Qed.

Lemma stages_wf_store (b : Bgpipe) (s : ptr) (st st' : StageBase) :
  stages_wf b -> heap b !! s = Some st -> Index st' = Index st ->
  stages_wf (store s st' b).
Proof.
  intros [Hwf1 Hwf2] Hs Hidx. split; simpl.
  - intros i p Hi. destruct (Hwf1 i p Hi) as (Hpos & st0 & Hp & Hi0).
    split; [done|]. destruct (decide (p = s)) as [->|Hne].
    + exists st'. rewrite lookup_insert_eq. split; [done|]. congruence.
    + exists st0. by rewrite lookup_insert_ne.
  - exact Hwf2.
Qed.

(** The loop of Bgpipe.parseArgs keeps the stage list well formed and
    does not panic. *)
Lemma parseArgs_loop_wf (fuel : nat) :
  forall (idx : Z) (args : list string) (b : Bgpipe)
         (r : outcome error Bgpipe),
    stages_wf b -> parseArgs_loop fuel idx args b = Some r ->
    match r with
    | Ok b' | Err _ b' => stages_wf b'
    | Panic _ => False
    end.
Proof.
  induction fuel as [|fuel IH]; intros idx args b r Hwf; simpl; [done|].
  destruct args as [|a0 rest]; [by intros [= <-]|].
  destruct (String.eqb a0 "--"); [by apply IH|].
  assert (forall cmd args',
            match AddStage b idx cmd with
            | Panic why => Some (Panic why)
            | Err err (_, b0) => Some (Err err b0)
            | Ok (None, _) => Some (Panic "nil pointer dereference")
            | Ok (Some s, b0) =>
                let '(args0, nextargs) := split_dashes args' in
                match heap b0 !! s with
                | None => Some (Panic "nil pointer dereference")
                | Some st =>
                    match Stage_parseArgs st args0 with
                    | Panic why => Some (Panic why)
                    | Err err (_, st0) => Some (Err err (store s st0 b0))
                    | Ok (remargs, st0) =>
                        parseArgs_loop fuel (idx + 1) (remargs ++ nextargs)
                          (store s st0 b0)
                    end
                end
            end = Some r ->
            match r with
            | Ok b' | Err _ b' => stages_wf b'
            | Panic _ => False
            end) as Hturn.
  { intros cmd args'.
    pose proof (AddStage_inv NewStage b idx cmd) as Hinv.
    pose proof (AddStage_ok NewStage b) as Hok.
    destruct (AddStage b idx cmd) as [[res b0]|err [res b0]|why] eqn:E.
    - destruct (Hok b0 idx cmd res Hwf E)
        as (Hwf0 & _ & (s & st & -> & _ & Hs & _) & _).
      destruct (split_dashes args') as [args0 nextargs]. rewrite Hs.
      pose proof (Stage_parseArgs_K st args0) as HK.
      destruct (Stage_parseArgs st args0) as [[u st0]|err [u st0]|];
        [| |done].
      + intros H. apply IH in H; [done|].
        eapply stages_wf_store; [done..|]. rewrite HK. by destruct st.
      + intros [= <-]. eapply stages_wf_store; [done..|].
        rewrite HK. by destruct st.
    - destruct Hinv as (_ & -> & _). by intros [= <-].
    - destruct Hinv as (s & Hn & Hs). destruct Hwf as [Hwf1 _].
      destruct (Hwf1 _ _ Hn) as (_ & st & Hst & _). congruence. }
  destruct (IsAddr a0); [apply Hturn|].
  destruct (IsFile a0); apply Hturn.
Qed.

(** Bgpipe.parseArgs on a well-formed stage list does not panic, and
    whether it returns nil or an error it leaves a well-formed list: slot
    0 is nil, every stage carries the index of its slot, and no stage
    sits in two slots. *)
Theorem parseArgs_wf (fuel : nat) (args : list string) (b : Bgpipe)
    (r : outcome error Bgpipe) :
  stages_wf b -> parseArgs fuel args b = Some r ->
  match r with
  | Ok b' | Err _ b' => stages_wf b'
  | Panic _ => False
  end.
Proof. apply parseArgs_loop_wf. Qed.

Lemma split_dashes_app (a rest : list string) :
  Forall (fun x => x <> "--") a ->
  split_dashes (a ++ "--" :: rest) = (a, rest).
Proof.
  induction a as [|x a IH]; intros Ha; simpl; [done|].
  apply Forall_cons in Ha as [Hx Ha].
  rewrite (proj2 (String.eqb_neq x "--")) by done. by rewrite IH.
Qed.

(** Bgpipe.parseArgs counts its turns from 0 and asks AddStage for the
    slot of the turn.  On an empty pipeline the command of turn 0 is
    appended, which puts it in slot 1; when its arguments end at a "--"
    and none is left unused, the command after the "--" is that of turn
    1 and is looked up in slot 1 as well: being a different command, it
    is refused with ErrStageDiff, the pipeline holding the first stage
    only. *)
Theorem parseArgs_second_command (b : Bgpipe) (c1 c2 : string)
    (a1 rest : list string) (st1 st1' : StageBase) (fuel : nat) :
  Stages b = [] ->
  c1 <> "--" -> IsAddr c1 = false -> IsFile c1 = false ->
  c2 <> "--" -> IsAddr c2 = false -> IsFile c2 = false ->
  Forall (fun x => x <> "--") a1 ->
  NewStage b c1 = Some st1 ->
  Stage_parseArgs (set_Index 1 st1) a1 = Ok ([], st1') ->
  Cmd st1 <> c2 ->
  parseArgs (S (S fuel)) (c1 :: a1 ++ "--" :: c2 :: rest) b
  = Some (Err ErrStageDiff
            (set_heap (<[new_ptr b := st1']> (heap b))
               (set_Stages [None; Some (new_ptr b)] b))).
Proof.
  intros Hempty Hc1 Ha1 Hf1 Hc2 Ha2 Hf2 Hno Hnew Hparse Hdiff.
  unfold Bgpipe.parseArgs. cbn [Bgpipe.parseArgs_loop].
  rewrite (proj2 (String.eqb_neq c1 "--")) by done. rewrite Ha1, Hf1.
  assert (AddStage b 0 c1
          = Ok (Some (new_ptr b),
                set_heap (<[new_ptr b := set_Index 1 st1]> (heap b))
                  (set_Stages [None; Some (new_ptr b)] b))) as ->.
  { unfold Bgpipe.AddStage. rewrite Hempty. simpl. by rewrite Hnew. }
  rewrite split_dashes_app by done.
  cbn [heap set_heap set_Stages]. rewrite lookup_insert_eq, Hparse.
  cbn [app]. rewrite (proj2 (String.eqb_neq c2 "--")) by done.
  rewrite Ha2, Hf2.
  pose proof (Stage_parseArgs_K (set_Index 1 st1) a1) as HK.
  rewrite Hparse in HK.
  assert (Cmd st1' = Cmd st1) as Hcmd by (rewrite HK; by destruct st1).
  unfold Bgpipe.AddStage, store. simpl.
  rewrite lookup_insert_eq. rewrite insert_insert_eq.
  rewrite (proj2 (String.eqb_neq (Cmd st1') c2)) by congruence.
  done.
Qed.

End ParseArgsProperties.

Lemma Stage_parseArgs_binds_witness :
  exists st',
    Bgpipe.Stage_parseArgs DemoArgs.args_of DemoArgs.flags_parse
      (Demo.stage 1 "tcp" ∅) ["1.2.3.4:179"; "--"; "stdout"]
    = Ok (["stdout"], st') /\
    Bgpipe.K st' !! "addr" = Some (Koanf.KString "1.2.3.4:179").
Proof.
  destruct (Stage_parseArgs_binds DemoArgs.args_of DemoArgs.flags_parse
              (Demo.stage 1 "tcp" ∅) ["1.2.3.4:179"; "--"; "stdout"]
              ["1.2.3.4:179"; "--"; "stdout"] ∅ ["addr"])
    as (st' & Hrun & _ & Hbound & _).
  - reflexivity.
  - reflexivity.
  - discriminate.
  - apply NoDup_singleton.
  - simpl. lia.
  - simpl. by repeat constructor.
  - exists st'. split; [exact Hrun|]. by apply (Hbound 0%nat).
Defined.

Lemma Stage_parseArgs_missing_witness :
  exists st',
    Bgpipe.Stage_parseArgs DemoArgs.args_of DemoArgs.flags_parse
      (Demo.stage 1 "tcp" ∅) ["--"; "stdout"]
    = Err (Bgpipe.needs_argument "addr") (["--"; "stdout"], st').
Proof.
  destruct (Stage_parseArgs_missing DemoArgs.args_of DemoArgs.flags_parse
              (Demo.stage 1 "tcp" ∅) ["--"; "stdout"] ["--"; "stdout"] ∅
              ["addr"] 0 "addr")
    as (st' & Hrun & _).
  - reflexivity.
  - reflexivity.
  - reflexivity.
  - simpl. lia.
  - constructor.
  - by right.
  - by exists st'.
Defined.

Lemma parseArgs_wf_witness :
  exists b',
    Bgpipe.parseArgs DemoArgs.new_stage DemoArgs.is_addr DemoArgs.is_file
      DemoArgs.args_of DemoArgs.flags_parse 4
      ["--"; "tcp"; "1.2.3.4:179"; "--"; "stdout"] DemoArgs.empty
    = Some (Ok b') /\
    stages_wf b'.
Proof.
  eexists. split; [vm_compute; reflexivity|].
  refine (parseArgs_wf DemoArgs.new_stage DemoArgs.is_addr DemoArgs.is_file
            DemoArgs.args_of DemoArgs.flags_parse 4
            ["--"; "tcp"; "1.2.3.4:179"; "--"; "stdout"] DemoArgs.empty
            (Ok _) stages_wf_empty _).
  vm_compute. reflexivity.
Defined.

Lemma parseArgs_second_command_witness :
  exists b',
    Bgpipe.parseArgs DemoArgs.new_stage DemoArgs.is_addr DemoArgs.is_file
      DemoArgs.args_of DemoArgs.flags_parse 2
      ["tcp"; "1.2.3.4:179"; "--"; "stdout"] DemoArgs.empty
    = Some (Err Bgpipe.ErrStageDiff b').
Proof.
  eexists.
  refine (parseArgs_second_command DemoArgs.new_stage DemoArgs.is_addr
            DemoArgs.is_file DemoArgs.args_of DemoArgs.flags_parse
            DemoArgs.empty "tcp" "stdout" ["1.2.3.4:179"] [] _ _ 0
            _ _ _ _ _ _ _ _ _ _ _);
    try reflexivity; try discriminate.
  by repeat constructor.
Defined.

(** ** Stage attachment: sides and stamps *)

Section AttachSides.

Import Koanf Msg Pipe Bgpipe.

Variable StageCount : Bgpipe -> Z.
Variable Stage_Attach : ptr -> Bgpipe -> outcome error Bgpipe.

Local Abbreviation attach_resolve := (Bgpipe.attach_resolve StageCount).
Local Abbreviation attach := (Bgpipe.attach StageCount Stage_Attach).

(** When the first part of attach returns nil the stage has a side: it
    is left, right or both, and both only if it is bidirectional.  A
    "left" or "right" option given alone is taken as it is, whatever the
    position and the roles of the stage.  The direction and the streams
    follow the side: none for both sides, so that Upstream and Downstream
    stay as they were; L with Upstream L and Downstream R for a left
    stage; R with Upstream R and Downstream L for a right one.  The
    first and last marks are only ever set, and nothing else of the
    stage changes. *)
Theorem attach_resolve_sides (b : Bgpipe) (st st' : StageBase) :
  attach_resolve b st = Ok st' ->
  IsLeft st' || IsRight st' = true /\
  (IsLeft st' && IsRight st' = true -> Bidir (Options st) = true) /\
  (K_Bool (K st) "left" <> K_Bool (K st) "right" ->
     IsLeft st' = K_Bool (K st) "left" /\
     IsRight st' = K_Bool (K st) "right") /\
  Dir st' = (if IsLeft st' then if IsRight st' then DIR_LR else DIR_L
             else DIR_R) /\
  (if IsLeft st' && IsRight st'
   then Upstream st' = Upstream st /\ Downstream st' = Downstream st
   else if IsLeft st'
   then Upstream st' = Some LineL /\ Downstream st' = Some LineR
   else Upstream st' = Some LineR /\ Downstream st' = Some LineL) /\
  (IsFirst st = true -> IsFirst st' = true) /\
  (IsLast st = true -> IsLast st' = true) /\
  st' = set_Dir (Dir st') (Upstream st') (Downstream st')
          (set_IsRight (IsRight st')
             (set_IsLeft (IsLeft st')
                (set_IsLast (IsLast st') (set_IsFirst (IsFirst st') st)))).
Proof.
  unfold Bgpipe.attach_resolve.
  destruct st as [idx cmd name k [bidir prod cons sin sout] fst lst
                  l r d up down lg cbs hds ins].
  simpl.
  destruct (idx =? 1), (idx =? StageCount b); simpl;
    destruct (K_Bool k "left"), (K_Bool k "right"); simpl;
    destruct bidir; simpl; try done;
    destruct fst, lst, prod; simpl; intros [= <-]; simpl;
    repeat apply conj; try done.
Qed.



End AttachSides.

Lemma attach_resolve_sides_witness :
  exists st',
    Bgpipe.attach_resolve Demo.count Demo.pipeline
      (Demo.stage 1 "@a" {[ "right" := Koanf.KBool true ]}) = Ok st' /\
    Bgpipe.IsLeft st' = false /\ Bgpipe.IsRight st' = true.
Proof.
  eexists. split; [vm_compute; reflexivity|].
  refine (proj1 (proj2 (proj2
            (attach_resolve_sides Demo.count Demo.pipeline
               (Demo.stage 1 "@a" {[ "right" := Koanf.KBool true ]}) _ _)))
            _).
  - vm_compute. reflexivity.
  - vm_compute. discriminate.
Defined.


(** ** Reversal of the pipeline, one pass *)

Section ReverseOnce.

Import Koanf Bgpipe.

Lemma flips_absent (p : ptr) (l : list (option ptr)) :
  Some p ∉ l -> flips p l = false.
Proof.
  induction l as [|x l IH]; intros Hp; simpl; [done|].
  apply not_elem_of_cons in Hp as [Hx Hp].
  rewrite IH by done. by rewrite bool_decide_eq_false_2.
Qed.

Lemma flips_once (l : list (option ptr)) :
  forall (p : ptr) (i : nat),
    l !! i = Some (Some p) ->
    (forall j, l !! j = Some (Some p) -> j = i) ->
    flips p l = true.
Proof.
  induction l as [|x l IH]; intros p i Hi Honly; [done|]. simpl.
  destruct i as [|i]; simpl in Hi.
  - injection Hi as ->. rewrite bool_decide_eq_true_2 by done.
    rewrite flips_absent; [done|].
    intros Hin. apply list_elem_of_lookup in Hin as [j Hj].
    by specialize (Honly (S j) Hj).
  - rewrite bool_decide_eq_false_2.
    + simpl. apply (IH p i Hi). intros j Hj.
      specialize (Honly (S j) Hj). lia.
    + intros ->. by specialize (Honly 0%nat eq_refl).
Qed.

(** Reversing all but slot 0 mirrors the slots from 1 on. *)
Lemma lookup_mirror {A : Type} (x : A) (rest : list A) (i : nat) :
  (1 <= i <= length rest)%nat ->
  (x :: rev rest) !! (S (length rest) - i)%nat = (x :: rest) !! i.
Proof.
  intros Hi. destruct i as [|i]; [lia|].
  replace (S (length rest) - S i)%nat with (S (length rest - S i)) by lia.
  simpl. rewrite rev_alt.
  change (rev_append rest []) with (reverse rest).
  rewrite reverse_lookup by lia. f_equal. lia.
Qed.

(** With --reverse set, one pass of the reversal block of Bgpipe.Attach
    over a well-formed stage list leaves a well-formed list of the same
    length: the stage of slot [i] moves to slot [len - i], carries that
    index, and has its "left" and "right" options exchanged, with no
    other option and no other field but Index and K changed. *)
Theorem Attach_reverse_once (b : Bgpipe) :
  K_Bool (B_K b) "reverse" = true -> Stages b <> [] -> stages_wf b ->
  exists b1,
    Attach_reverse b = Ok b1 /\ stages_wf b1 /\
    length (Stages b1) = length (Stages b) /\
    B_K b1 = B_K b /\ P_Options b1 = P_Options b /\
    forall i p st,
      Stages b !! i = Some (Some p) -> heap b !! p = Some st ->
      exists st1,
        Stages b1 !! (length (Stages b) - i)%nat = Some (Some p) /\
        heap b1 !! p = Some st1 /\
        Index st1 = Z.of_nat (length (Stages b) - i) /\
        lr_rel true st st1.
Proof.
  intros Hrev Hne [Hwf1 Hwf2]. unfold Attach_reverse. rewrite Hrev.
  destruct (Stages b) as [|s0 rest] eqn:HS; [done|]. clear Hne.
  eexists. split; [reflexivity|]. simpl.
  set (l := s0 :: rev rest).
  assert (s0 = None) as Hs0.
  { destruct s0 as [p|]; [|done].
    destruct (Hwf1 0%nat p eq_refl) as [? _]. lia. }
  assert (forall j p, l !! j = Some (Some p) ->
            (1 <= j <= length rest)%nat /\
            (s0 :: rest) !! (S (length rest) - j)%nat = Some (Some p))
    as Hback.
  { intros j p Hj.
    assert (1 <= j <= length rest)%nat as Hr.
    { split.
      - destruct j; [|lia]. subst l s0. done.
      - apply lookup_lt_Some in Hj. subst l. simpl in Hj.
        rewrite length_rev in Hj. lia. }
    split; [done|]. rewrite <- Hj. subst l.
    rewrite <- (lookup_mirror s0 rest (S (length rest) - j)) by lia.
    f_equal. lia. }
  assert (forall i j p, l !! i = Some (Some p) -> l !! j = Some (Some p) ->
            i = j) as Honly.
  { intros i j p Hi Hj.
    destruct (Hback i p Hi) as [Hri Hi'], (Hback j p Hj) as [Hrj Hj'].
    pose proof (Hwf2 _ _ _ Hi' Hj'). lia. }
  assert (forall s st0, heap b !! s = Some st0 ->
            exists st, reverse_loop 0 l (heap b) !! s = Some st /\
                       lr_rel (flips s l) st0 st) as Hrel.
  { intros s st0 Hs.
    destruct (reverse_loop_rel (heap b) l 0 (heap b) (fun _ => false))
      with (s := s) (st0 := st0) as (st & Hst & Hr); [|done|by exists st].
    intros s' st' Hs'. exists st'. split; [done|apply lr_rel_refl]. }
  assert (forall j p, l !! j = Some (Some p) ->
            exists st0 st,
              heap b !! p = Some st0 /\
              reverse_loop 0 l (heap b) !! p = Some st /\
              Index st = Z.of_nat j /\ lr_rel true st0 st) as Hslot.
  { intros j p Hj. destruct (Hback j p Hj) as [Hr Hj'].
    destruct (Hwf1 _ _ Hj') as (_ & st0 & Hp & _).
    destruct (Hrel p st0 Hp) as (st & Hst & Hlr).
    exists st0, st. split; [done|]. split; [done|]. split.
    - rewrite (reverse_loop_Index l 0 (heap b) j p st Hj); [lia| |done].
      intros j' Hlt Hj2. pose proof (Honly _ _ _ Hj Hj2). lia.
    - rewrite (flips_once l p j Hj) in Hlr; [done|].
      intros j' Hj2. by apply (Honly j' j p). }
  split; [|split; [|split; [done|split; [done|]]]].
  - split; simpl.
    + intros j p Hj. destruct (Hback j p Hj) as [Hr _].
      split; [lia|]. destruct (Hslot j p Hj) as (st0 & st & _ & Hst & Hi & _).
      by exists st.
    + exact Honly.
  - simpl. by rewrite length_rev.
  - intros i p st Hi Hp.
    destruct (Hwf1 i p Hi) as [Hpos _].
    apply lookup_lt_Some in Hi as Hlt. simpl in Hlt.
    assert (l !! (S (length rest) - i)%nat = Some (Some p)) as Hnew.
    { subst l. rewrite lookup_mirror by lia. done. }
    destruct (Hslot _ p Hnew) as (st0 & st1 & Hp0 & Hst1 & Hidx & Hlr).
    rewrite Hp in Hp0. injection Hp0 as <-.
    exists st1. exact (conj Hnew (conj Hst1 (conj Hidx Hlr))).
Qed.

End ReverseOnce.

Lemma stages_wf_pipeline : stages_wf Demo.pipeline.
Proof.
  split.
  - intros [|[|[|i]]] p Hi; try done.
    + injection Hi as <-. split; [lia|]. by eexists.
    + injection Hi as <-. split; [lia|]. by eexists.
  - intros [|[|[|i]]] [|[|[|j]]] p Hi Hj; try done.
    + injection Hi as <-. done.
    + injection Hi as <-. done.
Qed.

Lemma Attach_reverse_once_witness :
  exists b1,
    Bgpipe.Attach_reverse Demo.pipeline = Ok b1 /\
    Bgpipe.Stages b1 = [None; Some 1%nat; Some 0%nat].
Proof.
  destruct (Attach_reverse_once Demo.pipeline) as (b1 & H1 & _).
  - reflexivity.
  - discriminate.
  - apply stages_wf_pipeline.
  - exists b1. split; [exact H1|].
    revert H1. vm_compute. by intros [= <-].
Defined.

(** ** Event names, once more *)

Section EventNamesStable.

Import Koanf Events.

Variable ToUpper : string -> string.

Lemma rewrite_event_lib (et : string) :
  occurs_inside "/" (rewrite_event ToUpper et) = true.
Proof.
  rewrite rewrite_event_cases.
  destruct (occurs_inside "/" et) eqn:E; [done|].
  by destruct (occurs_inside "." et).
Qed.

(** Every name cfgEvents returns has its library part, a '/' that is not
    its first byte, and is a name cfgEvents leaves as it is: storing the
    result under the key and running cfgEvents again returns the same
    list. *)
Theorem cfgEvents_idempotent (k : koanf) (key : string) :
  Forall (fun et => occurs_inside "/" et = true /\
                    rewrite_event ToUpper et = et)
    (cfgEvents ToUpper k key) /\
  cfgEvents ToUpper (K_Set k key (KStrings (cfgEvents ToUpper k key))) key
  = cfgEvents ToUpper k key.
Proof.
  assert (forall et, rewrite_event ToUpper (rewrite_event ToUpper et)
                     = rewrite_event ToUpper et) as Hidem.
  { intros et. rewrite (rewrite_event_cases ToUpper (rewrite_event ToUpper et)).
    by rewrite rewrite_event_lib. }
  rewrite !cfgEvents_map. split.
  - apply Forall_forall. intros et Het.
    apply list_elem_of_fmap in Het as (et0 & -> & _).
    split; [apply rewrite_event_lib|apply Hidem].
  - unfold K_Set, K_Strings. rewrite lookup_insert_eq.
    rewrite <- list_fmap_compose. apply list_fmap_ext.
    intros i et _. apply Hidem.
Qed.

End EventNamesStable.

(** ** Reversal and sides *)

Section ReverseSides.

Import Koanf Msg Bgpipe.

Variable StageCount : Bgpipe -> Z.

(** Reversal comes before the stages attach, so a stage attaches on the
    side opposite to the one it was given: with --reverse set, a stage
    of a well-formed pipeline given "left" alone attaches as a right
    stage, with direction R, Upstream R and Downstream L, and one given
    "right" alone attaches as a left stage. *)
Theorem reverse_then_attach_side (b : Bgpipe) (i : nat) (p : ptr)
    (st : StageBase) :
  K_Bool (B_K b) "reverse" = true -> stages_wf b ->
  Stages b !! i = Some (Some p) -> heap b !! p = Some st ->
  K_Bool (K st) "left" <> K_Bool (K st) "right" ->
  exists b1 st1 st',
    Attach_reverse b = Ok b1 /\ heap b1 !! p = Some st1 /\
    attach_resolve StageCount b1 st1 = Ok st' /\
    IsLeft st' = K_Bool (K st) "right" /\
    IsRight st' = K_Bool (K st) "left" /\
    Dir st' = (if K_Bool (K st) "left" then DIR_R else DIR_L) /\
    Upstream st' = Some (if K_Bool (K st) "left" then LineR else LineL) /\
    Downstream st' = Some (if K_Bool (K st) "left" then LineL else LineR).
Proof.
  intros Hrev Hwf Hi Hp Hside.
  assert (Stages b <> []) as Hne by (by destruct (Stages b)).
  destruct Hwf as [Hwf1 Hwf2].
  unfold Attach_reverse. rewrite Hrev.
  destruct (Stages b) as [|s0 rest] eqn:HS; [done|].
  destruct (reverse_loop_rel (heap b) (s0 :: rev rest) 0 (heap b)
              (fun _ => false)) with (s := p) (st0 := st)
    as (st1 & Hst1 & Hrel); [|done|].
  { intros s' st' Hs'. exists st'. split; [done|apply lr_rel_refl]. }
  assert (flips p (s0 :: rev rest) = true) as Hflip.
  { simpl. rewrite flips_rev.
    change (flips p (s0 :: rest) = true).
    apply (flips_once (s0 :: rest) p i Hi). intros j Hj.
    by apply (Hwf2 j i p). }
  rewrite Hflip in Hrel. destruct Hrel as (Hl & Hr & _ & _).
  simpl in Hl, Hr.
  eexists _, st1. simpl.
  assert (exists st',
            attach_resolve StageCount
              (set_heap (reverse_loop 0 (s0 :: rev rest) (heap b))
                 (set_Stages (s0 :: rev rest) b)) st1 = Ok st' /\
            IsLeft st' = K_Bool (K st1) "left" /\
            IsRight st' = K_Bool (K st1) "right" /\
            Dir st' = (if K_Bool (K st1) "right" then DIR_R else DIR_L) /\
            Upstream st'
            = Some (if K_Bool (K st1) "right" then LineR else LineL) /\
            Downstream st'
            = Some (if K_Bool (K st1) "right" then LineL else LineR))
    as (st' & Hres & HL & HR & HD & HU & HDo).
  { assert (K_Bool (K st1) "left" <> K_Bool (K st1) "right") as Hside1
      by (rewrite Hl, Hr; intros Heq; apply Hside; by symmetry).
    unfold attach_resolve.
    generalize (set_heap (reverse_loop 0 (s0 :: rev rest) (heap b))
                  (set_Stages (s0 :: rev rest) b)) as b1.
    intros b1. clear -Hside1.
    destruct st1 as [idx cmd name k opts fst lst l r d up down lg cbs hds
                     ins]; simpl in *.
    destruct (idx =? 1), (idx =? StageCount b1); simpl;
      destruct (K_Bool k "left"), (K_Bool k "right"); try done; simpl;
      eexists; (split; [reflexivity|]); simpl; by repeat apply conj. }
  exists st'. rewrite HL, HR, HD, HU, HDo, Hl, Hr.
  split; [reflexivity|]. split; [exact Hst1|]. split; [exact Hres|].
  by repeat apply conj.
Qed.

End ReverseSides.

Lemma reverse_then_attach_side_witness :
  exists b1 st1 st',
    Bgpipe.Attach_reverse
      (Bgpipe.store 1%nat (Demo.stage 2 "@b" {[ "left" := Koanf.KBool true ]})
         Demo.pipeline) = Ok b1 /\
    Bgpipe.heap b1 !! 1%nat = Some st1 /\
    Bgpipe.attach_resolve Demo.count b1 st1 = Ok st' /\
    Bgpipe.IsRight st' = true.
Proof.
  destruct (reverse_then_attach_side Demo.count
              (Bgpipe.store 1%nat
                 (Demo.stage 2 "@b" {[ "left" := Koanf.KBool true ]})
                 Demo.pipeline) 2%nat 1%nat
              (Demo.stage 2 "@b" {[ "left" := Koanf.KBool true ]}))
    as (b1 & st1 & st' & H1 & H2 & H3 & _ & H4 & _).
  - reflexivity.
  - apply stages_wf_store with (st := Demo.stage_b);
      [apply stages_wf_pipeline|reflexivity|reflexivity].
  - reflexivity.
  - reflexivity.
  - vm_compute. discriminate.
  - exists b1, st1, st'. by repeat apply conj.
Defined.

(** ** TCP MD5 signatures *)

Section TcpMd5.

Import Tcp.

(** The key handed to setsockopt is always 80 bytes: the password cut
    after its first 80 bytes, then zeros; Keylen is the number of
    password bytes in it, at most 80.  So two passwords that agree on
    their first 80 bytes set the same signature. *)
Theorem tcp_md5_key (md5pass other : list byte) (net : string) :
  take 80 other = take 80 md5pass ->
  let sig := tcp_md5_sig md5pass net in
  length (Key sig) = 80%nat /\
  Keylen sig = Z.of_nat (Nat.min 80 (length md5pass)) /\
  take (Z.to_nat (Keylen sig)) (Key sig) = take 80 md5pass /\
  drop (Z.to_nat (Keylen sig)) (Key sig)
  = replicate (80 - Z.to_nat (Keylen sig)) "000"%byte /\
  Prefixlen sig = 0 /\ Flags sig = TCP_MD5SIG_FLAG_PREFIX /\
  tcp_md5_sig other net = sig.
Proof.
  intros Hsame sig. subst sig. unfold tcp_md5_sig, copy_key.
  cbn [Key Keylen Prefixlen Flags].
  assert (length (take (Nat.min 80 (length md5pass)) md5pass)
          = Nat.min 80 (length md5pass)) as Hlen.
  { rewrite length_take. lia. }
  assert (Z.of_nat (Nat.min 80 (length md5pass)) mod 2 ^ 16
          = Z.of_nat (Nat.min 80 (length md5pass))) as Hmod.
  { apply Z.mod_small. lia. }
  assert (take (Nat.min 80 (length md5pass)) md5pass = take 80 md5pass)
    as Htake.
  { destruct (Nat.le_ge_cases 80 (length md5pass)) as [H|H].
    - by rewrite Nat.min_l.
    - rewrite Nat.min_r by done. by rewrite !take_ge by lia. }
  rewrite Hmod, Nat2Z.id.
  split; [|split; [|split; [|split; [|split; [|split]]]]]; try done.
  - rewrite length_app, length_replicate, Hlen. lia.
  - rewrite take_app_length' by done. done.
  - rewrite drop_app_length' by done. done.
  - assert (Nat.min 80 (length other) = Nat.min 80 (length md5pass)) as Hl.
    { apply (f_equal length) in Hsame. rewrite !length_take in Hsame. lia. }
    assert (take (Nat.min 80 (length other)) other = take 80 other) as Ho.
    { destruct (Nat.le_ge_cases 80 (length other)) as [H|H].
      - by rewrite Nat.min_l.
      - rewrite Nat.min_r by done. by rewrite !take_ge by lia. }
    rewrite Ho, Hsame, Hl, Htake, Hmod. done.
Qed.

End TcpMd5.

Lemma tcp_md5_key_witness :
  Tcp.tcp_md5_sig (replicate 81 "a"%byte) "tcp6"
  = Tcp.tcp_md5_sig (replicate 80 "a"%byte) "tcp6".
Proof.
  refine (proj2 (proj2 (proj2 (proj2 (proj2 (proj2
            (tcp_md5_key (replicate 80 "a"%byte) (replicate 81 "a"%byte)
               "tcp6" _))))))).
  reflexivity.
Defined.

(** ** The external I/O adapter: draining the output *)

Section Drain.

Import Koanf Msg Extio.

Context {lib : Lib}.

Variable writer : Type.
Variable bb_WriteTo : bytes -> writer -> writer * option error.

Local Abbreviation WriteStream := (Extio.WriteStream writer bb_WriteTo).
Local Abbreviation WriteStream_range :=
  (Extio.WriteStream_range writer bb_WriteTo).

Lemma WriteStream_range_ok (q : list bytes) :
  forall (e : Extio) (w : writer),
    Forall (fun bb => forall w, (bb_WriteTo bb w).2 = None) q ->
    WriteStream_range q e w
    = (if ch_closed (Output e)
       then Returned writer
              (Ok (set_Output (mkChan (ch_closed (Output e)) []) e))
              (written bb_WriteTo q w)
       else Waiting writer
              (set_Output (mkChan (ch_closed (Output e)) []) e)
              (written bb_WriteTo q w)) \/
    q = [] /\ WriteStream_range q e w
              = (if ch_closed (Output e) then Returned writer (Ok e) w
                 else Waiting writer e w).
Proof.
  induction q as [|bb q IH]; intros e w Hq; [by right|]. left.
  apply Forall_cons in Hq as [Hbb Hq]. simpl.
  specialize (Hbb w). destruct (bb_WriteTo bb w) as [w1 err] eqn:Hw.
  simpl in Hbb. subst err.
  destruct (IH (set_Output (mkChan (ch_closed (Output e)) q) e) w1 Hq)
    as [->|[-> ->]].
  - simpl. by destruct e.
  - simpl. by destruct e.
Qed.

(** With a writer that takes every buffer, WriteStream writes the queued
    buffers in the order they were queued and leaves the channel empty;
    it returns nil if the channel is closed, and otherwise waits for
    more.  It changes nothing of the adapter but the queue. *)
Theorem WriteStream_drains (e : Extio) (w : writer) :
  Forall (fun bb => forall w, (bb_WriteTo bb w).2 = None)
    (ch_queue (Output e)) ->
  let e' := set_Output (mkChan (ch_closed (Output e)) []) e in
  let w' := written bb_WriteTo (ch_queue (Output e)) w in
  WriteStream e w
  = (if ch_closed (Output e) then Returned writer (Ok e') w'
     else Waiting writer e' w').
Proof.
  intros Hq e' w'. unfold Extio.WriteStream.
  destruct (WriteStream_range_ok _ e w Hq) as [->|[Hnil ->]]; [done|].
  subst e' w'. rewrite Hnil. unfold written. simpl.
  assert (set_Output (mkChan (ch_closed (Output e)) []) e = e) as ->; [|done].
  destruct e as [? ? ? ? ? ? ? ? ? ? ? ? ? ? ? ? ? ? ? ? ? [c q] ? ?].
  simpl in *. by subst q.
Qed.

Lemma WriteStream_range_fail (pre : list bytes) :
  forall (e : Extio) (w w1 : writer) (bb : bytes) (post : list bytes)
         (err : error) (cb : PCallback),
    Forall (fun bb => forall w, (bb_WriteTo bb w).2 = None) pre ->
    bb_WriteTo bb (written bb_WriteTo pre w) = (w1, Some err) ->
    Callback e = Some cb ->
    WriteStream_range (pre ++ bb :: post) e w
    = Returned writer
        (Err err
           (set_Output (mkChan true post)
              (set_Callback
                 (Some (mkPCallback (cb_Dir cb) (cb_Types cb) true))
                 (set_opt_read true e)))) w1.
Proof.
  induction pre as [|x pre IH]; intros e w w1 bb post err cb Hpre Hbb Hcb.
  - simpl in *. rewrite Hbb. unfold OutputClose.
    replace (Callback (set_opt_read true
               (set_Output (mkChan (ch_closed (Output e)) post) e)))
      with (Callback e) by (by destruct e).
    rewrite Hcb. by destruct e.
  - apply Forall_cons in Hpre as [Hx Hpre]. simpl.
    specialize (Hx w). destruct (bb_WriteTo x w) as [w2 errx] eqn:Hw.
    simpl in Hx. subst errx.
    rewrite (IH _ w2 w1 bb post err cb Hpre).
    + by destruct e.
    + unfold written in *. simpl in Hbb. by rewrite Hw in Hbb.
    + by destruct e.
Qed.

(** When a write fails, WriteStream returns the error of the writer at
    once: the buffers before the failing one were written in order, the
    failing one is gone from the channel, those after it are still
    queued and were not handed to the writer, and the adapter has been
    shut for output as OutputClose does (read-only, callback marked for
    removal, channel closed). *)
Theorem WriteStream_error (e : Extio) (w w1 : writer) (pre post : list bytes)
    (bb : bytes) (err : error) (cb : PCallback) :
  ch_queue (Output e) = pre ++ bb :: post ->
  Forall (fun bb => forall w, (bb_WriteTo bb w).2 = None) pre ->
  bb_WriteTo bb (written bb_WriteTo pre w) = (w1, Some err) ->
  Callback e = Some cb ->
  WriteStream e w
  = Returned writer
      (Err err
         (set_Output (mkChan true post)
            (set_Callback (Some (mkPCallback (cb_Dir cb) (cb_Types cb) true))
               (set_opt_read true e)))) w1.
Proof.
  intros Hq Hpre Hbb Hcb. unfold Extio.WriteStream. rewrite Hq.
  by apply WriteStream_range_fail.
Qed.

End Drain.

Lemma WriteStream_drains_witness :
  exists e',
    @Extio.WriteStream ExtioDemo.lib Extio.bytes DemoWriter.write_to
      (Extio.set_Output (Extio.mkChan true [["a"%byte]; ["b"%byte]])
         ExtioDemo.text) []
    = Extio.Returned Extio.bytes (Ok e') ["a"%byte; "b"%byte].
Proof.
  eexists.
  refine (@WriteStream_drains ExtioDemo.lib Extio.bytes DemoWriter.write_to
            (Extio.set_Output (Extio.mkChan true [["a"%byte]; ["b"%byte]])
               ExtioDemo.text) [] _).
  by repeat constructor.
Defined.

Lemma WriteStream_error_witness :
  exists e',
    @Extio.WriteStream ExtioDemo.lib Extio.bytes DemoWriter.write_to
      DemoWriter.queued []
    = Extio.Returned Extio.bytes (Err (Extio.ErrLib "short write") e')
        ["a"%byte] /\
    Extio.ch_queue (Extio.Output e') = [["b"%byte]].
Proof.
  eexists. split.
  - refine (@WriteStream_error ExtioDemo.lib Extio.bytes DemoWriter.write_to
              DemoWriter.queued [] ["a"%byte] [["a"%byte]] [["b"%byte]] []
              (Extio.ErrLib "short write")
              (Extio.mkPCallback Msg.DIR_R [] false) _ _ _ _).
    + reflexivity.
    + by repeat constructor.
    + reflexivity.
    + vm_compute. reflexivity.
  - reflexivity.
Defined.

(** ** The external I/O adapter: a stream as one buffer *)

Section StreamWhole.

Import Koanf Msg Extio.

Context {lib : Lib}.





End StreamWhole.


(** ** The external I/O adapter: after an error in text mode *)

Section IngressResume.

Import Koanf Msg Extio.

Context {lib : Lib}.



End IngressResume.

